(** * Let'sCode execution engine: strategy router, judge engine, container
    orchestrator and execution controller.

    A shallow embedding of the TypeScript sources
      - packages/shared/src/types.ts
      - packages/backend/src/execution/strategy-router.ts
      - packages/backend/src/judge/judge-engine.ts
      - packages/backend/src/execution/server/container-orchestrator.ts
      - packages/backend/src/execution/execution-controller.ts
      - packages/backend/src/database/submission-repository.ts
      - packages/backend/src/queue/submission-queue.ts
      - packages/backend/src/api/api-server.ts
      - packages/backend/src/websocket/websocket-server.ts
    followed by the properties of the specification that are stated on it,
    and by more properties of the code.

    JavaScript strings are sequences of UTF-16 code units, JavaScript numbers
    are binary64 floats, optional fields are options, [Map] objects and the
    SQL table keyed by its primary key are finite maps, and the asynchronous
    methods of the controller run in a state-and-exception monad over the
    state of the outside world (Docker daemon, database, queue, clock). *)

From Stdlib Require Import ZArith NArith List String Ascii Bool Lia.
From Stdlib Require Import FloatClass PrimFloat Uint63 SpecFloat FloatOps FloatAxioms.
From stdpp Require Import gmap.
Import ListNotations.

Set Default Proof Using "Type".

(** ** JavaScript values *)

Module JS.

(** A string is its sequence of UTF-16 code units. *)
Definition jsstring : Type := list N.

(** The code units of an ASCII literal. *)
Fixpoint lit (s : string) : jsstring :=
  match s with
  | EmptyString => []
  | String c s' => N_of_ascii c :: lit s'
  end.

Arguments lit : simpl never.

Definition LF : N := 10.
Definition SPACE : N := 32.

Fixpoint str_eqb (a b : jsstring) : bool :=
  match a, b with
  | [], [] => true
  | x :: a', y :: b' => N.eqb x y && str_eqb a' b'
  | _, _ => false
  end.

(** [WhiteSpace] and [LineTerminator] of ECMA-262: what [String.prototype.trim],
    [trimEnd] and the regular-expression class [\s] remove or match. *)
Definition is_whitespace (c : N) : bool :=
  (N.leb 9 c && N.leb c 13)            (* TAB LF VT FF CR *)
  || N.eqb c 32                        (* SPACE *)
  || N.eqb c 160                       (* NO-BREAK SPACE *)
  || N.eqb c 5760                      (* OGHAM SPACE MARK *)
  || (N.leb 8192 c && N.leb c 8202)    (* EN QUAD .. HAIR SPACE *)
  || N.eqb c 8232 || N.eqb c 8233      (* LINE / PARAGRAPH SEPARATOR *)
  || N.eqb c 8239 || N.eqb c 8287      (* NARROW NBSP, MEDIUM MATH SPACE *)
  || N.eqb c 12288                     (* IDEOGRAPHIC SPACE *)
  || N.eqb c 65279.                    (* ZERO WIDTH NO-BREAK SPACE (BOM) *)

(** Removal of the longest suffix whose code units all satisfy [p]. *)
Fixpoint rstrip (p : N -> bool) (s : jsstring) : jsstring :=
  match s with
  | [] => []
  | c :: s' =>
      match rstrip p s' with
      | [] => if p c then [] else [c]
      | t => c :: t
      end
  end.

Fixpoint lstrip (p : N -> bool) (s : jsstring) : jsstring :=
  match s with
  | [] => []
  | c :: s' => if p c then lstrip p s' else s
  end.

Definition trimEnd (s : jsstring) : jsstring := rstrip is_whitespace s.
Definition trimStart (s : jsstring) : jsstring := lstrip is_whitespace s.
Definition trim (s : jsstring) : jsstring := trimEnd (trimStart s).

(** [s.split(sep)] for a one-code-unit separator: never the empty array,
    [''.split(sep)] is [['']]. *)
Fixpoint split (sep : N) (s : jsstring) : list jsstring :=
  match s with
  | [] => [[]]
  | c :: s' =>
      if N.eqb c sep then [] :: split sep s'
      else match split sep s' with
           | [] => [[c]]
           | l :: ls => (c :: l) :: ls
           end
  end.

(** [parts.join(sep)]. *)
Fixpoint join (sep : N) (parts : list jsstring) : jsstring :=
  match parts with
  | [] => []
  | [p] => p
  | p :: rest => p ++ sep :: join sep rest
  end.

(** [s.includes(needle)]. *)
Fixpoint starts_with (needle s : jsstring) : bool :=
  match needle, s with
  | [], _ => true
  | x :: n', y :: s' => N.eqb x y && starts_with n' s'
  | _ :: _, [] => false
  end.

Fixpoint includes (needle s : jsstring) : bool :=
  starts_with needle s
  || match s with
     | [] => false
     | _ :: s' => includes needle s'
     end.

(** Numbers are binary64 floats. *)
Definition number : Type := float.
Bind Scope float_scope with number.

Definition is_nan (x : number) : bool := negb (PrimFloat.eqb x x).

(** [ToBoolean] on a number: [+0], [-0] and [NaN] are falsy. *)
Definition truthy (x : number) : bool :=
  negb (PrimFloat.eqb x 0 || is_nan x).

(** The number that a length or a count is. Exact below 2^53, which
    bounds the length of every JavaScript string. *)
Definition of_nat (n : nat) : number :=
  PrimFloat.of_uint63 (Uint63.of_Z (Z.of_nat n)).

(** [x || d] for an optional number [x]. *)
Definition num_or (x : option number) (d : number) : number :=
  match x with
  | Some v => if truthy v then v else d
  | None => d
  end.

(** [s || d] for an optional string: the empty string is falsy. *)
Definition str_or (s : option jsstring) (d : jsstring) : jsstring :=
  match s with
  | Some [] | None => d
  | Some v => v
  end.

Definition is_neg_zero (x : number) : bool :=
  match PrimFloat.classify x with
  | NZero => true
  | _ => false
  end.

Definition is_pos_zero (x : number) : bool :=
  match PrimFloat.classify x with
  | PZero => true
  | _ => false
  end.

(** [Math.max(...xs)]: [-Infinity] for no argument, [NaN] as soon as an
    argument is [NaN], and [+0] is larger than [-0]. *)
Definition max_step (highest x : number) : number :=
  if is_pos_zero x && is_neg_zero highest then x
  else if PrimFloat.ltb highest x then x
  else highest.

Definition Math_max (xs : list number) : number :=
  if existsb is_nan xs then nan
  else fold_left max_step xs neg_infinity.

(** What a rejected promise or a [throw] carries: an [Error] object with
    its message, or some other value. *)
Inductive thrown : Type :=
| ErrorObj (message : jsstring)
| OtherValue.

End JS.
Import JS.

(** ** Core types (packages/shared/src/types.ts)

    Each interface is a record in a module of its name, so that fields keep
    the names they have in the source ([Verdict.status], [Submission.status]). *)

Inductive SupportedLanguage : Type := javascript | python | cpp | rust.

Inductive SubmissionStatus : Type :=
  Queued | Running | Judging | Completed | Failed | Cancelled.

Inductive VerdictStatus : Type :=
| Accepted
| WrongAnswer
| TimeLimitExceeded
| MemoryLimitExceeded
| RuntimeError
| CompilationError
| SecurityViolation
| SystemError.

(** The string a [VerdictStatus] is in the source. *)
Definition VerdictStatus_string (v : VerdictStatus) : jsstring :=
  match v with
  | Accepted => lit "Accepted"
  | WrongAnswer => lit "Wrong Answer"
  | TimeLimitExceeded => lit "Time Limit Exceeded"
  | MemoryLimitExceeded => lit "Memory Limit Exceeded"
  | RuntimeError => lit "Runtime Error"
  | CompilationError => lit "Compilation Error"
  | SecurityViolation => lit "Security Violation"
  | SystemError => lit "System Error"
  end.

Inductive ExecutionStrategyType : Type := client | server | hybrid.

Definition ExecutionStrategyType_string (t : ExecutionStrategyType) : jsstring :=
  match t with
  | client => lit "client"
  | server => lit "server"
  | hybrid => lit "hybrid"
  end.

Inductive ExecutionEnvironmentType : Type := worker | container | wasm.

Inductive Complexity : Type := low | medium | high.

Inductive EnvironmentStatus : Type := idle | busy | terminated.

Module ComparisonMode.
Record t : Type := mk {
  trimWhitespace : bool;
  ignoreTrailingSpaces : bool;
  ignoreEmptyLines : bool }.
End ComparisonMode.

Module SubmissionRequest.
Record t : Type := mk {
  code : jsstring;
  language : SupportedLanguage;
  problemId : jsstring;
  userId : jsstring;
  isCustomTest : bool;
  customInput : option jsstring }.
End SubmissionRequest.

Module ExecutionStrategy.
Record t : Type := mk {
  type : ExecutionStrategyType;
  reason : jsstring;
  estimatedCost : number;
  estimatedLatency : number }.
End ExecutionStrategy.

Module CodeAnalysis.
Record t : Type := mk {
  complexity : Complexity;
  hasUnsafeOperations : bool;
  estimatedMemory : number;
  estimatedCPU : number;
  requiresCompilation : bool;
  canRunInBrowser : bool }.
End CodeAnalysis.

Module ResourceLimits.
Record t : Type := mk {
  timeLimit : number;
  memoryLimit : number;
  cpuQuota : number;
  pidsLimit : number }.
End ResourceLimits.

Module ExecutionResult.
Record t : Type := mk {
  success : bool;
  output : option jsstring;
  error : option jsstring;
  verdict : option VerdictStatus;
  executionTime : option number;
  memoryUsed : option number;
  exitCode : option number }.
End ExecutionResult.

Module TestCase.
Record t : Type := mk {
  id : jsstring;
  input : jsstring;
  expectedOutput : jsstring;
  timeLimit : number;
  memoryLimit : number;
  isHidden : bool }.
End TestCase.

Module TestCaseResult.
Record t : Type := mk {
  testCaseNumber : nat;
  passed : bool;
  verdict : VerdictStatus;
  executionTime : number;
  memoryUsed : number;
  actualOutput : option jsstring;
  error : option jsstring }.
End TestCaseResult.

Module Verdict.
Record t : Type := mk {
  status : VerdictStatus;
  passedTests : nat;
  totalTests : nat;
  maxTime : number;
  maxMemory : number;
  failedTestCase : option nat;
  errorMessage : option jsstring }.
End Verdict.

Module ExecutionEnvironment.
Record t : Type := mk {
  id : jsstring;
  type : ExecutionEnvironmentType;
  language : SupportedLanguage;
  status : EnvironmentStatus;
  createdAt : number;
  lastUsed : number;
  executionCount : nat }.
End ExecutionEnvironment.

Module SystemMetrics.
Record t : Type := mk {
  serverLoad : number;
  queueDepth : nat;
  availableWorkers : nat;
  avgResponseTime : number }.
End SystemMetrics.

(** [Date] values are their epoch milliseconds. *)
Module Submission.
Record t : Type := mk {
  id : jsstring;
  userId : jsstring;
  problemId : jsstring;
  code : jsstring;
  language : SupportedLanguage;
  status : SubmissionStatus;
  verdict : option Verdict.t;
  createdAt : number;
  startedAt : option number;
  completedAt : option number;
  executionStrategy : ExecutionStrategy.t;
  testResults : list TestCaseResult.t }.

(** Assignments to the fields that the controller mutates. *)
Definition set_status (v : SubmissionStatus) (s : t) : t :=
  mk (id s) (userId s) (problemId s) (code s) (language s) v (verdict s)
     (createdAt s) (startedAt s) (completedAt s) (executionStrategy s)
     (testResults s).
Definition set_verdict (v : option Verdict.t) (s : t) : t :=
  mk (id s) (userId s) (problemId s) (code s) (language s) (status s) v
     (createdAt s) (startedAt s) (completedAt s) (executionStrategy s)
     (testResults s).
Definition set_startedAt (d : option number) (s : t) : t :=
  mk (id s) (userId s) (problemId s) (code s) (language s) (status s)
     (verdict s) (createdAt s) d (completedAt s) (executionStrategy s)
     (testResults s).
Definition set_completedAt (d : option number) (s : t) : t :=
  mk (id s) (userId s) (problemId s) (code s) (language s) (status s)
     (verdict s) (createdAt s) (startedAt s) d (executionStrategy s)
     (testResults s).
End Submission.

(** ** Regular expressions, as the router uses them

    The patterns of strategy-router.ts are built from literal characters,
    character classes, greedy [*] and [+] over one class, [\b], sequence and
    ordered alternation. The matcher is the backtracking matcher of
    ECMA-262 for these constructs: alternatives are tried left to right, a
    quantifier takes as many characters as it can and gives them back one by
    one. None of the patterns has the [u] flag. *)

Module Regex.

Inductive cls : Type :=
| Chr (c : N)                 (* a pattern character *)
| Dot                         (* .   *)
| Space                       (* \s  *)
| WordChar                    (* \w  *)
| OneOf (cs : list N)         (* [cs]  *)
| NoneOf (cs : list N).       (* [^cs] *)

Inductive regex : Type :=
| Eps
| Atom (c : cls)
| Star (c : cls)              (* c*  *)
| Plus (c : cls)              (* c+  *)
| WordBoundary                (* \b  *)
| Seq (r1 r2 : regex)
| Alt (r1 r2 : regex).        (* r1|r2, also inside a group *)

(** The characters of a literal, in sequence. *)
Fixpoint chars (s : jsstring) : regex :=
  match s with
  | [] => Eps
  | [c] => Atom (Chr c)
  | c :: s' => Seq (Atom (Chr c)) (chars s')
  end.

Definition str (s : string) : regex := chars (lit s).

(** [Canonicalize] under the [i] flag without [u]: a character is compared
    through its upper case, except that a character outside ASCII is never
    identified with an ASCII one. The upper-casing of characters outside
    ASCII is left out here: it only relates such characters to one another,
    and the patterns of the router are made of ASCII characters. *)
Definition canonicalize (c : N) : N :=
  if N.leb 97 c && N.leb c 122 then N.sub c 32 else c.

Definition is_word_char (c : N) : bool :=
  (N.leb 97 c && N.leb c 122) || (N.leb 65 c && N.leb c 90)
  || (N.leb 48 c && N.leb c 57) || N.eqb c 95.

Definition is_line_terminator (c : N) : bool :=
  N.eqb c 10 || N.eqb c 13 || N.eqb c 8232 || N.eqb c 8233.

Fixpoint mem (c : N) (cs : list N) : bool :=
  match cs with
  | [] => false
  | x :: cs' => N.eqb x c || mem c cs'
  end.

(** Does class [k] accept the code unit [c]? [i] is the [i] flag, under
    which a character and the members of a class are compared through
    [canonicalize]. *)
Definition accepts (i : bool) (k : cls) (c : N) : bool :=
  match k with
  | Chr p => if i then N.eqb (canonicalize p) (canonicalize c) else N.eqb p c
  | Dot => negb (is_line_terminator c)
  | Space => is_whitespace c
  | WordChar => is_word_char c
  | OneOf cs =>
      if i then mem (canonicalize c) (map canonicalize cs) else mem c cs
  | NoneOf cs =>
      negb (if i then mem (canonicalize c) (map canonicalize cs) else mem c cs)
  end.

(** A continuation receives the code unit before the current position (for
    [\b]) and the rest of the input, and answers with what is left of the
    input after the whole match. *)
Definition cont : Type := option N -> jsstring -> option jsstring.

Definition or_else (a : option jsstring) (b : option jsstring) : option jsstring :=
  match a with
  | Some r => Some r
  | None => b
  end.

(** Greedy repetition of one class. *)
Fixpoint star (p : N -> bool) (k : cont) (prev : option N) (s : jsstring)
  : option jsstring :=
  match s with
  | c :: s' =>
      if p c then or_else (star p k (Some c) s') (k prev s) else k prev s
  | [] => k prev s
  end.

Definition word_before (prev : option N) : bool :=
  match prev with
  | Some c => is_word_char c
  | None => false
  end.

Definition word_after (s : jsstring) : bool :=
  match s with
  | c :: _ => is_word_char c
  | [] => false
  end.

Fixpoint run (i : bool) (r : regex) (prev : option N) (s : jsstring) (k : cont)
  : option jsstring :=
  match r with
  | Eps => k prev s
  | Atom a =>
      match s with
      | c :: s' => if accepts i a c then k (Some c) s' else None
      | [] => None
      end
  | Star a => star (accepts i a) k prev s
  | Plus a =>
      match s with
      | c :: s' => if accepts i a c then star (accepts i a) k (Some c) s' else None
      | [] => None
      end
  | WordBoundary =>
      if xorb (word_before prev) (word_after s) then k prev s else None
  | Seq r1 r2 => run i r1 prev s (fun p s' => run i r2 p s' k)
  | Alt r1 r2 => or_else (run i r1 prev s k) (run i r2 prev s k)
  end.

(** A match that starts at the current position: the rest of the input
    after it. *)
Definition match_here (i : bool) (r : regex) (prev : option N) (s : jsstring)
  : option jsstring :=
  run i r prev s (fun _ rest => Some rest).

(** [r.test(s)] for a pattern without the [g] flag: is there a match at
    some position? *)
Fixpoint test_from (i : bool) (r : regex) (prev : option N) (s : jsstring) : bool :=
  match match_here i r prev s with
  | Some _ => true
  | None =>
      match s with
      | [] => false
      | c :: s' => test_from i r (Some c) s'
      end
  end.

Definition test (i : bool) (r : regex) (s : jsstring) : bool :=
  test_from i r None s.

(** [(s.match(r) || []).length] for a pattern with the [g] flag: the number
    of successive matches, each search starting where the previous match
    ended (one further after an empty match). [skip] counts the code units
    of the previous match that are still to be passed. *)
Fixpoint count_from (i : bool) (r : regex) (skip : nat) (prev : option N)
    (s : jsstring) : nat :=
  match skip with
  | S n =>
      match s with
      | [] => 0
      | c :: s' => count_from i r n (Some c) s'
      end
  | O =>
      match match_here i r prev s with
      | Some rest =>
          S (match s with
             | [] => 0
             | c :: s' =>
                 count_from i r (Nat.pred (length s - length rest)) (Some c) s'
             end)
      | None =>
          match s with
          | [] => 0
          | c :: s' => count_from i r 0 (Some c) s'
          end
      end
  end.

Definition match_count (i : bool) (r : regex) (s : jsstring) : nat :=
  count_from i r 0 None s.

(** [r1|r2|...|rn]. *)
Fixpoint alts (rs : list regex) : regex :=
  match rs with
  | [] => Eps
  | [r] => r
  | r :: rs' => Alt r (alts rs')
  end.

Fixpoint seqs (rs : list regex) : regex :=
  match rs with
  | [] => Eps
  | [r] => r
  | r :: rs' => Seq r (seqs rs')
  end.

End Regex.

(** ** Strategy router (packages/backend/src/execution/strategy-router.ts) *)

Module StrategyRouter.
Import Regex.

Local Set Warnings "-inexact-float".

(** [/fs\.|open\(|readFile|writeFile|fopen|fwrite/i] *)
Definition fileIO_pattern : regex :=
  alts [str "fs."; str "open("; str "readFile"; str "writeFile";
        str "fopen"; str "fwrite"].

(** [/fetch\(|XMLHttpRequest|WebSocket|socket|http\.|requests\./i] *)
Definition network_pattern : regex :=
  alts [str "fetch("; str "XMLHttpRequest"; str "WebSocket"; str "socket";
        str "http."; str "requests."].

(** [/exec\(|spawn\(|fork\(|subprocess|system\(/i] *)
Definition processSpawn_pattern : regex :=
  alts [str "exec("; str "spawn("; str "fork("; str "subprocess";
        str "system("].

(** [/require\(Q child_process|import.*child_process/i], where Q is the
    class of the single and the double quote, code units 39 and 34. *)
Definition nativeImports_pattern : regex :=
  alts [seqs [str "require("; Atom (OneOf [39; 34]); str "child_process"];
        seqs [str "import"; Star Dot; str "child_process"]]%N.

(** [/\b(for|while|do)\b/g] *)
Definition loop_pattern : regex :=
  seqs [WordBoundary; alts [str "for"; str "while"; str "do"]; WordBoundary].

(** [/function\s+\w+\s*\([^)]*\)\s*{[^}]*\1/g]. The pattern has no capturing
    group (its parentheses are escaped), so that [\1] is not a
    back-reference: without the [u] flag it is the legacy octal escape for
    the code unit 1. 40, 41, 123 and 125 are [(], [)], [{] and [}]. *)
Definition recursion_pattern : regex :=
  seqs [str "function"; Plus Space; Plus WordChar; Star Space;
        Atom (Chr 40); Star (NoneOf [41]); Atom (Chr 41); Star Space;
        Atom (Chr 123); Star (NoneOf [125]); Atom (Chr 1)]%N.

Definition hasFileIO (code : jsstring) : bool := test true fileIO_pattern code.
Definition hasNetwork (code : jsstring) : bool := test true network_pattern code.
Definition hasProcessSpawn (code : jsstring) : bool :=
  test true processSpawn_pattern code.
Definition hasNativeImports (code : jsstring) : bool :=
  test true nativeImports_pattern code.

Definition loopCount (code : jsstring) : nat := match_count false loop_pattern code.
Definition recursionIndicators (code : jsstring) : nat :=
  match_count false recursion_pattern code.

Definition analyzeCode (code : jsstring) (language : SupportedLanguage)
  : CodeAnalysis.t :=
  let hasUnsafeOperations :=
    hasFileIO code || hasNetwork code || hasProcessSpawn code
    || hasNativeImports code in
  let complexity :=
    if Nat.ltb 5 (loopCount code) || Nat.ltb 2 (recursionIndicators code)
    then high
    else if Nat.ltb 2 (loopCount code) then medium
    else low in
  let estimatedMemory :=
    (JS.of_nat (length code) * 100 + JS.of_nat (loopCount code) * 1024 * 1024)%float in
  let estimatedCPU :=
    (JS.of_nat (loopCount code) * 100
     + JS.of_nat (recursionIndicators code) * 200)%float in
  let requiresCompilation :=
    match language with
    | cpp | rust => true
    | _ => false
    end in
  let canRunInBrowser :=
    match language with
    | javascript | python => true
    | _ => false
    end && negb hasUnsafeOperations in
  {| CodeAnalysis.complexity := complexity;
     CodeAnalysis.hasUnsafeOperations := hasUnsafeOperations;
     CodeAnalysis.estimatedMemory := estimatedMemory;
     CodeAnalysis.estimatedCPU := estimatedCPU;
     CodeAnalysis.requiresCompilation := requiresCompilation;
     CodeAnalysis.canRunInBrowser := canRunInBrowser |}.

Definition is_low (c : Complexity) : bool :=
  match c with low => true | _ => false end.
Definition is_medium (c : Complexity) : bool :=
  match c with medium => true | _ => false end.
Definition is_high (c : Complexity) : bool :=
  match c with high => true | _ => false end.

Definition selectStrategy (analysis : CodeAnalysis.t) (systemLoad : SystemMetrics.t)
  : ExecutionStrategy.t :=
  (* Client-side execution for safe, simple code *)
  if CodeAnalysis.canRunInBrowser analysis
     && negb (CodeAnalysis.hasUnsafeOperations analysis)
     && is_low (CodeAnalysis.complexity analysis)
     && PrimFloat.ltb (CodeAnalysis.estimatedMemory analysis) (100 * 1024 * 1024)
  then
    {| ExecutionStrategy.type := client;
       ExecutionStrategy.reason :=
         lit "Safe, simple code suitable for browser execution";
       ExecutionStrategy.estimatedCost := 0;
       ExecutionStrategy.estimatedLatency := 100 |}
  (* Prefer client-side when server is overloaded *)
  else if CodeAnalysis.canRunInBrowser analysis
          && negb (CodeAnalysis.hasUnsafeOperations analysis)
          && PrimFloat.ltb 0.8 (SystemMetrics.serverLoad systemLoad)
  then
    {| ExecutionStrategy.type := client;
       ExecutionStrategy.reason := lit "Server overloaded, routing to client-side";
       ExecutionStrategy.estimatedCost := 0;
       ExecutionStrategy.estimatedLatency := 200 |}
  (* Server-side for complex or unsafe code *)
  else if CodeAnalysis.hasUnsafeOperations analysis
          || is_high (CodeAnalysis.complexity analysis)
  then
    {| ExecutionStrategy.type := server;
       ExecutionStrategy.reason :=
         lit "Complex or unsafe code requires server-side isolation";
       ExecutionStrategy.estimatedCost := 0.001;
       ExecutionStrategy.estimatedLatency := 2000 |}
  (* Hybrid with pre-warming for medium complexity *)
  else if is_medium (CodeAnalysis.complexity analysis)
  then
    {| ExecutionStrategy.type := hybrid;
       ExecutionStrategy.reason :=
         lit "Medium complexity, using pre-warmed containers";
       ExecutionStrategy.estimatedCost := 0.0005;
       ExecutionStrategy.estimatedLatency := 1000 |}
  (* Default to server-side *)
  else
    {| ExecutionStrategy.type := server;
       ExecutionStrategy.reason := lit "Default server-side execution";
       ExecutionStrategy.estimatedCost := 0.001;
       ExecutionStrategy.estimatedLatency := 2000 |}.

End StrategyRouter.


(** ** Asynchronous methods

    An [async] method is a computation over the state it can reach: it
    returns a value or throws (its promise rejects), and leaves a new state.
    [await] is sequencing; a rejected promise that is awaited throws. *)

Module Async.

Inductive outcome (A : Type) : Type :=
| Returned (a : A)
| Threw (e : thrown).
Arguments Returned {A} a.
Arguments Threw {A} e.

Definition M (S A : Type) : Type := S -> outcome A * S.

Definition ret {S A} (a : A) : M S A := fun s => (Returned a, s).

Definition throw {S A} (e : thrown) : M S A := fun s => (Threw e, s).

Definition bind {S A B} (m : M S A) (k : A -> M S B) : M S B :=
  fun s =>
    match m s with
    | (Returned a, s') => k a s'
    | (Threw e, s') => (Threw e, s')
    end.

(** [try { m } catch (error) { h error }] *)
Definition try_catch {S A} (m : M S A) (h : thrown -> M S A) : M S A :=
  fun s =>
    match m s with
    | (Returned a, s') => (Returned a, s')
    | (Threw e, s') => h e s'
    end.

(** [try { m } finally { f }]: [f] runs on both exits; when [f] itself
    throws, its exception replaces the outcome of [m]. *)
Definition try_finally {S A} (m : M S A) (f : M S unit) : M S A :=
  fun s =>
    match m s with
    | (r, s') =>
        match f s' with
        | (Returned _, s'') => (r, s'')
        | (Threw e, s'') => (Threw e, s'')
        end
    end.

Definition get {S} : M S S := fun s => (Returned s, s).
Definition gets {S A} (f : S -> A) : M S A := fun s => (Returned (f s), s).
Definition modify {S} (f : S -> S) : M S unit := fun s => (Returned tt, f s).

(** A value or exception computed without touching the state. *)
Definition lift {S A} (r : outcome A) : M S A := fun s => (r, s).

(** Running a computation over a part [T] of the state [S]. *)
Definition within {S T A} (proj : S -> T) (upd : T -> S -> S) (m : M T A) : M S A :=
  fun s =>
    match m (proj s) with
    | (r, t') => (r, upd t' s)
    end.

(** A computation leaves a part [proj] of the state as it found it, however
    it ends. *)
Definition unchanged {S X A} (proj : S -> X) (m : M S A) : Prop :=
  forall s, proj (snd (m s)) = proj s.

(** A computation keeps a property [I] of the state, however it ends. *)
Definition preserves {S A} (I : S -> Prop) (m : M S A) : Prop :=
  forall s, I s -> I (snd (m s)).

(** [error instanceof Error ? error.message : 'Unknown error'] *)
Definition message_of (error : thrown) : jsstring :=
  match error with
  | ErrorObj message => message
  | OtherValue => lit "Unknown error"
  end.

End Async.
Import Async.

Declare Scope async_scope.
Delimit Scope async_scope with async.
Notation "x <- m ;; k" := (bind m (fun x => k))
  (at level 20, m at level 99, k at level 200, only parsing) : async_scope.
Notation "m ;; k" := (bind m (fun _ => k))
  (at level 100, k at level 200, only parsing, right associativity) : async_scope.
Open Scope async_scope.

(** ** Regular expression objects

    A regular expression literal evaluates to a new [RegExp] object each
    time it is evaluated. The object carries [lastIndex], which [exec],
    [test] and [match] read and write when the pattern has the [g] flag: a
    pattern object that outlives a call is state that a later call sees. The
    objects live in a heap, and the methods run in the monad over it. *)

Module RegExp.
Import Regex.

Record t : Type := mk {
  source : regex;
  ignoreCase : bool;      (* the i flag *)
  global : bool;          (* the g flag *)
  lastIndex : nat }.

Definition set_lastIndex (index : nat) (R : t) : t :=
  mk (source R) (ignoreCase R) (global R) index.

(** The leftmost match that starts at the current position or later: the
    index at which it starts and the index at which it ends. [index] is the
    current position in the whole input, [s] the input from there on and
    [prev] the code unit before it. *)
Fixpoint search (i : bool) (r : regex) (prev : option N) (s : jsstring) (index : nat)
  : option (nat * nat) :=
  match match_here i r prev s with
  | Some rest => Some (index, index + (length s - length rest))
  | None =>
      match s with
      | [] => None
      | c :: s' => search i r (Some c) s' (S index)
      end
  end.

(** [RegExpBuiltinExec(R, subject)]: the search starts at [lastIndex] when the
    pattern is global and at 0 otherwise; a global pattern is left with the
    end of the match as its [lastIndex], or with 0 when there is none. *)
Definition RegExpBuiltinExec (R : t) (subject : jsstring) : option (nat * nat) * t :=
  let lastIndex := if global R then lastIndex R else 0 in
  let settled index := if global R then set_lastIndex index R else R in
  if Nat.ltb (length subject) lastIndex then (None, settled 0)
  else
    match search (ignoreCase R) (source R) (last (take lastIndex subject))
            (drop lastIndex subject) lastIndex with
    | None => (None, settled 0)
    | Some (start, e) => (Some (start, e), settled e)
    end.

(** [R.test(subject)] *)
Definition test_object (R : t) (subject : jsstring) : bool * t :=
  match RegExpBuiltinExec R subject with
  | (Some _, R') => (true, R')
  | (None, R') => (false, R')
  end.

(** The loop of [RegExp.prototype[Symbol.match]] for a global pattern: it
    counts the successive matches, and steps [lastIndex] over an empty
    match. Every round moves [lastIndex] forward, and [exec] fails once it
    is beyond the input, so that [length subject + 2] rounds are never used up. *)
Fixpoint match_loop (rounds : nat) (R : t) (subject : jsstring) (n : nat) : nat * t :=
  match rounds with
  | O => (n, R)
  | S rounds' =>
      match RegExpBuiltinExec R subject with
      | (None, R') => (n, R')
      | (Some (start, e), R') =>
          let R' :=
            if Nat.eqb start e then set_lastIndex (lastIndex R' + 1) R' else R' in
          match_loop rounds' R' subject (n + 1)
      end
  end.

(** [(subject.match(R) || []).length] for a pattern [R] with the [g] flag. *)
Definition match_length_object (R : t) (subject : jsstring) : nat * t :=
  match_loop (length subject + 2) (set_lastIndex 0 R) subject 0.

(** The heap of pattern objects: an object is known by its address. *)
Definition heap : Type := list t.

(** Evaluation of a literal [/source/flags]. *)
Definition literal (source : regex) (ignoreCase global : bool) : M heap nat :=
  fun h => (Returned (length h), h ++ [mk source ignoreCase global 0]).

(** A method call on the object at address [r]. *)
Definition call {A} (r : nat) (method : t -> A * t) : M heap A :=
  fun h =>
    match h !! r with
    | Some R => let (a, R') := method R in (Returned a, <[r := R']> h)
    | None => (Threw (ErrorObj (lit "not an object")), h)
    end.

Definition test (r : nat) (subject : jsstring) : M heap bool :=
  call r (fun R => test_object R subject).

Definition match_length (r : nat) (subject : jsstring) : M heap nat :=
  call r (fun R => match_length_object R subject).

End RegExp.

(** ** The strategy router as an object
    (packages/backend/src/execution/strategy-router.ts)

    The methods of the class [StrategyRouter], as calls that run in a heap
    of pattern objects. The class has no fields; each pattern of
    [analyzeCode] is a literal in the body of the method. *)

Module StrategyRouterObject.
Import StrategyRouter.

Definition analyzeCode (code : jsstring) (language : SupportedLanguage)
  : M RegExp.heap CodeAnalysis.t :=
  r <- RegExp.literal fileIO_pattern true false ;;
  hasFileIO <- RegExp.test r code ;;
  r <- RegExp.literal network_pattern true false ;;
  hasNetwork <- RegExp.test r code ;;
  r <- RegExp.literal processSpawn_pattern true false ;;
  hasProcessSpawn <- RegExp.test r code ;;
  r <- RegExp.literal nativeImports_pattern true false ;;
  hasNativeImports <- RegExp.test r code ;;
  let hasUnsafeOperations :=
    hasFileIO || hasNetwork || hasProcessSpawn || hasNativeImports in
  (* Estimate complexity *)
  r <- RegExp.literal loop_pattern false true ;;
  loopCount <- RegExp.match_length r code ;;
  r <- RegExp.literal recursion_pattern false true ;;
  recursionIndicators <- RegExp.match_length r code ;;
  let complexity :=
    if Nat.ltb 5 loopCount || Nat.ltb 2 recursionIndicators then high
    else if Nat.ltb 2 loopCount then medium
    else low in
  (* Estimate resources *)
  let estimatedMemory :=
    (JS.of_nat (length code) * 100 + JS.of_nat loopCount * 1024 * 1024)%float in
  let estimatedCPU :=
    (JS.of_nat loopCount * 100 + JS.of_nat recursionIndicators * 200)%float in
  let requiresCompilation :=
    match language with
    | cpp | rust => true
    | _ => false
    end in
  let canRunInBrowser :=
    match language with
    | javascript | python => true
    | _ => false
    end && negb hasUnsafeOperations in
  ret {| CodeAnalysis.complexity := complexity;
         CodeAnalysis.hasUnsafeOperations := hasUnsafeOperations;
         CodeAnalysis.estimatedMemory := estimatedMemory;
         CodeAnalysis.estimatedCPU := estimatedCPU;
         CodeAnalysis.requiresCompilation := requiresCompilation;
         CodeAnalysis.canRunInBrowser := canRunInBrowser |}.

(** [selectStrategy] reads the fields of its two arguments and nothing
    else: it evaluates no literal and calls no method. *)
Definition selectStrategy (analysis : CodeAnalysis.t) (systemLoad : SystemMetrics.t)
  : M RegExp.heap ExecutionStrategy.t :=
  ret (StrategyRouter.selectStrategy analysis systemLoad).

End StrategyRouterObject.

(** ** Judge engine (packages/backend/src/judge/judge-engine.ts) *)

Module JudgeEngine.

Definition normalize (output : jsstring) (mode : ComparisonMode.t) : jsstring :=
  let normalized := output in
  let normalized :=
    if ComparisonMode.trimWhitespace mode then trim normalized else normalized in
  let normalized :=
    if ComparisonMode.ignoreTrailingSpaces mode
    then join LF (map trimEnd (split LF normalized))
    else normalized in
  let normalized :=
    if ComparisonMode.ignoreEmptyLines mode
    then join LF
           (List.filter (fun line => Nat.ltb 0 (length (trim line)))
              (split LF normalized))
    else normalized in
  normalized.

Definition compareOutput (actual expected : jsstring) (mode : ComparisonMode.t)
  : bool :=
  let normalizedActual := normalize actual mode in
  let normalizedExpected := normalize expected mode in
  str_eqb normalizedActual normalizedExpected.

(** The comparison mode that [runTestCase] passes. *)
Definition runTestCase_mode : ComparisonMode.t :=
  {| ComparisonMode.trimWhitespace := true;
     ComparisonMode.ignoreTrailingSpaces := true;
     ComparisonMode.ignoreEmptyLines := false |}.

(** [result.executionTime && result.executionTime > testCase.timeLimit] *)
Definition over_time_limit (result : ExecutionResult.t) (testCase : TestCase.t)
  : bool :=
  match ExecutionResult.executionTime result with
  | Some t => truthy t && PrimFloat.ltb (TestCase.timeLimit testCase) t
  | None => false
  end.

(** The body of the [try] block of [runTestCase], after the [await]. *)
Definition judge (testCase : TestCase.t) (testNumber : nat)
    (result : ExecutionResult.t) : TestCaseResult.t :=
  if negb (ExecutionResult.success result) then
    {| TestCaseResult.testCaseNumber := testNumber;
       TestCaseResult.passed := false;
       TestCaseResult.verdict :=
         match ExecutionResult.verdict result with
         | Some v => v
         | None => RuntimeError
         end;
       TestCaseResult.executionTime :=
         num_or (ExecutionResult.executionTime result) 0;
       TestCaseResult.memoryUsed := num_or (ExecutionResult.memoryUsed result) 0;
       TestCaseResult.actualOutput := None;
       TestCaseResult.error := ExecutionResult.error result |}
  else if over_time_limit result testCase then
    {| TestCaseResult.testCaseNumber := testNumber;
       TestCaseResult.passed := false;
       TestCaseResult.verdict := TimeLimitExceeded;
       TestCaseResult.executionTime :=
         match ExecutionResult.executionTime result with
         | Some t => t
         | None => 0
         end;
       TestCaseResult.memoryUsed := num_or (ExecutionResult.memoryUsed result) 0;
       TestCaseResult.actualOutput := None;
       TestCaseResult.error := None |}
  else
    let outputMatches :=
      compareOutput (str_or (ExecutionResult.output result) [])
        (TestCase.expectedOutput testCase) runTestCase_mode in
    {| TestCaseResult.testCaseNumber := testNumber;
       TestCaseResult.passed := outputMatches;
       TestCaseResult.verdict := if outputMatches then Accepted else WrongAnswer;
       TestCaseResult.executionTime :=
         num_or (ExecutionResult.executionTime result) 0;
       TestCaseResult.memoryUsed := num_or (ExecutionResult.memoryUsed result) 0;
       TestCaseResult.actualOutput := ExecutionResult.output result;
       TestCaseResult.error := None |}.

(** The [catch] block of [runTestCase]. *)
Definition crashed (testNumber : nat) (error : thrown) : TestCaseResult.t :=
  {| TestCaseResult.testCaseNumber := testNumber;
     TestCaseResult.passed := false;
     TestCaseResult.verdict := RuntimeError;
     TestCaseResult.executionTime := 0;
     TestCaseResult.memoryUsed := 0;
     TestCaseResult.actualOutput := None;
     TestCaseResult.error := Some (message_of error) |}.

Definition generateVerdict (results : list TestCaseResult.t) (totalTests : nat)
  : outcome Verdict.t :=
  let allPassed := forallb TestCaseResult.passed results in
  if allPassed then
    Returned
      {| Verdict.status := Accepted;
         Verdict.passedTests := length results;
         Verdict.totalTests := totalTests;
         Verdict.maxTime := Math_max (map TestCaseResult.executionTime results);
         Verdict.maxMemory := Math_max (map TestCaseResult.memoryUsed results);
         Verdict.failedTestCase := None;
         Verdict.errorMessage := None |}
  else
    match List.find (fun r => negb (TestCaseResult.passed r)) results with
    | Some firstFailure =>
        Returned
          {| Verdict.status := TestCaseResult.verdict firstFailure;
             Verdict.passedTests :=
               length (List.filter TestCaseResult.passed results);
             Verdict.totalTests := totalTests;
             Verdict.maxTime :=
               Math_max (map TestCaseResult.executionTime results);
             Verdict.maxMemory := Math_max (map TestCaseResult.memoryUsed results);
             Verdict.failedTestCase :=
               Some (TestCaseResult.testCaseNumber firstFailure);
             Verdict.errorMessage := TestCaseResult.error firstFailure |}
    | None =>
        (* [firstFailure!.verdict] on [undefined] *)
        Threw (ErrorObj (lit "Cannot read properties of undefined"))
    end.

Section Evaluate.
(** The state that [executeFunction] works on, and [executeFunction]. *)
Context {W : Type}.
Variable executeFunction : jsstring -> M W ExecutionResult.t.

Definition runTestCase (testCase : TestCase.t) (testNumber : nat)
  : M W TestCaseResult.t :=
  try_catch
    (result <- executeFunction (TestCase.input testCase) ;;
     ret (judge testCase testNumber result))
    (fun error => ret (crashed testNumber error)).

(** The [for] loop of [evaluate], from index [i] on, with the test cases
    still to run. *)
Fixpoint evaluate_loop (testCases : list TestCase.t) (i : nat)
    (results : list TestCaseResult.t) : M W (list TestCaseResult.t) :=
  match testCases with
  | [] => ret results
  | testCase :: rest =>
      result <- runTestCase testCase (i + 1) ;;
      let results := results ++ [result] in
      if negb (TestCaseResult.passed result) then ret results
      else evaluate_loop rest (S i) results
  end.

Definition evaluate (code : jsstring) (testCases : list TestCase.t)
  : M W Verdict.t :=
  results <- evaluate_loop testCases 0 [] ;;
  lift (generateVerdict results (length testCases)).

End Evaluate.

End JudgeEngine.

(** ** The outside world

    What the backend reaches through [dockerode], [pg], [ioredis], [uuid],
    [Date] and [console]. Whether and when an awaited call to one of these
    services settles is not decided by the backend: the world carries a script
    with the fate of the calls to come, so that a statement for every world
    covers every behaviour of the services. *)

Module World.

Inductive settles : Type :=
| Resolves
| Rejects (e : thrown).

(** The fate of one awaited call: how long it takes (ms) and how it ends. *)
Record reply : Type := mkReply { took : number; fate : settles }.

Inductive stream_end : Type :=
| Ends (at_ms : number)                  (* 'end' event, at_ms after attach *)
| Errors (at_ms : number) (e : thrown)   (* 'error' event *)
| Hangs.                                 (* neither ever comes *)

(** The life of the output stream of one [exec]: the ['data'] chunks it
    delivers before it finishes, and how it finishes. *)
Record stream : Type := mkStream { chunks : list jsstring; ending : stream_end }.

(** Requests that the Docker daemon has served. *)
Inductive docker_call : Type :=
| CreateContainer (image : jsstring)
| StartContainer
| Exec (containerId : jsstring) (cmd : list jsstring)
| StartExec (containerId : jsstring)
| StopContainer (containerId : jsstring)
| RemoveContainer (containerId : jsstring).

(** A call of [console.log] or [console.error]: its text, and the value that
    is passed after the text, if any. *)
Record printed : Type := mkPrinted { text : jsstring; value : option thrown }.

Record t : Type := mk {
  now : number;                        (* Date.now() *)
  uuids : list jsstring;               (* the next results of uuidv4() *)
  replies : list reply;                (* the fate of the next awaited calls *)
  streams : list stream;               (* the next exec output streams *)
  docker : list docker_call;           (* served Docker requests, oldest first *)
  workerPool : gmap jsstring ExecutionEnvironment.t;   (* orchestrator's Map *)
  submissions : gmap jsstring Submission.t;            (* table submissions *)
  queue : list Submission.t;           (* Redis list submissions:queue *)
  console : list printed }.            (* console.log / console.error *)

Definition set_now v w :=
  mk v (uuids w) (replies w) (streams w) (docker w) (workerPool w)
     (submissions w) (queue w) (console w).
Definition set_uuids v w :=
  mk (now w) v (replies w) (streams w) (docker w) (workerPool w)
     (submissions w) (queue w) (console w).
Definition set_replies v w :=
  mk (now w) (uuids w) v (streams w) (docker w) (workerPool w)
     (submissions w) (queue w) (console w).
Definition set_streams v w :=
  mk (now w) (uuids w) (replies w) v (docker w) (workerPool w)
     (submissions w) (queue w) (console w).
Definition set_docker v w :=
  mk (now w) (uuids w) (replies w) (streams w) v (workerPool w)
     (submissions w) (queue w) (console w).
Definition set_workerPool v w :=
  mk (now w) (uuids w) (replies w) (streams w) (docker w) v
     (submissions w) (queue w) (console w).
Definition set_submissions v w :=
  mk (now w) (uuids w) (replies w) (streams w) (docker w) (workerPool w)
     v (queue w) (console w).
Definition set_queue v w :=
  mk (now w) (uuids w) (replies w) (streams w) (docker w) (workerPool w)
     (submissions w) v (console w).
Definition set_console v w :=
  mk (now w) (uuids w) (replies w) (streams w) (docker w) (workerPool w)
     (submissions w) (queue w) v.

Definition elapse (ms : number) (w : t) : t := set_now (now w + ms)%float w.

(** Awaiting a call to an outside service: the next reply of the script
    decides; a script that has run out resolves at once. *)
Definition external : M t unit :=
  fun w =>
    match replies w with
    | [] => (Returned tt, w)
    | r :: rest =>
        let w' := elapse (took r) (set_replies rest w) in
        match fate r with
        | Resolves => (Returned tt, w')
        | Rejects e => (Threw e, w')
        end
    end.

Definition Date_now : M t number := gets now.

Definition uuidv4 : M t jsstring :=
  fun w =>
    match uuids w with
    | [] => (Returned [], w)
    | u :: rest => (Returned u, set_uuids rest w)
    end.

Definition next_stream : M t stream :=
  fun w =>
    match streams w with
    | [] => (Returned (mkStream [] (Ends 0)), w)
    | s :: rest => (Returned s, set_streams rest w)
    end.

(** A Docker request: served, and then on record, unless it is rejected. *)
Definition docker_request (c : docker_call) : M t unit :=
  external ;; modify (fun w => set_docker (docker w ++ [c]) w).

(** [console.log(line)] *)
Definition console_line (line : jsstring) : M t unit :=
  modify (fun w => set_console (console w ++ [mkPrinted line None]) w).

(** [console.error(text, error)] *)
Definition console_error (text : jsstring) (error : thrown) : M t unit :=
  modify (fun w => set_console (console w ++ [mkPrinted text (Some error)]) w).

(** The next [n] awaited calls are served: none of them is rejected. *)
Fixpoint serves (n : nat) (replies : list reply) : bool :=
  match n, replies with
  | O, _ => true
  | S _, [] => true
  | S n', r :: rest =>
      match fate r with
      | Resolves => serves n' rest
      | Rejects _ => false
      end
  end.

(** What Docker does with the two requests of [destroyEnvironment], the
    stop and the removal of the container, as the script has it: it serves
    both, or it rejects the stop, or it serves the stop and rejects the
    removal. *)
Inductive teardown : Type :=
| Both_served
| Stop_rejected (error : thrown)
| Remove_rejected (error : thrown).

Definition teardown_of (w : t) : teardown :=
  match replies w with
  | [] => Both_served
  | r1 :: rest =>
      match fate r1 with
      | Rejects error => Stop_rejected error
      | Resolves =>
          match rest with
          | [] => Both_served
          | r2 :: _ =>
              match fate r2 with
              | Rejects error => Remove_rejected error
              | Resolves => Both_served
              end
          end
      end
  end.

(** The stream that the next [exec] will get. *)
Definition upcoming_stream (w : t) : stream :=
  match streams w with
  | [] => mkStream [] (Ends 0)
  | s :: _ => s
  end.

(** The identifier that the next [uuidv4()] will return. *)
Definition upcoming_uuid (w : t) : jsstring :=
  match uuids w with
  | [] => []
  | u :: _ => u
  end.

(** Every awaited call to come is served: the script rejects none. *)
Definition resolves (r : reply) : bool :=
  match fate r with
  | Resolves => true
  | Rejects _ => false
  end.

Definition all_served (w : t) : Prop := forallb resolves (replies w) = true.

(** The world once the next awaited call has settled. *)
Definition after_reply (w : t) : t :=
  match replies w with
  | [] => w
  | r :: rest => elapse (took r) (set_replies rest w)
  end.

(** [w'] is [w] after Docker has served [calls] and nothing else has
    happened but the passing of time and the use of replies. *)
Definition requested (calls : list docker_call) (w w' : t) : Prop :=
  uuids w' = uuids w
  /\ streams w' = streams w
  /\ docker w' = docker w ++ calls
  /\ workerPool w' = workerPool w
  /\ submissions w' = submissions w
  /\ queue w' = queue w
  /\ console w' = console w.

(** What is persisted: the table of submissions and the queue. *)
Definition persisted (w : t) : gmap jsstring Submission.t * list Submission.t :=
  (submissions w, queue w).

End World.

Definition SupportedLanguage_string (language : SupportedLanguage) : jsstring :=
  match language with
  | javascript => lit "javascript"
  | python => lit "python"
  | cpp => lit "cpp"
  | rust => lit "rust"
  end.

(** ** Submission repository (packages/backend/src/database/submission-repository.ts)

    The table [submissions] has [id] as its primary key; a row is kept as the
    [Submission] that [findById] would build from it. *)

Module SubmissionRepository.
Import World.

(** [INSERT INTO submissions (id, user_id, problem_id, code, language,
    status, created_at, execution_strategy)]: the other columns are NULL. *)
Definition inserted_row (submission : Submission.t) : Submission.t :=
  {| Submission.id := Submission.id submission;
     Submission.userId := Submission.userId submission;
     Submission.problemId := Submission.problemId submission;
     Submission.code := Submission.code submission;
     Submission.language := Submission.language submission;
     Submission.status := Submission.status submission;
     Submission.verdict := None;
     Submission.createdAt := Submission.createdAt submission;
     Submission.startedAt := None;
     Submission.completedAt := None;
     Submission.executionStrategy := Submission.executionStrategy submission;
     Submission.testResults := [] |}.

(** [UPDATE submissions SET status, verdict, started_at, completed_at,
    test_results WHERE id]. *)
Definition updated_row (submission row : Submission.t) : Submission.t :=
  {| Submission.id := Submission.id row;
     Submission.userId := Submission.userId row;
     Submission.problemId := Submission.problemId row;
     Submission.code := Submission.code row;
     Submission.language := Submission.language row;
     Submission.status := Submission.status submission;
     Submission.verdict := Submission.verdict submission;
     Submission.createdAt := Submission.createdAt row;
     Submission.startedAt := Submission.startedAt submission;
     Submission.completedAt := Submission.completedAt submission;
     Submission.executionStrategy := Submission.executionStrategy row;
     Submission.testResults := Submission.testResults submission |}.

Definition create (submission : Submission.t) : M World.t unit :=
  external ;;
  rows <- gets submissions ;;
  match rows !! Submission.id submission with
  | Some _ =>
      throw (ErrorObj (lit "duplicate key value violates unique constraint"))
  | None =>
      modify (set_submissions
                (<[Submission.id submission := inserted_row submission]> rows))
  end.

Definition update (submission : Submission.t) : M World.t unit :=
  external ;;
  rows <- gets submissions ;;
  match rows !! Submission.id submission with
  | Some row =>
      modify (set_submissions
                (<[Submission.id submission := updated_row submission row]> rows))
  | None => ret tt
  end.

Definition findById (id : jsstring) : M World.t (option Submission.t) :=
  external ;;
  rows <- gets submissions ;;
  ret (rows !! id).

End SubmissionRepository.

(** ** Submission queue (packages/backend/src/queue/submission-queue.ts) *)

Module SubmissionQueue.
Import World.

Definition getQueueDepth : M World.t nat :=
  external ;;
  q <- gets queue ;;
  ret (length q).

Definition enqueue (submission : Submission.t) : M World.t nat :=
  external ;;
  modify (fun w => set_queue (queue w ++ [submission]) w) ;;
  getQueueDepth.

Definition dequeue : M World.t (option Submission.t) :=
  external ;;
  q <- gets queue ;;
  match q with
  | [] => ret None
  | data :: rest => modify (set_queue rest) ;; ret (Some data)
  end.

(** [items.findIndex(p)]: the index of the first item that satisfies [p],
    counted from [i], or -1. *)
Fixpoint findIndex_from {A} (p : A -> bool) (items : list A) (i : Z) : Z :=
  match items with
  | [] => (-1)%Z
  | item :: rest => if p item then i else findIndex_from p rest (i + 1)%Z
  end.

Definition findIndex {A} (p : A -> bool) (items : list A) : Z :=
  findIndex_from p items 0%Z.

Definition getQueuePosition (submissionId : jsstring) : M World.t Z :=
  external ;;
  q <- gets queue ;;
  let position :=
    findIndex (fun submission => str_eqb (Submission.id submission) submissionId) q in
  ret (if Z.eqb position (-1) then (-1)%Z else (position + 1)%Z).

Definition clear : M World.t unit :=
  external ;;
  modify (set_queue []).

End SubmissionQueue.

(** ** Container orchestrator
    (packages/backend/src/execution/server/container-orchestrator.ts) *)

Module ContainerOrchestrator.
Import World.

(** The environment is known to the orchestrator by the identifier that
    [uuidv4] gave; every later request names the container by it
    ([docker.getContainer(env.id)]). Whether Docker serves such a request is
    for the script of the world to say. *)
Definition createExecutionEnvironment (language : SupportedLanguage)
  : M World.t ExecutionEnvironment.t :=
  containerId <- uuidv4 ;;
  docker_request
    (CreateContainer
       (lit "letscode-" ++ SupportedLanguage_string language ++ lit ":minimal")) ;;
  docker_request StartContainer ;;
  createdAt <- Date_now ;;
  lastUsed <- Date_now ;;
  let env :=
    {| ExecutionEnvironment.id := containerId;
       ExecutionEnvironment.type := container;
       ExecutionEnvironment.language := language;
       ExecutionEnvironment.status := idle;
       ExecutionEnvironment.createdAt := createdAt;
       ExecutionEnvironment.lastUsed := lastUsed;
       ExecutionEnvironment.executionCount := 0 |} in
  modify (fun w => set_workerPool (<[containerId := env]> (workerPool w)) w) ;;
  ret env.

(** [content.replace(/'/g, ...)]: every single quote (39) becomes the four
    code units quote, backslash, quote, quote. *)
Fixpoint escape_quotes (content : jsstring) : jsstring :=
  match content with
  | [] => []
  | c :: rest =>
      (if N.eqb c 39 then [39; 92; 39; 39]%N else [c]) ++ escape_quotes rest
  end.

Definition writeToContainer (containerId path content : jsstring) : M World.t unit :=
  docker_request
    (Exec containerId
       [lit "sh"; lit "-c";
        lit "echo '" ++ escape_quotes content ++ lit "' > " ++ path]) ;;
  docker_request (StartExec containerId).

Definition getExecutionCommand (language : SupportedLanguage) : list jsstring :=
  match language with
  | javascript => [lit "node"; lit "/workspace/solution"]
  | python => [lit "python3"; lit "/workspace/solution"]
  | cpp =>
      [lit "sh"; lit "-c";
       lit "g++ /workspace/solution -o /workspace/a.out && /workspace/a.out"]
  | rust =>
      [lit "sh"; lit "-c";
       lit "rustc /workspace/solution -o /workspace/a.out && /workspace/a.out"]
  end.

(** The ['data'] handler: a chunk that contains the text [stderr] goes to
    [stderr], every other chunk to [stdout]. *)
Fixpoint collect (chunks : list jsstring) (stdout stderr : jsstring)
  : jsstring * jsstring :=
  match chunks with
  | [] => (stdout, stderr)
  | data :: rest =>
      if includes (lit "stderr") data then collect rest stdout (stderr ++ data)
      else collect rest (stdout ++ data) stderr
  end.

(** The promise of [collectOutput] is settled by whichever comes first: the
    timer after [timeout] ms, or the ['end'] or ['error'] event of the
    stream. A stream event wins when it comes strictly before the timer. *)
Definition collectOutput (stream : World.stream) (timeout : number)
  : M World.t (jsstring * jsstring) :=
  let timer : M World.t (jsstring * jsstring) :=
    modify (elapse timeout) ;; throw (ErrorObj (lit "Time Limit Exceeded")) in
  match ending stream with
  | Ends at_ms =>
      if PrimFloat.ltb at_ms timeout
      then modify (elapse at_ms) ;; ret (collect (chunks stream) [] [])
      else timer
  | Errors at_ms error =>
      if PrimFloat.ltb at_ms timeout
      then modify (elapse at_ms) ;; throw error
      else timer
  | Hangs => timer
  end.

(** Does the stream end, or fail, strictly before the timer fires? *)
Definition finishes_before (stream : World.stream) (timeout : number) : bool :=
  match ending stream with
  | Ends at_ms | Errors at_ms _ => PrimFloat.ltb at_ms timeout
  | Hangs => false
  end.

Definition executeInContainer (env : ExecutionEnvironment.t)
    (code input : jsstring) (limits : ResourceLimits.t)
  : M World.t ExecutionResult.t :=
  startTime <- Date_now ;;
  try_catch
    (let containerId := ExecutionEnvironment.id env in
     (* Write code and input to container *)
     writeToContainer containerId (lit "/workspace/solution") code ;;
     writeToContainer containerId (lit "/workspace/input.txt") input ;;
     (* Execute with monitoring *)
     docker_request
       (Exec containerId (getExecutionCommand (ExecutionEnvironment.language env))) ;;
     docker_request (StartExec containerId) ;;
     stream <- next_stream ;;
     output <- collectOutput stream (ResourceLimits.timeLimit limits) ;;
     endTime <- Date_now ;;
     ret {| ExecutionResult.success := true;
            ExecutionResult.output := Some (fst output);
            ExecutionResult.error := Some (snd output);
            ExecutionResult.verdict := None;
            ExecutionResult.executionTime := Some (endTime - startTime)%float;
            ExecutionResult.memoryUsed := Some 0%float;
            ExecutionResult.exitCode := Some 0%float |})
    (fun error =>
       endTime <- Date_now ;;
       ret {| ExecutionResult.success := false;
              ExecutionResult.output := None;
              ExecutionResult.error := Some (message_of error);
              ExecutionResult.verdict := Some RuntimeError;
              ExecutionResult.executionTime := Some (endTime - startTime)%float;
              ExecutionResult.memoryUsed := None;
              ExecutionResult.exitCode := None |}).

Definition destroyEnvironment (env : ExecutionEnvironment.t) : M World.t unit :=
  try_catch
    (let containerId := ExecutionEnvironment.id env in
     docker_request (StopContainer containerId) ;;
     docker_request (RemoveContainer containerId) ;;
     modify (fun w => set_workerPool (delete containerId (workerPool w)) w))
    (fun error =>
       console_error
         (lit "Failed to destroy environment " ++ ExecutionEnvironment.id env
          ++ lit ":")
         error).

End ContainerOrchestrator.

(** ** Execution controller
    (packages/backend/src/execution/execution-controller.ts) *)

Module ExecutionController.
Import World.

Local Set Warnings "-inexact-float".

(** The limits that both [runCustomTest] and [processSubmission] pass to
    [executeInContainer]. *)
Definition customTest_limits : ResourceLimits.t :=
  {| ResourceLimits.timeLimit := 5000;
     ResourceLimits.memoryLimit := 512 * 1024 * 1024;
     ResourceLimits.cpuQuota := 50000;
     ResourceLimits.pidsLimit := 50 |}.

Definition submission_limits : ResourceLimits.t :=
  {| ResourceLimits.timeLimit := 5000;
     ResourceLimits.memoryLimit := 512 * 1024 * 1024;
     ResourceLimits.cpuQuota := 50000;
     ResourceLimits.pidsLimit := 50 |}.

(** [!request.code || request.code.trim().length === 0] *)
Definition code_is_empty (code : jsstring) : bool :=
  match code with
  | [] => true
  | _ => Nat.eqb (length (trim code)) 0
  end.

Definition submit (request : SubmissionRequest.t) : M World.t jsstring :=
  if code_is_empty (SubmissionRequest.code request) then
    throw (ErrorObj (lit "Code cannot be empty"))
  else
    submissionId <- uuidv4 ;;
    let analysis :=
      StrategyRouter.analyzeCode (SubmissionRequest.code request)
        (SubmissionRequest.language request) in
    queueDepth <- SubmissionQueue.getQueueDepth ;;
    let systemMetrics :=
      {| SystemMetrics.serverLoad := 0.5;
         SystemMetrics.queueDepth := queueDepth;
         SystemMetrics.availableWorkers := 10;
         SystemMetrics.avgResponseTime := 1000 |} in
    let strategy := StrategyRouter.selectStrategy analysis systemMetrics in
    createdAt <- Date_now ;;
    let submission :=
      {| Submission.id := submissionId;
         Submission.userId := SubmissionRequest.userId request;
         Submission.problemId := SubmissionRequest.problemId request;
         Submission.code := SubmissionRequest.code request;
         Submission.language := SubmissionRequest.language request;
         Submission.status := Queued;
         Submission.verdict := None;
         Submission.createdAt := createdAt;
         Submission.startedAt := None;
         Submission.completedAt := None;
         Submission.executionStrategy := strategy;
         Submission.testResults := [] |} in
    SubmissionRepository.create submission ;;
    SubmissionQueue.enqueue submission ;;
    console_line
      (lit "Submission " ++ submissionId ++ lit " queued with strategy: "
       ++ ExecutionStrategyType_string (ExecutionStrategy.type strategy)) ;;
    ret submissionId.

Definition runCustomTest (code input : jsstring) (language : SupportedLanguage)
  : M World.t ExecutionResult.t :=
  env <- ContainerOrchestrator.createExecutionEnvironment language ;;
  try_finally
    (result <- ContainerOrchestrator.executeInContainer env code input
                 customTest_limits ;;
     ret result)
    (ContainerOrchestrator.destroyEnvironment env).

Definition getSubmission (id : jsstring) : M World.t (option Submission.t) :=
  SubmissionRepository.findById id.

(** [processSubmission] mutates the submission object that it is given, and
    the mutations outlive an exception: the object is part of the state. *)
Definition Processing : Type := Submission.t * World.t.

Definition world {A} (m : M World.t A) : M Processing A :=
  within snd (fun w p => (fst p, w)) m.

Definition submission : M Processing Submission.t := gets fst.

Definition assign (f : Submission.t -> Submission.t) : M Processing unit :=
  modify (fun p => (f (fst p), snd p)).

(** The test cases that [processSubmission] judges against. *)
Definition testCases : list TestCase.t :=
  [ {| TestCase.id := lit "1";
       TestCase.input := lit "5";
       TestCase.expectedOutput := lit "120";
       TestCase.timeLimit := 1000;
       TestCase.memoryLimit := 256 * 1024 * 1024;
       TestCase.isHidden := false |} ].

(** The function that [processSubmission] hands to the judge:
    [async (input) => this.orchestrator.executeInContainer(env,
    submission.code, input, limits)]. *)
Definition executeFunction (env : ExecutionEnvironment.t) (input : jsstring)
  : M Processing ExecutionResult.t :=
  s <- submission ;;
  world (ContainerOrchestrator.executeInContainer env (Submission.code s) input
           submission_limits).

(** The [try] block of [processSubmission]. *)
Definition processSubmission_try (env : ExecutionEnvironment.t) : M Processing unit :=
  code <- gets (fun p => Submission.code (fst p)) ;;
  verdict <- JudgeEngine.evaluate (executeFunction env) code testCases ;;
  assign (Submission.set_verdict (Some verdict)) ;;
  assign (Submission.set_status Completed) ;;
  completedAt <- world Date_now ;;
  assign (Submission.set_completedAt (Some completedAt)) ;;
  s <- submission ;;
  world (SubmissionRepository.update s).

(** The [catch] block of [processSubmission]. *)
Definition processSubmission_catch (error : thrown) : M Processing unit :=
  assign (Submission.set_status Failed) ;;
  completedAt <- world Date_now ;;
  assign (Submission.set_completedAt (Some completedAt)) ;;
  s <- submission ;;
  world (SubmissionRepository.update s) ;;
  throw error.

(** The [try]/[catch]/[finally] statement of [processSubmission]. *)
Definition processSubmission_guarded (env : ExecutionEnvironment.t)
  : M Processing unit :=
  try_finally
    (try_catch (processSubmission_try env) processSubmission_catch)
    (world (ContainerOrchestrator.destroyEnvironment env)).

Definition processSubmission : M Processing unit :=
  assign (Submission.set_status Running) ;;
  startedAt <- world Date_now ;;
  assign (Submission.set_startedAt (Some startedAt)) ;;
  s <- submission ;;
  world (SubmissionRepository.update s) ;;
  s <- submission ;;
  env <- world (ContainerOrchestrator.createExecutionEnvironment
                  (Submission.language s)) ;;
  processSubmission_guarded env.

(** The submission object together with what is persisted. *)
Definition kept (p : Processing)
  : Submission.t * (gmap jsstring Submission.t * list Submission.t) :=
  (fst p, persisted (snd p)).

(** The submission as the first two statements of [processSubmission] leave
    it, as the [try] block leaves it, and as the [catch] block leaves it. *)
Definition started (at_ms : number) (s : Submission.t) : Submission.t :=
  Submission.set_startedAt (Some at_ms) (Submission.set_status Running s).

Definition completed (verdict : Verdict.t) (at_ms : number) (s : Submission.t)
  : Submission.t :=
  Submission.set_completedAt (Some at_ms)
    (Submission.set_status Completed (Submission.set_verdict (Some verdict) s)).

Definition failed (at_ms : number) (s : Submission.t) : Submission.t :=
  Submission.set_completedAt (Some at_ms) (Submission.set_status Failed s).

End ExecutionController.

(** ** API server (packages/backend/src/api/api-server.ts) *)

Module ApiServer.
Import World.

Inductive body : Type :=
| ErrorBody (error : jsstring)                 (* { error } *)
| SubmissionIdBody (submissionId : jsstring)   (* { submissionId } *)
| ResultBody (result : ExecutionResult.t).

(** An HTTP response: its status code and its JSON body. *)
Definition response : Type := (nat * body)%type.

(** [POST /api/submit] *)
Definition post_submit (request : SubmissionRequest.t) : M World.t response :=
  try_catch
    (if ExecutionController.code_is_empty (SubmissionRequest.code request) then
       ret (400, ErrorBody (lit "Code cannot be empty"))
     else
       submissionId <- ExecutionController.submit request ;;
       ret (200, SubmissionIdBody submissionId))
    (fun error =>
       console_error (lit "Submission error:") error ;;
       ret (500, ErrorBody (lit "Internal server error"))).

(** [POST /api/test] *)
Definition post_test (code input : jsstring) (language : SupportedLanguage)
  : M World.t response :=
  try_catch
    (result <- ExecutionController.runCustomTest code input language ;;
     ret (200, ResultBody result))
    (fun error =>
       console_error (lit "Custom test error:") error ;;
       ret (500, ErrorBody (lit "Internal server error"))).

End ApiServer.

(** [GET /api/submission/:id], with the bodies that this route sends. *)

Module SubmissionRoute.
Import World.

Inductive body : Type :=
| ErrorBody (error : jsstring)              (* { error } *)
| SubmissionBody (submission : Submission.t).


End SubmissionRoute.

(** ** WebSocket server (packages/backend/src/websocket/websocket-server.ts)

    A [WebSocket] object is known by a number; its [readyState] and what has
    been sent through it are kept beside the map of clients. A [Set] of
    sockets is the list of its members in insertion order, without
    repetition. *)

Module StatusUpdate.
Record t : Type := mk {
  submissionId : jsstring;
  status : SubmissionStatus;
  queuePosition : option number;
  currentTest : option number;
  testResult : option TestCaseResult.t;
  verdict : option Verdict.t }.
End StatusUpdate.

Module SystemStatus.
Record t : Type := mk {
  queueDepth : number;
  activeWorkers : number;
  totalWorkers : number;
  avgExecutionTime : number }.
End SystemStatus.

Module WebSocketServer.

Inductive ReadyState : Type := CONNECTING | OPEN | CLOSING | CLOSED.

(** [JSON.stringify({ type, data })] *)
Inductive message : Type :=
| status_update (data : StatusUpdate.t)
| system_status (data : SystemStatus.t).

Record socket : Type := mkSocket { readyState : ReadyState; sent : list message }.

Record t : Type := mk {
  clients : gmap jsstring (list nat);    (* Map<string, Set<WebSocket>> *)
  sockets : gmap nat socket;             (* the WebSocket objects *)
  console : list jsstring }.

Definition set_sockets v (s : t) : t := mk (clients s) v (console s).
Definition set_console v (s : t) : t := mk (clients s) (sockets s) v.




(** [/userId=([^&]+)/]; 38 is the ampersand. *)
Definition userId_pattern : Regex.regex :=
  Regex.seqs [Regex.str "userId="; Regex.Plus (Regex.NoneOf [38%N])].

(** [s.match(r)] for a pattern without the [g] flag: the text of the
    leftmost match. *)
Fixpoint first_match (i : bool) (r : Regex.regex) (prev : option N) (s : jsstring)
  : option jsstring :=
  match Regex.match_here i r prev s with
  | Some rest => Some (take (length s - length rest) s)
  | None =>
      match s with
      | [] => None
      | c :: s' => first_match i r (Some c) s'
      end
  end.

(** The group of the pattern is what follows the seven code units of
    [userId=] in the match. *)
Definition extractUserId (url : jsstring) : jsstring :=
  match first_match false userId_pattern None url with
  | Some matched => drop 7 matched
  | None => lit "anonymous"
  end.



(** [client.send(message)] *)
Definition send (ws : nat) (m : message) (s : t) : t :=
  match sockets s !! ws with
  | Some sock =>
      set_sockets
        (<[ws := mkSocket (readyState sock) (sent sock ++ [m])]> (sockets s)) s
  | None => s
  end.

Definition is_open (ws : nat) (s : t) : bool :=
  match sockets s !! ws with
  | Some sock =>
      match readyState sock with
      | OPEN => true
      | _ => false
      end
  | None => false
  end.

(** [userClients.forEach(client => { if (client.readyState === OPEN)
    client.send(message) })] *)
Fixpoint send_to_open (members : list nat) (m : message) (s : t) : t :=
  match members with
  | [] => s
  | member :: rest =>
      send_to_open rest m (if is_open member s then send member m s else s)
  end.

Definition sendUpdate (userId : jsstring) (update : StatusUpdate.t) (s : t) : t :=
  match clients s !! userId with
  | None => s
  | Some userClients => send_to_open userClients (status_update update) s
  end.

(** The map of clients is well formed when no user is mapped to an empty
    set, and no set holds a socket twice. *)
Definition well_formed (s : t) : Prop :=
  forall userId members,
    clients s !! userId = Some members -> members <> [] /\ NoDup members.

End WebSocketServer.

(** ** The shell that runs the command of [writeToContainer]

    The quoting rules of the POSIX shell for one word: between single quotes
    every character stands for itself, outside of them a backslash makes the
    next character stand for itself. [unquote] is the text that such a word
    denotes; it has none when a quote is left open or a backslash ends the
    word. 39 is the single quote and 92 the backslash. *)

Module Shell.

Fixpoint unquote_from (quoted : bool) (escaped : bool) (word : jsstring)
  : option jsstring :=
  match word with
  | [] => if quoted || escaped then None else Some []
  | c :: rest =>
      if quoted then
        if N.eqb c 39 then unquote_from false false rest
        else option_map (cons c) (unquote_from true false rest)
      else if escaped then option_map (cons c) (unquote_from false false rest)
      else if N.eqb c 39 then unquote_from true false rest
      else if N.eqb c 92 then unquote_from false true rest
      else option_map (cons c) (unquote_from false false rest)
  end.

Definition unquote (word : jsstring) : option jsstring :=
  unquote_from false false word.

End Shell.

(** ** What the patterns of the router denote *)

Module RegexSpec.
Import Regex.

(** The code unit before the position that follows [mid], when [prev] is the
    one before [mid]. *)
Definition last_or (prev : option N) (mid : jsstring) : option N :=
  match last mid with
  | Some c => Some c
  | None => prev
  end.

(** The number of matches from index [k] of [subject] on. *)
Definition matches_from (i : bool) (r : regex) (subject : jsstring) (k : nat) : nat :=
  if Nat.leb k (length subject)
  then count_from i r 0 (last (take k subject)) (drop k subject)
  else 0.

(** What a pattern denotes: [denotes i r prev mid next] says that [r]
    matches the text [mid] when it stands between the code unit [prev] and
    the text [next]. *)
Fixpoint denotes (i : bool) (r : regex) (prev : option N) (mid next : jsstring)
  : Prop :=
  match r with
  | Eps => mid = []
  | Atom a => exists c, mid = [c] /\ accepts i a c = true
  | Star a => forallb (accepts i a) mid = true
  | Plus a => mid <> [] /\ forallb (accepts i a) mid = true
  | WordBoundary => mid = [] /\ xorb (word_before prev) (word_after next) = true
  | Seq r1 r2 =>
      exists m1 m2,
        mid = m1 ++ m2
        /\ denotes i r1 prev m1 (m2 ++ next)
        /\ denotes i r2 (last_or prev m1) m2 next
  | Alt r1 r2 => denotes i r1 prev mid next \/ denotes i r2 prev mid next
  end.

(** Two texts are the same when case is ignored. *)
Definition same_ignoring_case (a b : jsstring) : Prop :=
  map canonicalize a = map canonicalize b.

(** Some part of [code] satisfies [P]. *)
Definition occurs (P : jsstring -> Prop) (code : jsstring) : Prop :=
  exists pre mid post, code = pre ++ mid ++ post /\ P mid.

(** [marker] occurs in [code], in any letter case. *)
Definition mentions (marker : string) (code : jsstring) : Prop :=
  occurs (same_ignoring_case (lit marker)) code.

Definition fileIO_markers : list string :=
  ["fs."; "open("; "readFile"; "writeFile"; "fopen"; "fwrite"]%string.

Definition network_markers : list string :=
  ["fetch("; "XMLHttpRequest"; "WebSocket"; "socket"; "http."; "requests."]%string.

Definition processSpawn_markers : list string :=
  ["exec("; "spawn("; "fork("; "subprocess"; "system("]%string.

(** [require(], a single or double quote, [child_process]. *)
Definition requires_child_process (mid : jsstring) : Prop :=
  exists r q c,
    mid = r ++ [q] ++ c
    /\ same_ignoring_case (lit "require(") r
    /\ (q = 39%N \/ q = 34%N)
    /\ same_ignoring_case (lit "child_process") c.

(** [import], then [child_process] further on the same line. *)
Definition imports_child_process (mid : jsstring) : Prop :=
  exists i between c,
    mid = i ++ between ++ c
    /\ same_ignoring_case (lit "import") i
    /\ forallb (fun x => negb (is_line_terminator x)) between = true
    /\ same_ignoring_case (lit "child_process") c.

(** What the four patterns of [analyzeCode] look for. *)
Definition unsafe_marker (code : jsstring) : Prop :=
  (exists marker,
      In marker (fileIO_markers ++ network_markers ++ processSpawn_markers)
      /\ mentions marker code)
  \/ occurs requires_child_process code
  \/ occurs imports_child_process code.

End RegexSpec.

(** ** The specification's own words

    Definitions that follow the specification rather than the source, to be
    compared with the source's. *)

Module Spec.

Local Set Warnings "-inexact-float".

(** The normalization policy of the specification: trim leading and
    trailing whitespace, then strip the trailing spaces of every line. *)
Definition strip_trailing_spaces (line : jsstring) : jsstring :=
  rstrip (N.eqb SPACE) line.

Definition normalize_output (output : jsstring) : jsstring :=
  join LF (map strip_trailing_spaces (split LF (trim output))).

(** What each test case gives when every one of them is run in turn,
    whatever the earlier ones gave; [i] is the index of the first of them.
    It is what the j-th case passes, or fails, refers to; the source
    itself stops at the first failure. *)
Section EveryCase.
Context {W : Type}.
Variable executeFunction : jsstring -> M W ExecutionResult.t.

Definition one_case (testCase : TestCase.t) (testNumber : nat) (w : W)
  : TestCaseResult.t * W :=
  match executeFunction (TestCase.input testCase) w with
  | (Returned result, w') => (JudgeEngine.judge testCase testNumber result, w')
  | (Threw error, w') => (JudgeEngine.crashed testNumber error, w')
  end.

Fixpoint every_case (testCases : list TestCase.t) (i : nat) (w : W)
  : list TestCaseResult.t * W :=
  match testCases with
  | [] => ([], w)
  | testCase :: rest =>
      let (r, w') := one_case testCase (i + 1) w in
      let (rs, w'') := every_case rest (S i) w' in
      (r :: rs, w'')
  end.
End EveryCase.

(** The selection policy of the specification, rule by rule. *)
Definition rule1 (a : CodeAnalysis.t) (m : SystemMetrics.t) : Prop :=
  CodeAnalysis.canRunInBrowser a = true
  /\ CodeAnalysis.hasUnsafeOperations a = false
  /\ CodeAnalysis.complexity a = low
  /\ PrimFloat.ltb (CodeAnalysis.estimatedMemory a) 104857600 = true.

Definition rule2 (a : CodeAnalysis.t) (m : SystemMetrics.t) : Prop :=
  CodeAnalysis.canRunInBrowser a = true
  /\ CodeAnalysis.hasUnsafeOperations a = false
  /\ PrimFloat.ltb 0.8 (SystemMetrics.serverLoad m) = true.

Definition rule3 (a : CodeAnalysis.t) (m : SystemMetrics.t) : Prop :=
  CodeAnalysis.hasUnsafeOperations a = true \/ CodeAnalysis.complexity a = high.

Definition rule4 (a : CodeAnalysis.t) (m : SystemMetrics.t) : Prop :=
  CodeAnalysis.complexity a = medium.

(** The source has no parser. A text in which a parenthesis opens, and
    which has no closing parenthesis and no character that could start a
    string, a character literal or a comment, has no parse in JavaScript,
    Python, C++ or Rust: the parenthesis is a token and is never closed.
    41, 39, 34, 96, 47 and 35 are the closing parenthesis, the two quotes,
    the backquote, the slash and the hash. *)
Definition unclosed_parenthesis (code : jsstring) : bool :=
  Regex.mem 40 code
  && negb (existsb (fun c => Regex.mem c [41; 39; 34; 96; 47; 35]%N) code).

Definition unparseable (code : jsstring) (language : SupportedLanguage) : Prop :=
  unclosed_parenthesis code = true.

(** [m] is the maximum of the numbers [xs]: it is one of them, and none of
    them is larger. *)
Definition is_maximum (m : number) (xs : list number) : Prop :=
  In m xs /\ forall x, In x xs -> PrimFloat.leb x m = true.




End Spec.

(** ** Scenarios: concrete inputs and worlds *)

Module Scenarios.

Local Set Warnings "-inexact-float".

Definition blank_request : SubmissionRequest.t :=
  {| SubmissionRequest.code := [32; 9; 10; 160]%N;
     SubmissionRequest.language := python;
     SubmissionRequest.problemId := lit "two-sum";
     SubmissionRequest.userId := lit "alice";
     SubmissionRequest.isCustomTest := false;
     SubmissionRequest.customInput := None |}.

(** A world in which every service answers at once. *)
Definition quiet_world : World.t :=
  World.mk 0 [lit "id-1"; lit "id-2"] [] [] [] ∅ ∅ [] [].

(** A world in which Docker serves the creation of a container and a whole
    run, and then rejects the request to stop the container. *)
Definition stop_rejected_world : World.t :=
  World.mk 0 [lit "env-1"]
    (repeat (World.mkReply 1 World.Resolves) 8
     ++ [World.mkReply 1 (World.Rejects (ErrorObj (lit "no such container")))])
    [World.mkStream [lit "42"] (World.Ends 20)] [] ∅ ∅ [] [].

(** A world in which every service answers at once, and the program never
    ends: its output stream neither ends nor fails. *)
Definition hanging_world : World.t :=
  World.mk 0 [lit "env-1"] [] [World.mkStream [] World.Hangs] [] ∅ ∅ [] [].

Definition looping_submission : Submission.t :=
  {| Submission.id := lit "sub-1";
     Submission.userId := lit "alice";
     Submission.problemId := lit "factorial";
     Submission.code := lit "while True: pass";
     Submission.language := python;
     Submission.status := Queued;
     Submission.verdict := None;
     Submission.createdAt := 0;
     Submission.startedAt := None;
     Submission.completedAt := None;
     Submission.executionStrategy :=
       StrategyRouter.selectStrategy
         (StrategyRouter.analyzeCode (lit "while True: pass") python)
         (SystemMetrics.mk 0.5 0 10 1000);
     Submission.testResults := [] |}.

Definition some_environment : ExecutionEnvironment.t :=
  {| ExecutionEnvironment.id := lit "env-1";
     ExecutionEnvironment.type := container;
     ExecutionEnvironment.language := python;
     ExecutionEnvironment.status := idle;
     ExecutionEnvironment.createdAt := 0;
     ExecutionEnvironment.lastUsed := 0;
     ExecutionEnvironment.executionCount := 0 |}.

(** A world in which the program prints 120 and ends after 20 ms, and the
    database rejects the second update of the repository. *)
Definition update_rejected_world : World.t :=
  World.mk 0 [lit "env-1"]
    (repeat (World.mkReply 1 World.Resolves) 9
     ++ [World.mkReply 1 (World.Rejects (ErrorObj (lit "connection terminated")))])
    [World.mkStream [lit "120"] (World.Ends 20)] [] ∅ ∅ [] [].

(** An executor that answers at once with its input as output, and three
    test cases of which it fails the second. *)
Definition echo (input : jsstring) : M unit ExecutionResult.t :=
  ret {| ExecutionResult.success := true;
         ExecutionResult.output := Some input;
         ExecutionResult.error := None;
         ExecutionResult.verdict := None;
         ExecutionResult.executionTime := Some 7%float;
         ExecutionResult.memoryUsed := Some 0%float;
         ExecutionResult.exitCode := Some 0%float |}.

Definition expecting (input expectedOutput : string) : TestCase.t :=
  {| TestCase.id := lit input;
     TestCase.input := lit input;
     TestCase.expectedOutput := lit expectedOutput;
     TestCase.timeLimit := 1000;
     TestCase.memoryLimit := 256 * 1024 * 1024;
     TestCase.isHidden := false |}.

Definition three_cases : list TestCase.t :=
  [expecting "1" "1"; expecting "2" "4"; expecting "3" "3"].



(** A request with a program that prints 120, and a world that serves every
    call at once, in which the program prints 120 and a line feed and ends
    after 20 ms. *)
Definition factorial_request : SubmissionRequest.t :=
  {| SubmissionRequest.code := lit "print(120)";
     SubmissionRequest.language := python;
     SubmissionRequest.problemId := lit "factorial";
     SubmissionRequest.userId := lit "alice";
     SubmissionRequest.isCustomTest := false;
     SubmissionRequest.customInput := None |}.

(** A server with two sockets of one user, of which one is open and one is
    closed, and an open socket of another user; and an update. *)
Definition two_users : WebSocketServer.t :=
  WebSocketServer.mk
    {[ lit "alice" := [1; 2]; lit "bob" := [3] ]}
    {[ 1 := WebSocketServer.mkSocket WebSocketServer.OPEN [];
       2 := WebSocketServer.mkSocket WebSocketServer.CLOSED [];
       3 := WebSocketServer.mkSocket WebSocketServer.OPEN [] ]}
    [].

Definition running_update : StatusUpdate.t :=
  StatusUpdate.mk (lit "sub-1") Running None None None None.

Definition factorial_world : World.t :=
  World.mk 0 [lit "sub-1"; lit "env-1"] []
    [World.mkStream [lit "120"; [LF]] (World.Ends 20)] [] ∅ ∅ [] [].

End Scenarios.

(** * Properties *)

(** ** The embedding at work *)

Section Examples.

Example trim_examples :
  trim (lit "  5 " ++ [LF]) = lit "5"
  /\ trimEnd ([9; 32] ++ lit "a" ++ [13; 160; 65279])%N = ([9; 32] ++ lit "a")%N
  /\ split LF (lit "a" ++ [LF]) = [lit "a"; []]
  /\ split LF [] = [[]]
  /\ join LF [lit "a"; []; lit "b"] = lit "a" ++ [LF; LF] ++ lit "b".
Proof. repeat split. Qed.

Example Math_max_examples :
  Math_max [] = neg_infinity
  /\ Math_max [3; 28; 7]%float = 28%float
  /\ Math_max [0; (-0)]%float = 0%float
  /\ is_nan (Math_max [3; nan; 7]%float) = true
  /\ num_or (Some 0%float) 5 = 5%float
  /\ num_or (Some 12%float) 5 = 12%float
  /\ num_or None 5 = 5%float.
Proof. repeat split. Qed.

(** The scenario of the specification: a Python program that doubles its
    input, judged against the test case 5 / 10, is [Accepted] with one test
    passed out of one. The program runs in a container where it prints 10 and
    ends after 30 ms. *)
Example doubling_is_accepted :
  let world :=
    World.mk 0 [] [] [World.mkStream [lit "10"; [LF]] (World.Ends 30)] [] ∅ ∅ [] [] in
  let testCase :=
    {| TestCase.id := lit "1";
       TestCase.input := lit "5";
       TestCase.expectedOutput := lit "10";
       TestCase.timeLimit := 1000;
       TestCase.memoryLimit := 268435456;
       TestCase.isHidden := false |} in
  fst (JudgeEngine.evaluate
         (fun input =>
            ContainerOrchestrator.executeInContainer Scenarios.some_environment
              (lit "print(int(input())*2)") input
              ExecutionController.submission_limits)
         (lit "print(int(input())*2)") [testCase] world)
  = Returned {| Verdict.status := Accepted;
                Verdict.passedTests := 1;
                Verdict.totalTests := 1;
                Verdict.maxTime := 30;
                Verdict.maxMemory := 0;
                Verdict.failedTestCase := None;
                Verdict.errorMessage := None |}.
Proof. reflexivity. Qed.

End Examples.

(** ** Strings *)

Section StringFacts.

Lemma str_eqb_eq (a b : jsstring) : str_eqb a b = true <-> a = b.
Proof.
  revert b. induction a as [|x a IH]; intros [|y b]; simpl; split;
    try congruence; try discriminate.
  - intros H. apply andb_true_iff in H as [Hxy Hab].
    apply N.eqb_eq in Hxy. apply IH in Hab. congruence.
  - intros H. injection H as -> ->. rewrite N.eqb_refl. simpl. now apply IH.
Qed.

Lemma str_eqb_refl (a : jsstring) : str_eqb a a = true.
Proof. now apply str_eqb_eq. Qed.

Lemma rstrip_nil_all (p : N -> bool) (s : jsstring) :
  rstrip p s = [] <-> forallb p s = true.
Proof.
  induction s as [|c s IH]; simpl; [tauto|].
  destruct (rstrip p s) eqn:E.
  - destruct (p c); simpl; [tauto|]. split; discriminate.
  - split; [discriminate|]. intros H. apply andb_true_iff in H as [_ H].
    apply IH in H. discriminate.
Qed.

(** Stripping with a weaker predicate first changes nothing. *)
Lemma rstrip_rstrip (p q : N -> bool) (s : jsstring) :
  (forall c, q c = true -> p c = true) ->
  rstrip p (rstrip q s) = rstrip p s.
Proof.
  intros Hqp. induction s as [|c s IH]; simpl; [reflexivity|].
  destruct (rstrip q s) as [|d t] eqn:Eq.
  - assert (Hp : rstrip p s = []).
    { apply rstrip_nil_all. apply rstrip_nil_all in Eq.
      clear IH. induction s as [|e s IHs]; simpl in *; [reflexivity|].
      apply andb_true_iff in Eq as [He Hs]. rewrite (Hqp _ He). auto. }
    rewrite Hp. destruct (q c) eqn:Eqc.
    + simpl. now rewrite (Hqp _ Eqc).
    + simpl. reflexivity.
  - simpl. simpl in IH. rewrite IH. reflexivity.
Qed.

Lemma rstrip_In (p : N -> bool) (s : jsstring) (c : N) :
  In c (rstrip p s) -> In c s.
Proof.
  induction s as [|d s IH]; simpl; [tauto|].
  destruct (rstrip p s) as [|e t] eqn:E.
  - destruct (p d); simpl; tauto.
  - intros [H|H]; [now left|]. right. now apply IH.
Qed.

Lemma split_not_nil (sep : N) (s : jsstring) : split sep s <> [].
Proof.
  induction s as [|c s IH]; simpl; [discriminate|].
  destruct (N.eqb c sep); [discriminate|].
  destruct (split sep s); discriminate.
Qed.

Lemma split_no_sep (sep : N) (s : jsstring) :
  Forall (fun line => ~ In sep line) (split sep s).
Proof.
  induction s as [|c s IH]; simpl.
  - constructor; [tauto|constructor].
  - destruct (N.eqb c sep) eqn:E.
    + constructor; [tauto|assumption].
    + apply N.eqb_neq in E. destruct (split sep s) as [|l ls].
      * constructor; [|constructor]. simpl. intros [H|[]]. congruence.
      * inversion IH as [|? ? Hl Hls]; subst. constructor; [|assumption].
        simpl. intros [H|H]; [congruence|tauto].
Qed.

(** Splitting what was joined gives the parts back, when no part contains
    the separator. *)
Lemma split_join (sep : N) (parts : list jsstring) :
  parts <> [] ->
  Forall (fun line => ~ In sep line) parts ->
  split sep (join sep parts) = parts.
Proof.
  induction parts as [|p rest IH]; [congruence|]. intros _ Hall.
  inversion Hall as [|? ? Hp Hrest]; subst.
  destruct rest as [|q rest].
  - simpl. clear IH Hall Hrest. induction p as [|c p IHp]; [reflexivity|].
    simpl. destruct (N.eqb c sep) eqn:E.
    + apply N.eqb_eq in E. exfalso. apply Hp. now left.
    + rewrite IHp; [reflexivity|]. intros H. apply Hp. now right.
  - assert (IH' : split sep (join sep (q :: rest)) = q :: rest)
      by (apply IH; [discriminate|assumption]).
    change (join sep (p :: q :: rest)) with (p ++ sep :: join sep (q :: rest)).
    clear IH Hall Hrest. induction p as [|c p IHp].
    + cbn [app split]. rewrite N.eqb_refl. now rewrite IH'.
    + cbn [app split]. destruct (N.eqb c sep) eqn:E.
      * apply N.eqb_eq in E. exfalso. apply Hp. now left.
      * rewrite IHp; [reflexivity|]. intros H. apply Hp. now right.
Qed.

Lemma trim_nil_all (s : jsstring) :
  trim s = [] <-> forallb is_whitespace s = true.
Proof.
  unfold trim, trimEnd, trimStart.
  induction s as [|c s IH]; cbn [lstrip forallb]; [simpl; tauto|].
  destruct (is_whitespace c) eqn:E; cbn [andb].
  - exact IH.
  - split; [|discriminate]. intros H. apply rstrip_nil_all in H.
    cbn [forallb] in H. rewrite E in H. discriminate.
Qed.

End StringFacts.

(** ** Judge engine: output comparison *)

Section OutputComparison.
Import JudgeEngine.

(** The normalization of [runTestCase] factors through the normalization
    of the specification: trailing whitespace of a line includes its
    trailing spaces. *)
Lemma normalize_factors (output : jsstring) :
  normalize output runTestCase_mode
  = join LF (map trimEnd (split LF (Spec.normalize_output output))).
Proof.
  unfold normalize, Spec.normalize_output. cbn [runTestCase_mode
    ComparisonMode.trimWhitespace ComparisonMode.ignoreTrailingSpaces
    ComparisonMode.ignoreEmptyLines].
  rewrite split_join.
  - rewrite List.map_map. f_equal. apply List.map_ext.
    intros line. unfold trimEnd, Spec.strip_trailing_spaces.
    symmetry. apply rstrip_rstrip. intros c Hc.
    apply N.eqb_eq in Hc. subst c. reflexivity.
  - pose proof (split_not_nil LF (trim output)) as Hne.
    destruct (split LF (trim output)); [congruence|discriminate].
  - apply List.Forall_map.
    eapply List.Forall_impl; [|apply split_no_sep].
    intros line Hline Hin. apply Hline.
    unfold Spec.strip_trailing_spaces in Hin. eapply rstrip_In; eassumption.
Qed.

Lemma compareOutput_true_iff (actual expected : jsstring) (mode : ComparisonMode.t) :
  compareOutput actual expected mode = true
  <-> normalize actual mode = normalize expected mode.
Proof. unfold compareOutput. apply str_eqb_eq. Qed.

(** Interior empty lines are kept when [ignoreEmptyLines] is off, and
    dropped when it is on. *)
Example compareOutput_interior_blank_line :
  compareOutput (lit "5" ++ [LF; LF] ++ lit "6") (lit "5" ++ [LF] ++ lit "6")
    runTestCase_mode = false
  /\ compareOutput (lit "5" ++ [LF; LF] ++ lit "6") (lit "5" ++ [LF] ++ lit "6")
       (ComparisonMode.mk true true true) = true.
Proof. split; reflexivity. Qed.

(** C3, as stated, fails on its third example: [trim] removes the two
    trailing line feeds of ["5\n\n"], which then equals ["5"], so that
    [compareOutput] does not return false although empty lines are not
    ignored. *)
Lemma compareOutput_trailing_blank_lines_not_false :
  compareOutput (lit "5" ++ [LF; LF]) (lit "5") runTestCase_mode <> false.
Proof. vm_compute. discriminate. Qed.

(** C3 (amended): outputs that are equal after normalization compare equal,
    both for the normalization of the source under any comparison mode and
    for the normalization in the words of the specification (trim, then
    strip trailing spaces of each line) under the mode of [runTestCase];
    with that mode, ["5\n"] against ["5"] and ["5 \n6"] against ["5\n6"]
    compare equal, and so does ["5\n\n"] against ["5"]. *)
Theorem compareOutput_equal_after_normalization :
  (forall actual expected mode,
      normalize actual mode = normalize expected mode ->
      compareOutput actual expected mode = true)
  /\ (forall actual expected,
         Spec.normalize_output actual = Spec.normalize_output expected ->
         compareOutput actual expected runTestCase_mode = true)
  /\ compareOutput (lit "5" ++ [LF]) (lit "5") runTestCase_mode = true
  /\ compareOutput (lit "5 " ++ [LF] ++ lit "6") (lit "5" ++ [LF] ++ lit "6")
       runTestCase_mode = true
  /\ compareOutput (lit "5" ++ [LF; LF]) (lit "5") runTestCase_mode = true.
Proof.
  split; [|split; [|repeat split]].
  - intros actual expected mode H. now apply compareOutput_true_iff.
  - intros actual expected H. apply compareOutput_true_iff.
    rewrite !normalize_factors. now rewrite H.
Qed.

Lemma compareOutput_equal_after_normalization_witness :
  Spec.normalize_output (lit "  7 " ++ [LF] ++ lit "8  " ++ [LF])
  = Spec.normalize_output (lit "7" ++ [LF] ++ lit "8")
  /\ compareOutput (lit "  7 " ++ [LF] ++ lit "8  " ++ [LF])
       (lit "7" ++ [LF] ++ lit "8") runTestCase_mode = true.
Proof.
  split; [reflexivity|].
  apply (proj1 (proj2 compareOutput_equal_after_normalization)).
  reflexivity.
Defined.

End OutputComparison.

(** ** Numbers: the order of binary64, and [Math.max] *)

Section FloatOrder.

Lemma SFcompare_refl x : x <> S754_nan -> SFcompare x x = Some Eq.
Proof.
  destruct x as [s|s| |s m e]; cbn; intros H; try congruence.
  - destruct s; reflexivity.
  - rewrite Z.compare_refl, Pos.compare_cont_refl. destruct s; reflexivity.
Qed.

Lemma SFleb_trans x y z :
  SFleb x y = true -> SFleb y z = true -> SFleb x z = true.
Proof.
  unfold SFleb, SFcompare.
  destruct x as [sx|sx| |sx mx ex], y as [sy|sy| |sy my ey], z as [sz|sz| |sz mz ez];
    repeat match goal with s : bool |- _ => destruct s end;
    try reflexivity; try discriminate;
    change (Pos.compare_cont Eq) with Pos.compare;
    intros H1 H2;
    destruct (Z.compare_spec ex ey), (Z.compare_spec ey ez), (Z.compare_spec ex ez);
    try reflexivity; try discriminate; try lia; subst;
    destruct (Pos.compare_spec mx my), (Pos.compare_spec my mz), (Pos.compare_spec mx mz);
    try reflexivity; try discriminate; try lia.
Qed.

Lemma SFleb_total x y :
  x <> S754_nan -> y <> S754_nan -> SFltb x y = false -> SFleb y x = true.
Proof.
  unfold SFleb, SFltb, SFcompare.
  destruct x as [sx|sx| |sx mx ex], y as [sy|sy| |sy my ey];
    repeat match goal with s : bool |- _ => destruct s end;
    try reflexivity; try discriminate; try congruence;
    change (Pos.compare_cont Eq) with Pos.compare;
    intros _ _ H;
    destruct (Z.compare_spec ex ey), (Z.compare_spec ey ex);
    try reflexivity; try discriminate; try lia; subst;
    destruct (Pos.compare_spec mx my), (Pos.compare_spec my mx);
    try reflexivity; try discriminate; try lia.
Qed.

Lemma SFltb_leb x y : SFltb x y = true -> SFleb x y = true.
Proof.
  unfold SFleb, SFltb. destruct (SFcompare x y) as [[]|]; congruence.
Qed.

Lemma is_nan_spec x : is_nan x = false <-> Prim2SF x <> S754_nan.
Proof.
  unfold is_nan. rewrite FloatAxioms.eqb_spec. unfold SFeqb. split.
  - intros H E. rewrite E in H. discriminate.
  - intros H. now rewrite SFcompare_refl.
Qed.

Lemma leb_refl x : is_nan x = false -> PrimFloat.leb x x = true.
Proof.
  intros H. apply is_nan_spec in H. rewrite FloatAxioms.leb_spec. unfold SFleb.
  now rewrite SFcompare_refl.
Qed.

Lemma leb_trans x y z :
  PrimFloat.leb x y = true -> PrimFloat.leb y z = true -> PrimFloat.leb x z = true.
Proof. rewrite !FloatAxioms.leb_spec. apply SFleb_trans. Qed.

Lemma not_ltb_leb x y :
  is_nan x = false -> is_nan y = false ->
  PrimFloat.ltb x y = false -> PrimFloat.leb y x = true.
Proof.
  rewrite !is_nan_spec, FloatAxioms.ltb_spec, FloatAxioms.leb_spec. apply SFleb_total.
Qed.

Lemma ltb_leb x y : PrimFloat.ltb x y = true -> PrimFloat.leb x y = true.
Proof. rewrite FloatAxioms.ltb_spec, FloatAxioms.leb_spec. apply SFltb_leb. Qed.

Lemma zeros_leb x y :
  is_neg_zero x = true -> is_pos_zero y = true -> PrimFloat.leb x y = true.
Proof.
  unfold is_neg_zero, is_pos_zero. rewrite !FloatAxioms.classify_spec, FloatAxioms.leb_spec.
  unfold SF64classify, SFclassify.
  destruct (Prim2SF x) as [[]|[]| |[] m e], (Prim2SF y) as [[]|[]| |[] m' e'];
    try discriminate; try reflexivity;
    repeat match goal with |- context [if ?b then _ else _] => destruct b end;
    discriminate.
Qed.

Lemma neg_infinity_least x :
  is_nan x = false ->
  PrimFloat.leb neg_infinity x = true
  /\ (PrimFloat.ltb neg_infinity x = false -> x = neg_infinity).
Proof.
  rewrite is_nan_spec, FloatAxioms.leb_spec, FloatAxioms.ltb_spec. intros H.
  change (Prim2SF neg_infinity) with (S754_infinity true).
  split.
  - destruct (Prim2SF x) as [[]|[]| |[] m e]; try reflexivity; congruence.
  - intros Hlt. apply Prim2SF_inj. change (Prim2SF neg_infinity) with (S754_infinity true).
    destruct (Prim2SF x) as [[]|[]| |[] m e]; try reflexivity; try discriminate; congruence.
Qed.

Lemma max_step_bounds highest x :
  is_nan highest = false -> is_nan x = false ->
  (max_step highest x = highest \/ max_step highest x = x)
  /\ is_nan (max_step highest x) = false
  /\ PrimFloat.leb highest (max_step highest x) = true
  /\ PrimFloat.leb x (max_step highest x) = true.
Proof.
  intros Hh Hx. unfold max_step.
  destruct (is_pos_zero x && is_neg_zero highest) eqn:Hzero.
  - apply andb_true_iff in Hzero as [Hpos Hneg].
    split; [auto|]. split; [exact Hx|].
    split; [now apply zeros_leb|now apply leb_refl].
  - destruct (PrimFloat.ltb highest x) eqn:Hlt.
    + split; [auto|]. split; [exact Hx|].
      split; [now apply ltb_leb|now apply leb_refl].
    + split; [auto|]. split; [exact Hh|].
      split; [now apply leb_refl|now apply not_ltb_leb].
Qed.

Lemma fold_max_step xs : forall highest,
  is_nan highest = false ->
  existsb is_nan xs = false ->
  let m := fold_left max_step xs highest in
  (m = highest \/ In m xs)
  /\ PrimFloat.leb highest m = true
  /\ forall x, In x xs -> PrimFloat.leb x m = true.
Proof.
  induction xs as [|x0 xs IH]; intros highest Hh Hxs; cbn [fold_left].
  - split; [auto|]. split; [now apply leb_refl|]. intros x [].
  - cbn [existsb] in Hxs. apply orb_false_iff in Hxs as [Hx0 Hxs].
    destruct (max_step_bounds highest x0 Hh Hx0) as (Hwhich & Hnan & Hle_h & Hle_x).
    destruct (IH (max_step highest x0) Hnan Hxs) as (Hin & Hle & Hall).
    split; [|split].
    + destruct Hin as [->|Hin]; [|right; now right].
      destruct Hwhich as [->| ->]; [now left|right; now left].
    + eapply leb_trans; eassumption.
    + intros x [<-|Hx]; [eapply leb_trans; eassumption|auto].
Qed.

(** [Math.max] of numbers, none of which is NaN and of which there is at
    least one, is their maximum. *)
Lemma Math_max_is_maximum xs :
  xs <> [] -> existsb is_nan xs = false -> Spec.is_maximum (Math_max xs) xs.
Proof.
  intros Hne Hnan. unfold Math_max. rewrite Hnan.
  destruct xs as [|x0 xs]; [congruence|]. clear Hne.
  cbn [existsb] in Hnan. apply orb_false_iff in Hnan as [Hx0 Hxs].
  cbn [fold_left].
  assert (Hfirst : max_step neg_infinity x0 = x0).
  { destruct (neg_infinity_least x0 Hx0) as [_ Hleast].
    unfold max_step.
    destruct (is_pos_zero x0 && is_neg_zero neg_infinity); [reflexivity|].
    destruct (PrimFloat.ltb neg_infinity x0) eqn:Hlt; [reflexivity|].
    symmetry. now apply Hleast. }
  rewrite Hfirst.
  destruct (fold_max_step xs x0 Hx0 Hxs) as (Hin & Hle & Hall).
  split.
  - destruct Hin as [->|Hin]; [now left|now right].
  - intros x [<-|Hx]; auto.
Qed.

Lemma num_or_not_nan x : is_nan (num_or x 0) = false.
Proof.
  unfold num_or. destruct x as [v|]; [|reflexivity].
  destruct (truthy v) eqn:Hv; [|reflexivity].
  unfold truthy in Hv. apply negb_true_iff, orb_false_iff in Hv. apply Hv.
Qed.

End FloatOrder.

(** ** Judge engine: evaluation *)

Section Evaluation.
Import JudgeEngine.
Context {W : Type}.
Variable executeFunction : jsstring -> M W ExecutionResult.t.

Local Abbreviation one_case := (Spec.one_case executeFunction).
Local Abbreviation every_case := (Spec.every_case executeFunction).

(** [runTestCase] never throws: its [catch] block turns every exception of
    [executeFunction] into a failed result. *)
Lemma runTestCase_one_case (testCase : TestCase.t) (n : nat) (w : W) :
  runTestCase executeFunction testCase n w
  = (Returned (fst (one_case testCase n w)), snd (one_case testCase n w)).
Proof.
  unfold runTestCase, try_catch, bind, ret, Spec.one_case.
  destruct (executeFunction (TestCase.input testCase) w) as [[result|error] w'];
    reflexivity.
Qed.

Lemma judge_testCaseNumber (testCase : TestCase.t) (n : nat) (result : ExecutionResult.t) :
  TestCaseResult.testCaseNumber (judge testCase n result) = n.
Proof.
  unfold judge.
  destruct (negb (ExecutionResult.success result)); [reflexivity|].
  destruct (over_time_limit result testCase); reflexivity.
Qed.

Lemma one_case_testCaseNumber (testCase : TestCase.t) (n : nat) (w : W) :
  TestCaseResult.testCaseNumber (fst (one_case testCase n w)) = n.
Proof.
  unfold Spec.one_case.
  destruct (executeFunction (TestCase.input testCase) w) as [[result|error] w'];
    [apply judge_testCaseNumber|reflexivity].
Qed.

(** Results are numbered from one, in the order of the test cases. *)
Lemma every_case_testCaseNumber (testCases : list TestCase.t) :
  forall i w j r,
    fst (every_case testCases i w) !! j = Some r ->
    TestCaseResult.testCaseNumber r = i + j + 1.
Proof.
  induction testCases as [|testCase rest IH]; intros i w j r; cbn [Spec.every_case].
  - intros H. discriminate.
  - pose proof (one_case_testCaseNumber testCase (i + 1) w) as Hn.
    destruct (one_case testCase (i + 1) w) as [r0 w'].
    specialize (IH (S i) w').
    destruct (every_case rest (S i) w') as [rs w'']. cbn [fst] in *.
    destruct j as [|j]; cbn.
    + intros [= <-]. lia.
    + intros H. apply IH in H. lia.
Qed.

(** The times and the memory of a result are never NaN: the judge replaces
    a NaN that the executor reports by 0. *)
Lemma judge_no_nan testCase n result :
  is_nan (TestCaseResult.executionTime (judge testCase n result)) = false
  /\ is_nan (TestCaseResult.memoryUsed (judge testCase n result)) = false.
Proof.
  unfold judge. destruct (negb (ExecutionResult.success result)); cbn.
  { split; apply num_or_not_nan. }
  unfold over_time_limit.
  destruct (ExecutionResult.executionTime result) as [t|] eqn:Ht; cbn.
  - destruct (truthy t && PrimFloat.ltb (TestCase.timeLimit testCase) t) eqn:Hover; cbn.
    + apply andb_true_iff in Hover as [Hover _]. unfold truthy in Hover.
      apply negb_true_iff, orb_false_iff in Hover.
      split; [apply Hover|apply num_or_not_nan].
    + split; [apply (num_or_not_nan (Some t))|apply num_or_not_nan].
  - split; [reflexivity|apply num_or_not_nan].
Qed.

Lemma one_case_no_nan testCase n w :
  is_nan (TestCaseResult.executionTime (fst (one_case testCase n w))) = false
  /\ is_nan (TestCaseResult.memoryUsed (fst (one_case testCase n w))) = false.
Proof.
  unfold Spec.one_case.
  destruct (executeFunction (TestCase.input testCase) w) as [[result|error] w'];
    cbn [fst]; [apply judge_no_nan|split; reflexivity].
Qed.

Lemma every_case_no_nan (testCases : list TestCase.t) :
  forall i w r,
    In r (fst (every_case testCases i w)) ->
    is_nan (TestCaseResult.executionTime r) = false
    /\ is_nan (TestCaseResult.memoryUsed r) = false.
Proof.
  induction testCases as [|testCase rest IH]; intros i w r; cbn [Spec.every_case].
  - intros [].
  - pose proof (one_case_no_nan testCase (i + 1) w) as Hone.
    destruct (one_case testCase (i + 1) w) as [r0 w'].
    specialize (IH (S i) w').
    destruct (every_case rest (S i) w') as [rs w'']. cbn [fst] in *.
    intros [<-|Hin]; auto.
Qed.

Lemma every_case_length (testCases : list TestCase.t) :
  forall i w, length (fst (every_case testCases i w)) = length testCases.
Proof.
  induction testCases as [|testCase rest IH]; intros i w; cbn [Spec.every_case];
    [reflexivity|].
  destruct (one_case testCase (i + 1) w) as [r0 w'].
  specialize (IH (S i) w').
  destruct (every_case rest (S i) w') as [rs w'']. cbn in *. now rewrite IH.
Qed.

(** The loop runs the test cases up to the first one that fails, and no
    further: its results are those of the first [k] cases, and the state it
    leaves is the state after running these [k] cases. *)
Lemma evaluate_loop_stops (testCases : list TestCase.t) :
  forall i acc w k f,
    1 <= k ->
    (forall j r, j < k - 1 ->
                 fst (every_case testCases i w) !! j = Some r ->
                 TestCaseResult.passed r = true) ->
    fst (every_case testCases i w) !! (k - 1) = Some f ->
    TestCaseResult.passed f = false ->
    evaluate_loop executeFunction testCases i acc w
    = (Returned (acc ++ take k (fst (every_case testCases i w))),
       snd (every_case (take k testCases) i w)).
Proof.
  induction testCases as [|testCase rest IH]; intros i acc w k f Hk Hpass Hf Hfail.
  - discriminate.
  - cbn [evaluate_loop Spec.every_case] in *. unfold bind at 1.
    rewrite runTestCase_one_case.
    destruct k as [|k]; [lia|]. cbn [take Spec.every_case].
    destruct (one_case testCase (i + 1) w) as [r w'].
    specialize (IH (S i) (acc ++ [r]) w').
    destruct (every_case rest (S i) w') as [rs w''] eqn:Erest.
    cbn [fst snd] in *.
    destruct k as [|k].
    + cbn in Hf. injection Hf as ->. rewrite Hfail. cbn.
      rewrite take_0. reflexivity.
    + rewrite (Hpass 0 r); [|lia|reflexivity]. cbn [negb].
      rewrite (IH (S k) f); [| lia | | |assumption].
      * rewrite <- app_assoc. cbn.
        destruct (every_case (take (S k) rest) (S i) w'); reflexivity.
      * intros j r' Hj Hr'. apply (Hpass (S j) r'); [lia|exact Hr'].
      * replace (S k - 1) with k by lia.
        replace (S (S k) - 1) with (S k) in Hf by lia. exact Hf.
Qed.

Lemma find_first_failure (passedOnes : list TestCaseResult.t) (f : TestCaseResult.t) :
  forallb TestCaseResult.passed passedOnes = true ->
  TestCaseResult.passed f = false ->
  forallb TestCaseResult.passed (passedOnes ++ [f]) = false
  /\ List.find (fun r => negb (TestCaseResult.passed r)) (passedOnes ++ [f]) = Some f
  /\ List.filter TestCaseResult.passed (passedOnes ++ [f]) = passedOnes.
Proof.
  intros Hall Hf. induction passedOnes as [|r rest IH]; cbn.
  - rewrite Hf. auto.
  - cbn in Hall. apply andb_true_iff in Hall as [Hr Hrest].
    destruct (IH Hrest) as (H1 & H2 & H3). rewrite Hr. cbn.
    rewrite H1, H2, H3. auto.
Qed.

(** [generateVerdict] never throws: when some result failed, [find] finds
    the first that did. *)
Lemma generateVerdict_returns (results : list TestCaseResult.t) (totalTests : nat) :
  exists verdict, generateVerdict results totalTests = Returned verdict.
Proof.
  unfold generateVerdict.
  destruct (forallb TestCaseResult.passed results) eqn:Hall; [eauto|].
  destruct (List.find _ results) eqn:Hfind; [eauto|].
  exfalso. induction results as [|r rest IH]; [discriminate|].
  cbn in Hall, Hfind. destruct (TestCaseResult.passed r); cbn in *;
    [auto|discriminate].
Qed.

(** C4: when the first [k-1] test cases pass and the [k]-th fails, [evaluate]
    runs exactly [k] cases and stops. The results are those of the first [k]
    cases and the state is the one that these [k] runs leave; the verdict
    names the [k]-th case as the failed one, has its verdict kind, counts
    [k-1] passed tests, and its [maxTime] and [maxMemory] are the maxima over
    the [k] results: each is the time, or the memory, of one of the [k]
    results, and no result among the [k] has a larger one. In particular, of
    three test cases of which the second fails, two are run and
    [failedTestCase] is 2. *)
Theorem evaluate_stops_at_first_failure :
  (forall code testCases w k f,
      1 <= k ->
      (forall j r, j < k - 1 ->
                   fst (every_case testCases 0 w) !! j = Some r ->
                   TestCaseResult.passed r = true) ->
      fst (every_case testCases 0 w) !! (k - 1) = Some f ->
      TestCaseResult.passed f = false ->
      let executed := take k (fst (every_case testCases 0 w)) in
      let after := snd (every_case (take k testCases) 0 w) in
      evaluate_loop executeFunction testCases 0 [] w = (Returned executed, after)
      /\ length executed = k
      /\ exists verdict,
          evaluate executeFunction code testCases w = (Returned verdict, after)
          /\ Verdict.failedTestCase verdict = Some k
          /\ Verdict.status verdict = TestCaseResult.verdict f
          /\ Verdict.passedTests verdict = k - 1
          /\ Verdict.totalTests verdict = length testCases
          /\ Verdict.maxTime verdict
             = Math_max (map TestCaseResult.executionTime executed)
          /\ Verdict.maxMemory verdict
             = Math_max (map TestCaseResult.memoryUsed executed)
          /\ Spec.is_maximum (Verdict.maxTime verdict)
               (map TestCaseResult.executionTime executed)
          /\ Spec.is_maximum (Verdict.maxMemory verdict)
               (map TestCaseResult.memoryUsed executed))
  /\ (forall code t1 t2 t3 w r1 r2,
         fst (every_case [t1; t2; t3] 0 w) !! 0 = Some r1 ->
         fst (every_case [t1; t2; t3] 0 w) !! 1 = Some r2 ->
         TestCaseResult.passed r1 = true ->
         TestCaseResult.passed r2 = false ->
         exists results after verdict,
           evaluate_loop executeFunction [t1; t2; t3] 0 [] w
           = (Returned results, after)
           /\ length results = 2
           /\ evaluate executeFunction code [t1; t2; t3] w = (Returned verdict, after)
           /\ Verdict.failedTestCase verdict = Some 2).
Proof.
  assert (General : forall code testCases w k f,
      1 <= k ->
      (forall j r, j < k - 1 ->
                   fst (every_case testCases 0 w) !! j = Some r ->
                   TestCaseResult.passed r = true) ->
      fst (every_case testCases 0 w) !! (k - 1) = Some f ->
      TestCaseResult.passed f = false ->
      let executed := take k (fst (every_case testCases 0 w)) in
      let after := snd (every_case (take k testCases) 0 w) in
      evaluate_loop executeFunction testCases 0 [] w = (Returned executed, after)
      /\ length executed = k
      /\ exists verdict,
          evaluate executeFunction code testCases w = (Returned verdict, after)
          /\ Verdict.failedTestCase verdict = Some k
          /\ Verdict.status verdict = TestCaseResult.verdict f
          /\ Verdict.passedTests verdict = k - 1
          /\ Verdict.totalTests verdict = length testCases
          /\ Verdict.maxTime verdict
             = Math_max (map TestCaseResult.executionTime executed)
          /\ Verdict.maxMemory verdict
             = Math_max (map TestCaseResult.memoryUsed executed)
          /\ Spec.is_maximum (Verdict.maxTime verdict)
               (map TestCaseResult.executionTime executed)
          /\ Spec.is_maximum (Verdict.maxMemory verdict)
               (map TestCaseResult.memoryUsed executed)).
  { intros code testCases w k f Hk Hpass Hf Hfail executed after.
    pose proof (evaluate_loop_stops testCases 0 [] w k f Hk Hpass Hf Hfail) as Hloop.
    cbn [app] in Hloop. fold executed after in Hloop.
    assert (Hsplit : executed = take (k - 1) (fst (every_case testCases 0 w)) ++ [f]).
    { unfold executed. replace k with (S (k - 1)) at 1 by lia.
      now apply take_S_r. }
    assert (Hprefix : forallb TestCaseResult.passed
                        (take (k - 1) (fst (every_case testCases 0 w))) = true).
    { apply forallb_forall. intros r Hin.
      apply list_elem_of_In, list_elem_of_lookup in Hin as [j Hj].
      apply lookup_take_Some in Hj as [Hj Hlt]. eauto. }
    assert (Hlen : length (take (k - 1) (fst (every_case testCases 0 w))) = k - 1).
    { apply length_take_le. apply lookup_lt_Some in Hf. lia. }
    destruct (find_first_failure _ f Hprefix Hfail) as (Hall & Hfind & Hfilter).
    rewrite <- Hsplit in Hall, Hfind, Hfilter.
    assert (Hexecuted : length executed = k).
    { rewrite Hsplit, length_app, Hlen. cbn. lia. }
    assert (Hnan : forall r, In r executed ->
                     is_nan (TestCaseResult.executionTime r) = false
                     /\ is_nan (TestCaseResult.memoryUsed r) = false).
    { intros r Hin. apply (every_case_no_nan testCases 0 w).
      apply list_elem_of_In. apply list_elem_of_In in Hin.
      unfold executed in Hin. apply list_elem_of_lookup in Hin as [j Hj].
      apply lookup_take_Some in Hj as [Hj _].
      apply list_elem_of_lookup. eauto. }
    assert (Hmaxima : forall get : TestCaseResult.t -> number,
               (forall r, In r executed -> is_nan (get r) = false) ->
               Spec.is_maximum (Math_max (map get executed)) (map get executed)).
    { intros get Hget. apply Math_max_is_maximum.
      - destruct executed; [cbn in Hexecuted; lia|discriminate].
      - apply not_true_is_false. intros Hex.
        apply existsb_exists in Hex as (x & Hin & Hx).
        apply in_map_iff in Hin as (r & <- & Hr).
        rewrite (Hget r Hr) in Hx. discriminate. }
    pose proof (Hmaxima TestCaseResult.executionTime
                  (fun r Hr => proj1 (Hnan r Hr))) as Hmax_time.
    pose proof (Hmaxima TestCaseResult.memoryUsed
                  (fun r Hr => proj2 (Hnan r Hr))) as Hmax_memory.
    split; [exact Hloop|]. split; [exact Hexecuted|].
    unfold evaluate, bind. rewrite Hloop. unfold lift, generateVerdict.
    rewrite Hall, Hfind. eexists. split; [reflexivity|].
    cbn [Verdict.failedTestCase Verdict.status Verdict.passedTests
           Verdict.totalTests Verdict.maxTime Verdict.maxMemory].
    rewrite Hfilter, Hlen.
    rewrite (every_case_testCaseNumber testCases 0 w (k - 1) f Hf).
    split; [f_equal; lia|]. split; [reflexivity|]. split; [reflexivity|].
    split; [reflexivity|]. split; [reflexivity|]. split; [reflexivity|].
    split; [exact Hmax_time|exact Hmax_memory]. }
  split; [exact General|].
  intros code t1 t2 t3 w r1 r2 H1 H2 Hp1 Hp2.
  destruct (General code [t1; t2; t3] w 2 r2) as (Hloop & Hlen & verdict & Hev & Hfailed & _).
  - lia.
  - intros j r Hj Hr. assert (j = 0) as -> by lia. congruence.
  - exact H2.
  - exact Hp2.
  - eauto 10.
Qed.

(** C10: against no test case at all, [evaluate] runs nothing and returns
    [Accepted] with no passed and no total test, and with [Math.max()] of no
    argument, which is [-Infinity], as [maxTime] and [maxMemory]. *)
Theorem evaluate_no_test_case code w :
  evaluate executeFunction code [] w
  = (Returned {| Verdict.status := Accepted;
                 Verdict.passedTests := 0;
                 Verdict.totalTests := 0;
                 Verdict.maxTime := neg_infinity;
                 Verdict.maxMemory := neg_infinity;
                 Verdict.failedTestCase := None;
                 Verdict.errorMessage := None |}, w)
  /\ Math_max [] = neg_infinity.
Proof. split; reflexivity. Qed.


End Evaluation.

(** ** Reasoning about asynchronous methods *)

Section Frames.
Context {S X : Type}.
Variable proj : S -> X.

Lemma unchanged_ret {A} (a : A) : unchanged proj (ret a).
Proof. intros s. reflexivity. Qed.

Lemma unchanged_throw {A} (e : thrown) : unchanged proj (@throw S A e).
Proof. intros s. reflexivity. Qed.

Lemma unchanged_lift {A} (r : outcome A) : unchanged proj (lift r).
Proof. intros s. reflexivity. Qed.

Lemma unchanged_gets {A} (f : S -> A) : unchanged proj (gets f).
Proof. intros s. reflexivity. Qed.

Lemma unchanged_modify (f : S -> S) :
  (forall s, proj (f s) = proj s) -> unchanged proj (modify f).
Proof. intros H s. apply H. Qed.

Lemma unchanged_bind {A B} (m : M S A) (k : A -> M S B) :
  unchanged proj m -> (forall a, unchanged proj (k a)) -> unchanged proj (bind m k).
Proof.
  intros Hm Hk s. unfold bind. specialize (Hm s).
  destruct (m s) as [[a|e] s']; cbn in *; [|assumption].
  rewrite Hk. assumption.
Qed.

Lemma unchanged_try_catch {A} (m : M S A) (h : thrown -> M S A) :
  unchanged proj m -> (forall e, unchanged proj (h e)) -> unchanged proj (try_catch m h).
Proof.
  intros Hm Hh s. unfold try_catch. specialize (Hm s).
  destruct (m s) as [[a|e] s']; cbn in *; [assumption|].
  rewrite Hh. assumption.
Qed.

Lemma unchanged_try_finally {A} (m : M S A) (f : M S unit) :
  unchanged proj m -> unchanged proj f -> unchanged proj (try_finally m f).
Proof.
  intros Hm Hf s. unfold try_finally. specialize (Hm s).
  destruct (m s) as [r s']. specialize (Hf s').
  destruct (f s') as [[[]|e] s'']; cbn in *; congruence.
Qed.

End Frames.

Create HintDb frame.
#[local] Hint Resolve unchanged_ret unchanged_throw unchanged_lift unchanged_gets
  unchanged_bind unchanged_try_catch unchanged_try_finally : frame.

(** Steps through the structure of a computation, leaving the frame
    conditions of its primitive steps. *)
Ltac frame_step :=
  match goal with
  | |- unchanged _ (bind _ _) => apply unchanged_bind; [|intros ?]
  | |- unchanged _ (try_catch _ _) => apply unchanged_try_catch; [|intros ?]
  | |- unchanged _ (try_finally _ _) => apply unchanged_try_finally
  | |- unchanged _ (ret _) => apply unchanged_ret
  | |- unchanged _ (throw _) => apply unchanged_throw
  | |- unchanged _ (lift _) => apply unchanged_lift
  | |- unchanged _ (gets _) => apply unchanged_gets
  | |- unchanged _ (if ?b then _ else _) => destruct b
  | |- unchanged _ (match ?x with _ => _ end) => destruct x
  end.

Ltac frame := repeat frame_step; auto with frame.

(** ** What the orchestrator never touches: the table and the queue *)

Section Persisted.
Import World.

Lemma external_persisted : unchanged persisted external.
Proof.
  intros w. unfold external. destruct (replies w) as [|[took [|e]] rest]; reflexivity.
Qed.

Lemma Date_now_persisted : unchanged persisted Date_now.
Proof. apply unchanged_gets. Qed.

Lemma uuidv4_persisted : unchanged persisted uuidv4.
Proof. intros w. unfold uuidv4. destruct (uuids w); reflexivity. Qed.

Lemma next_stream_persisted : unchanged persisted next_stream.
Proof. intros w. unfold next_stream. destruct (streams w); reflexivity. Qed.

Lemma docker_request_persisted c : unchanged persisted (docker_request c).
Proof.
  unfold docker_request. frame; [apply external_persisted|].
  apply unchanged_modify. reflexivity.
Qed.

Lemma console_line_persisted line : unchanged persisted (console_line line).
Proof. apply unchanged_modify. reflexivity. Qed.

Lemma console_error_persisted text error :
  unchanged persisted (console_error text error).
Proof. apply unchanged_modify. reflexivity. Qed.

Lemma elapse_persisted ms : unchanged persisted (modify (elapse ms)).
Proof. apply unchanged_modify. reflexivity. Qed.

#[local] Hint Resolve external_persisted Date_now_persisted uuidv4_persisted
  next_stream_persisted docker_request_persisted console_line_persisted
  console_error_persisted
  elapse_persisted : frame.

Lemma createExecutionEnvironment_persisted language :
  unchanged persisted (ContainerOrchestrator.createExecutionEnvironment language).
Proof.
  unfold ContainerOrchestrator.createExecutionEnvironment. frame.
Qed.

Lemma collectOutput_persisted stream timeout :
  unchanged persisted (ContainerOrchestrator.collectOutput stream timeout).
Proof. unfold ContainerOrchestrator.collectOutput. frame. Qed.

Lemma executeInContainer_persisted env code input limits :
  unchanged persisted (ContainerOrchestrator.executeInContainer env code input limits).
Proof.
  unfold ContainerOrchestrator.executeInContainer,
    ContainerOrchestrator.writeToContainer.
  frame. apply collectOutput_persisted.
Qed.

Lemma destroyEnvironment_persisted env :
  unchanged persisted (ContainerOrchestrator.destroyEnvironment env).
Proof.
  unfold ContainerOrchestrator.destroyEnvironment. frame.
Qed.

Lemma runCustomTest_persisted code input language :
  unchanged persisted (ExecutionController.runCustomTest code input language).
Proof.
  unfold ExecutionController.runCustomTest. frame.
  - apply createExecutionEnvironment_persisted.
  - apply executeInContainer_persisted.
  - apply destroyEnvironment_persisted.
Qed.

End Persisted.

(** ** Orchestrator, controller and router *)

Import Spec Scenarios RegexSpec.

Section Orchestration.
Import World ContainerOrchestrator.

Lemma world_run {A} (m : M World.t A) (s : Submission.t) (w : World.t) :
  ExecutionController.world m (s, w) = (fst (m w), (s, snd (m w))).
Proof.
  unfold ExecutionController.world, within. cbn. destruct (m w); reflexivity.
Qed.

(** [executeInContainer] never throws: its [catch] block answers every
    exception with a failed result. *)
Lemma executeInContainer_returns env code input limits w :
  exists result w',
    executeInContainer env code input limits w = (Returned result, w').
Proof.
  unfold executeInContainer, bind at 1, Date_now, gets, try_catch.
  match goal with |- context [ match ?body w with _ => _ end ] =>
    destruct (body w) as [[result|error] w'] end.
  - eauto.
  - unfold bind, ret. eauto.
Qed.

(** The only verdict kind that [executeInContainer] ever reports is
    [Runtime Error], and it reports it exactly on its failed results. *)
Lemma executeInContainer_verdict env code input limits w :
  let result := fst (executeInContainer env code input limits w) in
  forall r, result = Returned r ->
    (ExecutionResult.success r = true /\ ExecutionResult.verdict r = None)
    \/ (ExecutionResult.success r = false
        /\ ExecutionResult.verdict r = Some RuntimeError).
Proof.
  unfold executeInContainer, bind at 1, Date_now, gets, try_catch.
  match goal with |- context [ match ?body w with _ => _ end ] =>
    destruct (body w) as [[result|error] w'] eqn:E end.
  - cbn. intros r [= <-]. revert E. unfold bind.
    repeat match goal with
           | |- context [ match ?m ?s with _ => _ end ] =>
               destruct (m s) as [[?|?] ?]; try discriminate
           end.
    unfold ret. intros [= <- <-]. left. split; reflexivity.
  - cbn. intros r [= <-]. right. split; reflexivity.
Qed.

(** When the stream of a run has not ended strictly before the time limit,
    [collectOutput] rejects with the message [Time Limit Exceeded] once the
    limit has passed. *)
Lemma collectOutput_timeout stream timeout w :
  finishes_before stream timeout = false ->
  collectOutput stream timeout w
  = (Threw (ErrorObj (lit "Time Limit Exceeded")), elapse timeout w).
Proof.
  unfold finishes_before, collectOutput.
  destruct (ending stream) as [at_ms|at_ms e|]; try intros ->; reflexivity.
Qed.

(** [destroyEnvironment] never throws. When Docker serves the stop and the
    removal, the container is stopped and removed and the environment is
    dropped from the worker pool; when Docker rejects one of the two, the
    later steps are not taken, the environment stays in the worker pool, and
    the failure is logged with what Docker threw. *)
Lemma destroyEnvironment_outcome env w :
  let containerId := ExecutionEnvironment.id env in
  let failure :=
    lit "Failed to destroy environment " ++ containerId ++ lit ":" in
  exists w',
    destroyEnvironment env w = (Returned tt, w')
    /\ match teardown_of w with
       | Both_served =>
           workerPool w' = delete containerId (workerPool w)
           /\ docker w' = docker w ++ [StopContainer containerId;
                                       RemoveContainer containerId]
           /\ console w' = console w
       | Stop_rejected error =>
           workerPool w' = workerPool w
           /\ docker w' = docker w
           /\ console w' = console w ++ [mkPrinted failure (Some error)]
       | Remove_rejected error =>
           workerPool w' = workerPool w
           /\ docker w' = docker w ++ [StopContainer containerId]
           /\ console w' = console w ++ [mkPrinted failure (Some error)]
       end.
Proof.
  intros containerId failure.
  destruct w as [now uuids replies streams docker pool subs queue console].
  unfold destroyEnvironment, try_catch, docker_request, bind, external, teardown_of; cbn.
  destruct replies as [|[t1 [|e1]] [|[t2 [|e2]] rest]]; cbn;
    (eexists; split; [reflexivity|]); cbn;
    rewrite <- ?app_assoc; auto.
Qed.

End Orchestration.

Section Intake.
Import World.

Lemma blank_code_is_empty (code : jsstring) :
  forallb is_whitespace code = true -> ExecutionController.code_is_empty code = true.
Proof.
  intros H. unfold ExecutionController.code_is_empty.
  destruct code as [|c code]; [reflexivity|].
  apply trim_nil_all in H. now rewrite H.
Qed.

(** C6: a submission whose code is empty or made of whitespace only is
    rejected with the error [Code cannot be empty] before anything else
    happens: [submit] throws and the world is as it was (no row, nothing
    queued, no identifier drawn or returned), and [POST /api/submit] answers
    400 with that error, the world again untouched. *)
Theorem submit_rejects_blank_code (request : SubmissionRequest.t) (w : World.t) :
  forallb is_whitespace (SubmissionRequest.code request) = true ->
  ExecutionController.submit request w
  = (Threw (ErrorObj (lit "Code cannot be empty")), w)
  /\ ApiServer.post_submit request w
     = (Returned (400, ApiServer.ErrorBody (lit "Code cannot be empty")), w).
Proof.
  intros H. apply blank_code_is_empty in H.
  unfold ExecutionController.submit, ApiServer.post_submit, try_catch.
  rewrite H. split; reflexivity.
Qed.

End Intake.

Lemma submit_rejects_blank_code_witness :
  forallb is_whitespace (SubmissionRequest.code blank_request) = true
  /\ ExecutionController.submit blank_request quiet_world
     = (Threw (ErrorObj (lit "Code cannot be empty")), quiet_world).
Proof.
  split; [reflexivity|].
  apply (submit_rejects_blank_code blank_request quiet_world). reflexivity.
Defined.

Section CustomTest.
Import World ContainerOrchestrator.

(** C9 (amended): a custom test leaves the table of submissions and the
    queue as they were; it runs with the limits of regular submissions, in
    the [executeInContainer] that regular submissions are judged with; when
    no environment could be created it throws, and otherwise it returns the
    result of [executeInContainer] in that environment after
    [destroyEnvironment] has run on it. When Docker serves the stop and the
    removal, the container is stopped and removed and the environment is
    dropped from the worker pool, and nothing is logged; when Docker rejects
    the stop, or serves the stop and rejects the removal, the environment
    stays in the worker pool, the container is not removed, and the failure
    is logged with what Docker threw. *)
Theorem runCustomTest_isolated code input language w :
  (let w' := snd (ExecutionController.runCustomTest code input language w) in
   submissions w' = submissions w /\ queue w' = queue w)
  /\ ExecutionController.customTest_limits = ExecutionController.submission_limits
  /\ (forall env s w0,
         ExecutionController.executeFunction env input (s, w0)
         = ExecutionController.world
             (executeInContainer env (Submission.code s) input
                ExecutionController.customTest_limits) (s, w0))
  /\ match createExecutionEnvironment language w with
     | (Threw error, w1) =>
         ExecutionController.runCustomTest code input language w = (Threw error, w1)
     | (Returned env, w1) =>
         exists result w2 w',
           executeInContainer env code input ExecutionController.submission_limits w1
           = (Returned result, w2)
           /\ destroyEnvironment env w2 = (Returned tt, w')
           /\ ExecutionController.runCustomTest code input language w
              = (Returned result, w')
           /\ let containerId := ExecutionEnvironment.id env in
              let failure :=
                lit "Failed to destroy environment " ++ containerId ++ lit ":" in
              match teardown_of w2 with
              | Both_served =>
                  workerPool w' = delete containerId (workerPool w2)
                  /\ docker w' = docker w2 ++ [StopContainer containerId;
                                               RemoveContainer containerId]
                  /\ console w' = console w2
              | Stop_rejected error =>
                  workerPool w' = workerPool w2
                  /\ docker w' = docker w2
                  /\ console w' = console w2 ++ [mkPrinted failure (Some error)]
              | Remove_rejected error =>
                  workerPool w' = workerPool w2
                  /\ docker w' = docker w2 ++ [StopContainer containerId]
                  /\ console w' = console w2 ++ [mkPrinted failure (Some error)]
              end
     end.
Proof.
  split; [|split; [reflexivity|split; [reflexivity|]]].
  - pose proof (runCustomTest_persisted code input language w) as H.
    unfold persisted in H. cbn. now injection H.
  - assert (Hstart : ExecutionController.runCustomTest code input language w
                     = match createExecutionEnvironment language w with
                       | (Returned env, w1) =>
                           try_finally
                             (result <- executeInContainer env code input
                                          ExecutionController.submission_limits ;;
                              ret result)
                             (destroyEnvironment env) w1
                       | (Threw error, w1) => (Threw error, w1)
                       end) by reflexivity.
    rewrite Hstart. clear Hstart.
    destruct (createExecutionEnvironment language w) as [[env|error] w1]; [|reflexivity].
    destruct (executeInContainer_returns env code input
                ExecutionController.submission_limits w1) as (result & w2 & Hrun).
    destruct (destroyEnvironment_outcome env w2) as (w' & Hdestroy & Hcases).
    exists result, w2, w'. split; [exact Hrun|]. split; [exact Hdestroy|]. split.
    + unfold try_finally, bind. rewrite Hrun. cbn. rewrite Hdestroy. reflexivity.
    + exact Hcases.
Qed.

End CustomTest.

(** C9, as stated, fails on the code: when Docker rejects the request to
    stop the container, [destroyEnvironment] logs the failure, and the call
    completes, with a successful result, while the environment of the run is
    still in the worker pool and its container neither stopped nor
    removed. *)
Lemma runCustomTest_environment_survives :
  let '(r, w') :=
    ExecutionController.runCustomTest (lit "print(42)") [] python stop_rejected_world in
  (exists result, r = Returned result /\ ExecutionResult.success result = true)
  /\ is_Some (World.workerPool w' !! lit "env-1")
  /\ ~ In (World.StopContainer (lit "env-1")) (World.docker w')
  /\ ~ In (World.RemoveContainer (lit "env-1")) (World.docker w').
Proof.
  vm_compute. split; [eauto|]. split; [eauto|].
  split; intros H; repeat (destruct H as [H|H]; [discriminate|]); exact H.
Qed.

Section TimeLimit.
Import World ContainerOrchestrator.

(** The over-limit check of the judge gives [Time Limit Exceeded], whatever
    the output, for a result that the executor reports as a success. *)
Lemma judge_over_time_limit testCase n result :
  ExecutionResult.success result = true ->
  JudgeEngine.over_time_limit result testCase = true ->
  TestCaseResult.verdict (JudgeEngine.judge testCase n result) = TimeLimitExceeded
  /\ TestCaseResult.passed (JudgeEngine.judge testCase n result) = false.
Proof.
  intros Hs Ho. unfold JudgeEngine.judge. rewrite Hs, Ho. split; reflexivity.
Qed.

(** For a result that the executor reports as a failure, the judge never
    reaches its over-limit check: the verdict is the executor's. *)
Lemma judge_failed_result testCase n result :
  ExecutionResult.success result = false ->
  TestCaseResult.verdict (JudgeEngine.judge testCase n result)
  = match ExecutionResult.verdict result with
    | Some v => v
    | None => RuntimeError
    end.
Proof. intros Hs. unfold JudgeEngine.judge. now rewrite Hs. Qed.

(** C1 fails on the code. A program that is still running when the time
    limit of its run (5000 ms) has passed: [collectOutput] rejects with the
    message [Time Limit Exceeded], but [executeInContainer] answers that with
    the verdict [Runtime Error] and sends no request to stop the container;
    the judge takes that verdict over, and the submission is completed with
    the verdict [Runtime Error] after 5000 ms against a test case whose own
    limit is 1000 ms. *)
Theorem timeout_is_reported_as_runtime_error :
  (let '(r, w') :=
     executeInContainer some_environment (lit "while True: pass") (lit "5")
       ExecutionController.submission_limits hanging_world in
   r = Returned
         {| ExecutionResult.success := false;
            ExecutionResult.output := None;
            ExecutionResult.error := Some (lit "Time Limit Exceeded");
            ExecutionResult.verdict := Some RuntimeError;
            ExecutionResult.executionTime := Some 5000%float;
            ExecutionResult.memoryUsed := None;
            ExecutionResult.exitCode := None |}
   /\ ~ In (StopContainer (lit "env-1")) (docker w'))
  /\ (let '(r, (s, w')) :=
        ExecutionController.processSubmission (looping_submission, hanging_world) in
      r = Returned tt
      /\ Submission.status s = Completed
      /\ (Verdict.status <$> Submission.verdict s) = Some RuntimeError
      /\ (Verdict.maxTime <$> Submission.verdict s) = Some 5000%float
      /\ (Verdict.status <$> Submission.verdict s) <> Some TimeLimitExceeded).
Proof.
  split.
  - vm_compute. split; [reflexivity|].
    intros H; repeat (destruct H as [H|H]; [discriminate|]); exact H.
  - vm_compute. repeat split. discriminate.
Qed.

End TimeLimit.

Section Processing.
Import World ContainerOrchestrator ExecutionController.

Lemma world_kept {A} (m : M World.t A) :
  unchanged persisted m -> unchanged kept (world m).
Proof.
  intros H [s w]. rewrite world_run. unfold kept. cbn. now rewrite H.
Qed.

Lemma evaluate_unchanged {W X} (proj : W -> X) (exec : jsstring -> M W ExecutionResult.t)
    code testCases :
  (forall input, unchanged proj (exec input)) ->
  unchanged proj (JudgeEngine.evaluate exec code testCases).
Proof.
  intros Hexec. unfold JudgeEngine.evaluate. frame.
  generalize 0 at 1. generalize (@nil TestCaseResult.t).
  induction testCases as [|testCase rest IH]; intros acc i; cbn [JudgeEngine.evaluate_loop].
  - frame.
  - unfold JudgeEngine.runTestCase. frame.
Qed.

Lemma executeFunction_kept env input : unchanged kept (executeFunction env input).
Proof.
  unfold executeFunction, submission. frame.
  apply world_kept, executeInContainer_persisted.
Qed.






Lemma processSubmission_catch_run error s w :
  processSubmission_catch error (s, w)
  = (match fst (SubmissionRepository.update (failed (now w) s) w) with
     | Returned _ => Threw error
     | Threw error' => Threw error'
     end,
     (failed (now w) s, snd (SubmissionRepository.update (failed (now w) s) w))).
Proof.
  unfold processSubmission_catch.
  unfold bind, assign, modify, submission, gets, Date_now, world, within, throw. cbn.
  destruct (SubmissionRepository.update _ w) as [[[]|e] w']; reflexivity.
Qed.






End Processing.

Section Lifecycle.
Import World ContainerOrchestrator ExecutionController.










End Lifecycle.

Section Routing.
Import StrategyRouter.
Local Set Warnings "-inexact-float".

Lemma hundred_MiB : (100 * 1024 * 1024)%float = 104857600%float.
Proof. reflexivity. Qed.

Lemma reasons_not_empty analysis systemLoad :
  ExecutionStrategy.reason (selectStrategy analysis systemLoad) <> [].
Proof.
  unfold selectStrategy.
  repeat match goal with |- context [if ?b then _ else _] => destruct b end;
    discriminate.
Qed.

(** C5: [selectStrategy] returns the strategy of the first rule of the
    priority list that matches: (1) runnable in the browser, no unsafe
    operation, low complexity and less than 100 MiB of estimated memory give
    [client]; (2) else runnable in the browser, no unsafe operation and a
    server load above 0.8 give [client]; (3) else an unsafe operation or high
    complexity gives [server]; (4) else medium complexity gives [hybrid];
    (5) else [server]. The rationale of the returned strategy is never
    empty. *)
Theorem selectStrategy_priority analysis systemLoad :
  let chosen := ExecutionStrategy.type (selectStrategy analysis systemLoad) in
  let rule1 := Spec.rule1 analysis systemLoad in
  let rule2 := Spec.rule2 analysis systemLoad in
  let rule3 := Spec.rule3 analysis systemLoad in
  let rule4 := Spec.rule4 analysis systemLoad in
  (rule1 -> chosen = client)
  /\ (~ rule1 -> rule2 -> chosen = client)
  /\ (~ rule1 -> ~ rule2 -> rule3 -> chosen = server)
  /\ (~ rule1 -> ~ rule2 -> ~ rule3 -> rule4 -> chosen = hybrid)
  /\ (~ rule1 -> ~ rule2 -> ~ rule3 -> ~ rule4 -> chosen = server)
  /\ ExecutionStrategy.reason (selectStrategy analysis systemLoad) <> [].
Proof.
  cbv zeta. split; [|split; [|split; [|split; [|split]]]];
    try apply reasons_not_empty;
    unfold Spec.rule1, Spec.rule2, Spec.rule3, Spec.rule4, selectStrategy;
    rewrite hundred_MiB;
    destruct analysis as [complexity unsafe memory cpu compiled browser];
    destruct systemLoad as [load depth workers response];
    cbn [CodeAnalysis.canRunInBrowser CodeAnalysis.hasUnsafeOperations
         CodeAnalysis.complexity CodeAnalysis.estimatedMemory
         SystemMetrics.serverLoad];
    destruct browser, unsafe, complexity,
      (PrimFloat.ltb memory 104857600), (PrimFloat.ltb 0.8 load);
    cbn; intuition congruence.
Qed.

End Routing.

Section Invariant.
Import World ContainerOrchestrator ExecutionController.




(** The failure path, on a concrete run: the program prints the expected
    output, the judge accepts it, and the final update of the repository is
    rejected. The [catch] block marks the submission [Failed]; the verdict
    that the [try] block had attached stays on it. *)
Example processSubmission_failure_path :
  let '(r, (s, w')) :=
    processSubmission (looping_submission, update_rejected_world) in
  r = Threw (ErrorObj (lit "connection terminated"))
  /\ Submission.status s = Failed
  /\ (Verdict.status <$> Submission.verdict s) = Some Accepted.
Proof. vm_compute. repeat split. Qed.

End Invariant.

(** ** The patterns of the router *)

Section RegexFacts.
Import Regex RegexSpec.

Lemma last_or_nil prev : last_or prev [] = prev.
Proof. reflexivity. Qed.

Lemma last_or_cons prev c mid : last_or prev (c :: mid) = last_or (Some c) mid.
Proof.
  unfold last_or. destruct mid as [|d mid]; [reflexivity|].
  rewrite last_cons. destruct (last (d :: mid)) eqn:E; [reflexivity|].
  apply last_None in E. discriminate.
Qed.

Lemma last_or_app prev m1 m2 : last_or prev (m1 ++ m2) = last_or (last_or prev m1) m2.
Proof.
  revert prev. induction m1 as [|c m1 IH]; intros prev; [reflexivity|].
  cbn [app]. now rewrite !last_or_cons, IH.
Qed.

Lemma or_else_is_Some a b : is_Some (or_else a b) <-> is_Some a \/ is_Some b.
Proof.
  destruct a as [x|]; cbn.
  - split; [intros _; left; eauto|intros _; eauto].
  - split; [auto|]. intros [[x H]|H]; [discriminate|exact H].
Qed.

Lemma star_is_Some p k s : forall prev,
  is_Some (star p k prev s)
  <-> exists mid rest,
      s = mid ++ rest /\ forallb p mid = true /\ is_Some (k (last_or prev mid) rest).
Proof.
  induction s as [|c s IH]; intros prev; cbn [star].
  - split.
    + intros H. exists [], []. auto.
    + intros (mid & rest & Hs & _ & Hk).
      symmetry in Hs. apply app_eq_nil in Hs as [-> ->]. exact Hk.
  - destruct (p c) eqn:Hc.
    + rewrite or_else_is_Some, IH. split.
      * intros [(mid & rest & -> & Hp & Hk)|Hk].
        -- exists (c :: mid), rest. rewrite last_or_cons. cbn. rewrite Hc. auto.
        -- exists [], (c :: s). auto.
      * intros (mid & rest & Hs & Hp & Hk). destruct mid as [|d mid].
        -- cbn in Hs. subst rest. right. exact Hk.
        -- cbn in Hs. injection Hs as <- ->. cbn in Hp.
           apply andb_true_iff in Hp as [_ Hp]. rewrite last_or_cons in Hk.
           left. eauto.
    + split.
      * intros Hk. exists [], (c :: s). auto.
      * intros (mid & rest & Hs & Hp & Hk). destruct mid as [|d mid].
        -- cbn in Hs. subst rest. exact Hk.
        -- cbn in Hs. injection Hs as <- ->. cbn in Hp. rewrite Hc in Hp.
           discriminate.
Qed.

(** The backtracking matcher finds a match exactly when the pattern denotes
    a prefix of the input after which the continuation succeeds. *)
Lemma run_is_Some i r : forall prev s k,
  is_Some (run i r prev s k)
  <-> exists mid rest,
      s = mid ++ rest /\ denotes i r prev mid rest
      /\ is_Some (k (last_or prev mid) rest).
Proof.
  induction r as [|a|a|a| |r1 IH1 r2 IH2|r1 IH1 r2 IH2]; intros prev s k;
    cbn [run denotes].
  - split.
    + intros H. exists [], s. auto.
    + intros (mid & rest & -> & -> & H). exact H.
  - destruct s as [|c s].
    + split; [intros [x H]; discriminate|].
      intros (mid & rest & Hs & (c & -> & _) & _). discriminate.
    + destruct (accepts i a c) eqn:Hc.
      * split.
        -- intros H. exists [c], s. eauto.
        -- intros (mid & rest & Hs & (d & -> & _) & H).
           injection Hs as -> ->. exact H.
      * split; [intros [x H]; discriminate|].
        intros (mid & rest & Hs & (d & -> & Hd) & _).
        injection Hs as -> ->. congruence.
  - apply star_is_Some.
  - destruct s as [|c s].
    + split; [intros [x H]; discriminate|].
      intros (mid & rest & Hs & (Hne & _) & _).
      symmetry in Hs. apply app_eq_nil in Hs as [-> _]. congruence.
    + destruct (accepts i a c) eqn:Hc.
      * rewrite star_is_Some. split.
        -- intros (mid & rest & -> & Hp & Hk). exists (c :: mid), rest.
           rewrite last_or_cons. cbn. rewrite Hc. repeat split; auto; discriminate.
        -- intros (mid & rest & Hs & (Hne & Hp) & Hk).
           destruct mid as [|d mid]; [congruence|].
           cbn in Hs. injection Hs as <- ->. cbn in Hp.
           apply andb_true_iff in Hp as [_ Hp]. rewrite last_or_cons in Hk. eauto.
      * split; [intros [x H]; discriminate|].
        intros (mid & rest & Hs & (Hne & Hp) & _).
        destruct mid as [|d mid]; [congruence|].
        cbn in Hs. injection Hs as <- ->. cbn in Hp. rewrite Hc in Hp. discriminate.
  - destruct (xorb (word_before prev) (word_after s)) eqn:Hb.
    + split.
      * intros H. exists [], s. auto.
      * intros (mid & rest & -> & (-> & _) & H). exact H.
    + split; [intros [x H]; discriminate|].
      intros (mid & rest & -> & (-> & H) & _). cbn in *. congruence.
  - rewrite IH1. split.
    + intros (m1 & rest1 & -> & H1 & H2). apply IH2 in H2 as (m2 & rest & -> & H2 & Hk).
      exists (m1 ++ m2), rest. rewrite <- app_assoc, last_or_app. eauto 10.
    + intros (mid & rest & -> & (m1 & m2 & -> & H1 & H2) & Hk).
      exists m1, (m2 ++ rest). rewrite <- app_assoc. split; [reflexivity|].
      split; [exact H1|]. apply IH2. exists m2, rest. rewrite <- last_or_app. auto.
  - rewrite or_else_is_Some, IH1, IH2. split.
    + intros [(mid & rest & ? & ? & ?)|(mid & rest & ? & ? & ?)]; eauto 10.
    + intros (mid & rest & ? & [?|?] & ?); [left|right]; eauto 10.
Qed.

Lemma match_here_is_Some i r prev s :
  is_Some (match_here i r prev s)
  <-> exists mid rest, s = mid ++ rest /\ denotes i r prev mid rest.
Proof.
  unfold match_here. rewrite run_is_Some. split.
  - intros (mid & rest & ? & ? & _). eauto.
  - intros (mid & rest & ? & ?). eauto 10.
Qed.

(** [test] answers whether the pattern denotes some part of the text. *)
Lemma test_from_true i r s : forall prev,
  test_from i r prev s = true
  <-> exists pre mid post,
      s = pre ++ mid ++ post /\ denotes i r (last_or prev pre) mid post.
Proof.
  induction s as [|c s IH]; intros prev; cbn [test_from].
  - destruct (match_here i r prev []) eqn:E.
    + assert (H : is_Some (match_here i r prev [])) by eauto.
      apply match_here_is_Some in H as (mid & rest & Hs & Hd).
      split; [|reflexivity]. intros _. exists [], mid, rest. auto.
    + split; [discriminate|]. intros (pre & mid & post & Hs & Hd).
      symmetry in Hs. apply app_eq_nil in Hs as [-> Hs].
      assert (H : is_Some (match_here i r prev [])).
      { apply match_here_is_Some. exists mid, post. auto. }
      rewrite E in H. destruct H. discriminate.
  - destruct (match_here i r prev (c :: s)) eqn:E.
    + assert (H : is_Some (match_here i r prev (c :: s))) by eauto.
      apply match_here_is_Some in H as (mid & rest & Hs & Hd).
      split; [|reflexivity]. intros _. exists [], mid, rest. auto.
    + rewrite IH. split.
      * intros (pre & mid & post & -> & Hd). exists (c :: pre), mid, post.
        rewrite last_or_cons. auto.
      * intros (pre & mid & post & Hs & Hd). destruct pre as [|d pre].
        -- exfalso. assert (H : is_Some (match_here i r prev (c :: s))).
           { apply match_here_is_Some. exists mid, post. auto. }
           rewrite E in H. destruct H. discriminate.
        -- cbn in Hs. injection Hs as <- ->. rewrite last_or_cons in Hd. eauto.
Qed.

Lemma denotes_chars l : forall prev mid next,
  denotes true (chars l) prev mid next <-> same_ignoring_case l mid.
Proof.
  unfold same_ignoring_case.
  induction l as [|c l IH]; intros prev mid next.
  - cbn. split; [intros ->; reflexivity|]. destruct mid; [reflexivity|discriminate].
  - assert (Hatom : forall x, accepts true (Chr c) x = true
                              <-> canonicalize c = canonicalize x).
    { intros x. cbn. apply N.eqb_eq. }
    destruct l as [|d l].
    + cbn [chars denotes]. split.
      * intros (x & -> & Hx). apply Hatom in Hx. cbn. congruence.
      * destruct mid as [|x [|y mid]]; try discriminate.
        cbn. intros [= H]. exists x. split; [reflexivity|]. now apply N.eqb_eq.
    + change (chars (c :: d :: l)) with (Seq (Atom (Chr c)) (chars (d :: l))).
      cbn [denotes]. split.
      * intros (m1 & m2 & -> & (x & -> & Hx) & H2). apply IH in H2.
        apply Hatom in Hx. cbn [app map]. rewrite Hx. f_equal. exact H2.
      * destruct mid as [|x mid]; [discriminate|]. cbn [map]. intros [= Hx Hrest].
        exists [x], mid. split; [reflexivity|]. split.
        -- exists x. split; [reflexivity|]. now apply Hatom.
        -- apply IH. exact Hrest.
Qed.

Lemma denotes_alts i rs : forall prev mid next,
  rs <> [] ->
  denotes i (alts rs) prev mid next <-> exists r, In r rs /\ denotes i r prev mid next.
Proof.
  induction rs as [|r rs IH]; intros prev mid next Hne; [congruence|].
  destruct rs as [|r' rs].
  - cbn. split; [eauto|]. intros (r0 & [<-|[]] & H). exact H.
  - change (alts (r :: r' :: rs)) with (Alt r (alts (r' :: rs))).
    cbn [denotes]. rewrite IH by discriminate. split.
    + intros [H|(r0 & Hin & H)]; [exists r; split; [now left|exact H]|].
      exists r0. split; [now right|exact H].
    + intros (r0 & [<-|Hin] & H); [now left|]. right. eauto.
Qed.

(** A pattern that is an alternation of literals, under the [i] flag, tests
    whether one of the literals occurs in the text in some letter case. *)
Lemma test_markers markers code :
  markers <> [] ->
  test true (alts (map str markers)) code = true
  <-> exists marker, In marker markers /\ mentions marker code.
Proof.
  intros Hne. unfold test. rewrite test_from_true. unfold mentions, occurs. split.
  - intros (pre & mid & post & -> & H).
    apply denotes_alts in H as (r & Hin & H); [|destruct markers; [congruence|discriminate]].
    apply in_map_iff in Hin as (marker & <- & Hin). apply denotes_chars in H.
    exists marker. split; [exact Hin|]. exists pre, mid, post. auto.
  - intros (marker & Hin & pre & mid & post & -> & H).
    exists pre, mid, post. split; [reflexivity|].
    apply denotes_alts; [destruct markers; [congruence|discriminate]|].
    exists (str marker). split; [apply in_map, Hin|]. now apply denotes_chars.
Qed.

Lemma hasFileIO_mentions code :
  StrategyRouter.hasFileIO code = true
  <-> exists marker, In marker fileIO_markers /\ mentions marker code.
Proof. apply (test_markers fileIO_markers). discriminate. Qed.

Lemma hasNetwork_mentions code :
  StrategyRouter.hasNetwork code = true
  <-> exists marker, In marker network_markers /\ mentions marker code.
Proof. apply (test_markers network_markers). discriminate. Qed.

Lemma hasProcessSpawn_mentions code :
  StrategyRouter.hasProcessSpawn code = true
  <-> exists marker, In marker processSpawn_markers /\ mentions marker code.
Proof. apply (test_markers processSpawn_markers). discriminate. Qed.

Lemma canonicalize_not_letter c q :
  N.ltb q 65 = true -> canonicalize c = q <-> c = q.
Proof.
  unfold canonicalize. intros Hq. apply N.ltb_lt in Hq.
  destruct (N.leb 97 c && N.leb c 122) eqn:E; [|tauto].
  apply andb_true_iff in E as [H1 H2]. apply N.leb_le in H1, H2. lia.
Qed.

Lemma quote_accepted q :
  accepts true (OneOf [39; 34]%N) q = true <-> q = 39%N \/ q = 34%N.
Proof.
  cbn [accepts map mem]. change (canonicalize 39) with 39%N.
  change (canonicalize 34) with 34%N.
  rewrite !orb_true_iff, !N.eqb_eq. split.
  - intros [H|[H|H]]; [left|right|discriminate]; symmetry in H.
    + exact (proj1 (canonicalize_not_letter q 39 eq_refl) H).
    + exact (proj1 (canonicalize_not_letter q 34 eq_refl) H).
  - intros [-> | ->]; auto.
Qed.

Lemma denotes_require prev mid next :
  denotes true
    (seqs [str "require("; Atom (OneOf [39; 34]%N); str "child_process"])
    prev mid next
  <-> requires_child_process mid.
Proof.
  unfold requires_child_process. cbn [seqs denotes]. split.
  - intros (r & m2 & -> & Hr & q' & c & -> & (q & -> & Hq) & Hc).
    apply denotes_chars in Hr, Hc. exists r, q, c. split; [reflexivity|].
    split; [exact Hr|]. split; [|exact Hc].
    apply quote_accepted in Hq. exact Hq.
  - intros (r & q & c & -> & Hr & Hq & Hc).
    exists r, ([q] ++ c). split; [reflexivity|]. split; [now apply denotes_chars|].
    exists [q], c. split; [reflexivity|]. split; [|now apply denotes_chars].
    exists q. split; [reflexivity|]. now apply quote_accepted.
Qed.

Lemma denotes_import prev mid next :
  denotes true (seqs [str "import"; Star Dot; str "child_process"]) prev mid next
  <-> imports_child_process mid.
Proof.
  unfold imports_child_process. cbn [seqs denotes]. split.
  - intros (i & m2 & -> & Hi & between & c & -> & Hb & Hc).
    apply denotes_chars in Hi, Hc. exists i, between, c. auto.
  - intros (i & between & c & -> & Hi & Hb & Hc).
    exists i, (between ++ c). split; [reflexivity|]. split; [now apply denotes_chars|].
    exists between, c. split; [reflexivity|]. split; [exact Hb|now apply denotes_chars].
Qed.

Lemma hasNativeImports_occurs code :
  StrategyRouter.hasNativeImports code = true
  <-> occurs requires_child_process code \/ occurs imports_child_process code.
Proof.
  unfold StrategyRouter.hasNativeImports, StrategyRouter.nativeImports_pattern, test.
  rewrite test_from_true. unfold occurs. cbn [alts]. split.
  - intros (pre & mid & post & -> & [H|H]).
    + left. apply denotes_require in H. eauto 10.
    + right. apply denotes_import in H. eauto 10.
  - intros [(pre & mid & post & -> & H)|(pre & mid & post & -> & H)];
      exists pre, mid, post; (split; [reflexivity|]).
    + left. now apply denotes_require.
    + right. now apply denotes_import.
Qed.

(** [hasUnsafeOperations] is decided by the markers alone. *)
Lemma hasUnsafeOperations_iff code language :
  CodeAnalysis.hasUnsafeOperations (StrategyRouter.analyzeCode code language) = true
  <-> unsafe_marker code.
Proof.
  unfold StrategyRouter.analyzeCode, unsafe_marker. cbn [CodeAnalysis.hasUnsafeOperations].
  rewrite !orb_true_iff, hasFileIO_mentions, hasNetwork_mentions,
    hasProcessSpawn_mentions, hasNativeImports_occurs.
  split.
  - intros [[[(m & Hin & H)|(m & Hin & H)]|(m & Hin & H)]|[H|H]]; auto;
      left; exists m; (split; [|exact H]); rewrite !in_app_iff; auto.
  - intros [(m & Hin & H)|[H|H]]; auto.
    rewrite !in_app_iff in Hin. destruct Hin as [Hin|[Hin|Hin]]; eauto 10.
Qed.

End RegexFacts.

(** ** Time limits *)

Section Timeout.
Import World ContainerOrchestrator.

Lemma docker_request_served c n w :
  serves (S n) (replies w) = true ->
  exists w',
    docker_request c w = (Returned tt, w')
    /\ serves n (replies w') = true
    /\ upcoming_stream w' = upcoming_stream w
    /\ docker w' = docker w ++ [c].
Proof.
  destruct w as [now uuids replies streams docker pool subs queue console].
  unfold docker_request, bind, external, modify. cbn.
  destruct replies as [|[t [|e]] rest]; cbn; intros H; try discriminate.
  - eexists. split; [reflexivity|]. cbn. destruct n; auto.
  - eexists. split; [reflexivity|]. cbn. auto.
Qed.

(** Whenever Docker serves the six requests of a run and the program is
    still running when the time limit has passed, [executeInContainer]
    reports a failure with the message [Time Limit Exceeded] and the verdict
    [Runtime Error], and the only requests that it has sent to Docker are the
    six of the run: none to stop the container. *)
Lemma executeInContainer_timeout env code input limits w :
  serves 6 (replies w) = true ->
  finishes_before (upcoming_stream w) (ResourceLimits.timeLimit limits) = false ->
  exists result w' written,
    executeInContainer env code input limits w = (Returned result, w')
    /\ ExecutionResult.success result = false
    /\ ExecutionResult.error result = Some (lit "Time Limit Exceeded")
    /\ ExecutionResult.verdict result = Some RuntimeError
    /\ docker w' = docker w ++ written
    /\ Forall (fun c => forall id, c <> StopContainer id) written.
Proof.
  intros Hserved Hlate.
  unfold executeInContainer, writeToContainer, try_catch, bind, Date_now, gets, ret.
  cbn beta iota.
  repeat match goal with
  | H : serves (S _) (replies ?w0) = true |- context [docker_request ?c ?w0] =>
      let w1 := fresh "w" in
      let Hs := fresh "Hstream" in
      let Hd := fresh "Hdocker" in
      destruct (docker_request_served c _ w0 H) as (w1 & -> & ? & Hs & Hd);
      clear H; rewrite <- Hs in Hlate; clear Hs
  end.
  assert (Hnext : exists w7, next_stream w5 = (Returned (upcoming_stream w5), w7)
                             /\ docker w7 = docker w5).
  { unfold next_stream, upcoming_stream.
    destruct w5 as [now uuids replies streams docker pool subs queue console]. cbn.
    destruct streams; eauto. }
  destruct Hnext as (w7 & -> & Hdocker5).
  rewrite (collectOutput_timeout _ _ _ Hlate).
  do 3 eexists. split; [reflexivity|]. cbn.
  do 3 (split; [reflexivity|]).
  split.
  - rewrite Hdocker5, Hdocker4, Hdocker3, Hdocker2, Hdocker1, Hdocker0, Hdocker.
    rewrite <- !app_assoc. reflexivity.
  - repeat constructor; discriminate.
Qed.
End Timeout.

(** ** Instances *)

Lemma evaluate_stops_at_first_failure_witness :
  let all := fst (every_case echo three_cases 0 tt) in
  (exists f, all !! 1 = Some f /\ TestCaseResult.passed f = false)
  /\ exists results verdict,
      JudgeEngine.evaluate_loop echo three_cases 0 [] tt = (Returned results, tt)
      /\ length results = 2
      /\ JudgeEngine.evaluate echo [] three_cases tt = (Returned verdict, tt)
      /\ Verdict.failedTestCase verdict = Some 2
      /\ Verdict.status verdict = WrongAnswer
      /\ Verdict.passedTests verdict = 1
      /\ Verdict.maxTime verdict = 7%float.
Proof.
  cbv zeta. split; [eexists; split; reflexivity|].
  destruct (proj1 (evaluate_stops_at_first_failure echo) [] three_cases tt 2
              (JudgeEngine.judge (expecting "2" "4") 2
                 (ExecutionResult.mk true (Some (lit "2")) None None (Some 7%float)
                    (Some 0%float) (Some 0%float))))
    as (Hloop & Hlen & verdict & Hev & Hfailed & Hstatus & Hpassed & _ & Htime & _).
  - lia.
  - intros j r Hj. assert (j = 0) as -> by lia. intros [= <-]. reflexivity.
  - reflexivity.
  - reflexivity.
  - eexists _, verdict. split; [exact Hloop|]. split; [exact Hlen|].
    split; [exact Hev|]. split; [exact Hfailed|]. split; [exact Hstatus|].
    split; [exact Hpassed|exact Htime].
Defined.

(** ** The router reads no state *)

Section PatternObjects.
Import Regex RegExp.

Lemma search_test i r s : forall prev index,
  match search i r prev s index with
  | Some _ => true
  | None => false
  end = test_from i r prev s.
Proof.
  induction s as [|c s IH]; intros prev index; cbn [search test_from];
    destruct (match_here i r prev _); auto.
Qed.

(** A pattern without the [g] flag: [test] does not look at [lastIndex],
    and leaves the object as it is. *)
Lemma test_object_not_global r i index subject :
  test_object (mk r i false index) subject
  = (Regex.test i r subject, mk r i false index).
Proof.
  unfold test_object, RegExpBuiltinExec, Regex.test. cbn.
  rewrite <- (search_test i r subject None 0).
  rewrite take_0, drop_0. cbn [last].
  destruct (search i r None subject 0) as [[start e]|]; reflexivity.
Qed.

Lemma last_snoc_cons (pre : jsstring) c l :
  last (pre ++ c :: l) = last_or (Some c) l.
Proof.
  unfold last_or. rewrite last_app. cbn [last].
  destruct l as [|x l]; [reflexivity|].
  change (last (c :: x :: l)) with (last (x :: l)).
  destruct (last (x :: l)) eqn:E; [reflexivity|].
  apply last_None in E. discriminate.
Qed.

Lemma count_from_skip i r : forall n prev s,
  n <= length s ->
  count_from i r n prev s = count_from i r 0 (last_or prev (take n s)) (drop n s).
Proof.
  induction n as [|n IH]; intros prev s Hn.
  - rewrite take_0, drop_0. reflexivity.
  - destruct s as [|c s]; [cbn in Hn; lia|].
    cbn [count_from take drop]. rewrite IH by (cbn in Hn; lia).
    f_equal. unfold last_or. cbn [last].
    destruct (take n s) as [|x l] eqn:E; [reflexivity|].
    change (last (c :: x :: l)) with (last (x :: l)).
    destruct (last (x :: l)) eqn:E'; [reflexivity|].
    apply last_None in E'. discriminate.
Qed.

(** From a position of the subject, the search either finds no match, and
    then there is none to count, or it finds the first of the matches that
    are counted from there. *)
Lemma search_count i r : forall s pre,
  match search i r (last pre) s (length pre) with
  | None => count_from i r 0 (last pre) s = 0
  | Some (start, e) =>
      length pre <= start /\ start <= e /\ e <= length (pre ++ s)
      /\ count_from i r 0 (last pre) s
         = S (matches_from i r (pre ++ s) (if Nat.eqb start e then e + 1 else e))
  end.
Proof.
  induction s as [|c s IH]; intros pre; cbn [search count_from].
  - destruct (match_here i r (last pre) []) as [rest|]; [|reflexivity].
    cbn [length]. rewrite Nat.sub_0_l, Nat.add_0_r, Nat.eqb_refl, app_nil_r.
    repeat split; try lia. unfold matches_from.
    destruct (Nat.leb_spec (length pre + 1) (length pre)); [lia|reflexivity].
  - destruct (match_here i r (last pre) (c :: s)) as [rest|].
    + set (m := length (c :: s) - length rest).
      assert (Hm : m <= S (length s)) by (subst m; cbn [length]; lia).
      rewrite length_app. cbn [length].
      split; [lia|]. split; [lia|]. split; [lia|].
      f_equal. unfold matches_from. rewrite length_app. cbn [length].
      destruct (Nat.eqb_spec (length pre) (length pre + m)) as [Hz|Hnz].
      * assert (m = 0) as -> by lia. cbn [Nat.pred].
        destruct (Nat.leb_spec (length pre + 0 + 1) (length pre + S (length s))); [|lia].
        replace (length pre + 0 + 1) with (length (pre ++ [c]))
          by (rewrite length_app; cbn; lia).
        rewrite (app_assoc pre [c] s : pre ++ c :: s = (pre ++ [c]) ++ s).
        rewrite take_app_length, drop_app_length, last_snoc; reflexivity.
      * destruct (Nat.leb_spec (length pre + m) (length pre + S (length s))); [|lia].
        destruct m as [|m]; [lia|]. cbn [Nat.pred].
        rewrite count_from_skip by lia.
        rewrite take_app_add', drop_app_add' by reflexivity.
        cbn [take drop]. rewrite last_snoc_cons. reflexivity.
    + specialize (IH (pre ++ [c])). rewrite last_snoc in IH.
      rewrite length_app in IH. cbn [length] in IH.
      replace (length pre + 1) with (S (length pre)) in IH by lia.
      rewrite <- app_assoc in IH. cbn [app] in IH.
      destruct (search i r (Some c) s (S (length pre))) as [[start e]|]; [|exact IH].
      destruct IH as (H1 & H2 & H3 & H4).
      split; [lia|]. split; [lia|]. split; [lia|]. exact H4.
Qed.

(** The loop of [match] counts the matches from [lastIndex] on, and leaves
    [lastIndex] at 0. *)
Lemma match_loop_counts i r subject : forall rounds k n,
  k <= length subject + 1 ->
  length subject + 2 <= rounds + k ->
  match_loop rounds (mk r i true k) subject n
  = (n + matches_from i r subject k, mk r i true 0).
Proof.
  induction rounds as [|rounds IH]; intros k n Hk Hrounds; [lia|].
  cbn [match_loop]. unfold RegExpBuiltinExec. cbn [global lastIndex source ignoreCase].
  unfold matches_from.
  destruct (Nat.ltb_spec (length subject) k) as [Hout|Hin].
  { destruct (Nat.leb_spec k (length subject)); [lia|].
    rewrite Nat.add_0_r. reflexivity. }
  destruct (Nat.leb_spec k (length subject)); [|lia].
  pose proof (search_count i r (drop k subject) (take k subject)) as Hsearch.
  rewrite length_take_le, take_drop in Hsearch by lia.
  destruct (search i r (last (take k subject)) (drop k subject) k) as [[start e]|].
  - destruct Hsearch as (H1 & H2 & H3 & ->).
    match goal with |- match_loop rounds ?R' subject _ = _ =>
      replace R' with (mk r i true (if Nat.eqb start e then e + 1 else e))
        by (destruct (Nat.eqb start e); reflexivity)
    end.
    rewrite IH.
    + f_equal. lia.
    + destruct (Nat.eqb start e); lia.
    + destruct (Nat.eqb_spec start e); lia.
  - rewrite Hsearch, Nat.add_0_r. reflexivity.
Qed.

(** A pattern with the [g] flag: [match] starts from [lastIndex] 0, whatever
    [lastIndex] was, and leaves it at 0. *)
Lemma match_length_object_global r i index subject :
  match_length_object (mk r i true index) subject
  = (match_count i r subject, mk r i true 0).
Proof.
  unfold match_length_object, set_lastIndex. cbn [source ignoreCase global].
  rewrite match_loop_counts by lia.
  unfold matches_from, match_count. cbn [Nat.leb].
  now rewrite take_0, drop_0.
Qed.

(** A method call on the object that a literal has just made. *)
Lemma call_on_literal {A B} (method : RegExp.t -> A * RegExp.t) source i g
    (k : A -> M heap B) h :
  (r <- literal source i g ;; a <- call r method ;; k a) h
  = k (fst (method (mk source i g 0))) (h ++ [snd (method (mk source i g 0))]).
Proof.
  unfold bind, literal, call, heap in *. cbv beta iota.
  rewrite list_lookup_middle by reflexivity.
  destruct (method (mk source i g 0)) as [a R']. cbn [fst snd].
  rewrite insert_app_r_alt by lia. rewrite Nat.sub_diag. reflexivity.
Qed.

(** [analyzeCode], run in any heap, returns what the function
    [StrategyRouter.analyzeCode] computes from the code and the language, and
    adds to the heap the six pattern objects of its literals. *)
Lemma analyzeCode_run code language h :
  StrategyRouterObject.analyzeCode code language h
  = (Returned (StrategyRouter.analyzeCode code language),
     h ++ [mk StrategyRouter.fileIO_pattern true false 0;
           mk StrategyRouter.network_pattern true false 0;
           mk StrategyRouter.processSpawn_pattern true false 0;
           mk StrategyRouter.nativeImports_pattern true false 0;
           mk StrategyRouter.loop_pattern false true 0;
           mk StrategyRouter.recursion_pattern false true 0]).
Proof.
  unfold StrategyRouterObject.analyzeCode, RegExp.test, RegExp.match_length.
  rewrite !call_on_literal.
  rewrite !test_object_not_global, !match_length_object_global.
  cbn [fst snd]. unfold ret. rewrite <- !app_assoc. reflexivity.
Qed.

End PatternObjects.

Section Determinism.
Import StrategyRouter.
Local Set Warnings "-inexact-float".

Lemma selectStrategy_priority_witness :
  let analysis := analyzeCode (lit "print(int(input())*2)") python in
  let systemLoad := SystemMetrics.mk 0.5 0 10 1000 in
  Spec.rule1 analysis systemLoad
  /\ ExecutionStrategy.type (selectStrategy analysis systemLoad) = client.
Proof.
  cbv zeta.
  assert (H : Spec.rule1 (analyzeCode (lit "print(int(input())*2)") python)
                (SystemMetrics.mk 0.5 0 10 1000)).
  { unfold Spec.rule1. repeat split; vm_compute; reflexivity. }
  split; [exact H|].
  exact (proj1 (selectStrategy_priority
                  (analyzeCode (lit "print(int(input())*2)") python)
                  (SystemMetrics.mk 0.5 0 10 1000)) H).
Defined.

Import RegExp.

(** C7: [analyzeCode] and [selectStrategy] are pure and deterministic. Run
    in any two heaps of pattern objects, whatever the [lastIndex] of the
    objects in them, [analyzeCode] returns the same analysis of the same
    code and language, the one that the function of the code and the
    language computes, and it leaves every object that it found as it was:
    its own pattern objects are new ones. [selectStrategy] returns the same
    strategy for the same analysis and load in any two heaps, and leaves the
    heap as it is. *)
Theorem router_is_deterministic :
  (forall code language h1 h2,
      exists analysis,
        fst (StrategyRouterObject.analyzeCode code language h1) = Returned analysis
        /\ fst (StrategyRouterObject.analyzeCode code language h2) = Returned analysis
        /\ analysis = StrategyRouter.analyzeCode code language
        /\ forall r R,
            h1 !! r = Some R ->
            snd (StrategyRouterObject.analyzeCode code language h1) !! r = Some R)
  /\ (forall analysis systemLoad h1 h2,
         exists strategy,
           StrategyRouterObject.selectStrategy analysis systemLoad h1
           = (Returned strategy, h1)
           /\ StrategyRouterObject.selectStrategy analysis systemLoad h2
              = (Returned strategy, h2)
           /\ strategy = StrategyRouter.selectStrategy analysis systemLoad).
Proof.
  split.
  - intros code language h1 h2. eexists. rewrite !analyzeCode_run. cbn [fst snd].
    split; [reflexivity|]. split; [reflexivity|]. split; [reflexivity|].
    intros r R Hr. unfold heap in *. now apply lookup_app_l_Some.
  - intros analysis systemLoad h1 h2. eexists. repeat split.
Qed.

(** The heap matters to patterns that are shared: were the pattern of the
    loops one object for all calls, a second [test] of the same code would
    start where the first match ended, and answer differently. *)
Example shared_global_pattern_is_stateful :
  let R := mk StrategyRouter.loop_pattern false true 0 in
  let '(first, R') := test_object R (lit "for") in
  let '(second, _) := test_object R' (lit "for") in
  first = true /\ second = false /\ lastIndex R' = 3.
Proof. vm_compute. repeat split. Qed.

End Determinism.

Section Unparseable.
Import StrategyRouter.

(** The matcher at work on the patterns of the router. *)
Example analyzeCode_examples :
  CodeAnalysis.hasUnsafeOperations
    (analyzeCode (lit "const x = require('child_process')") javascript) = true
  /\ loopCount (lit "for (;;) { while (x) do_it(); } do x; fork") = 3
  /\ hasProcessSpawn (lit "a.FORK (") = false
  /\ hasProcessSpawn (lit "a.FORK(") = true
  /\ recursionIndicators (lit "function f (a, b) { return 1; }") = 0
  /\ recursionIndicators
       (lit "function f (a, b) { return " ++ [1%N] ++ lit " function  g() {" ++ [1%N; 1%N]) = 1
  /\ recursionIndicators
       (lit "function f (a, b) { return " ++ [1%N] ++ lit "} function  g() {" ++ [1%N; 1%N]) = 2.
Proof. vm_compute. repeat split. Qed.

(** C8, as stated, fails on the code: [print(] has no parse in any of the
    four languages, and no pattern of [analyzeCode] matches it, so that it is
    not classified as unsafe. *)
Lemma unparseable_code_is_not_flagged :
  ~ (forall code language,
        Spec.unparseable code language ->
        CodeAnalysis.hasUnsafeOperations (analyzeCode code language) = true).
Proof.
  intros H. specialize (H (lit "print(") javascript eq_refl).
  vm_compute in H. discriminate.
Qed.

(** C8 (amended): [analyzeCode] returns an analysis for every code and
    language; [hasUnsafeOperations] is true exactly when the code contains,
    in some letter case, one of the markers of file I/O, of network access or
    of process spawning, or [require(] with a quote and [child_process], or
    [import] with [child_process] further on the same line; the language,
    and whether the code parses in it, play no part. *)
Theorem hasUnsafeOperations_by_markers code language :
  (exists analysis, analyzeCode code language = analysis)
  /\ (CodeAnalysis.hasUnsafeOperations (analyzeCode code language) = true
      <-> unsafe_marker code)
  /\ (forall language',
         CodeAnalysis.hasUnsafeOperations (analyzeCode code language')
         = CodeAnalysis.hasUnsafeOperations (analyzeCode code language)).
Proof.
  split; [eauto|]. split; [apply hasUnsafeOperations_iff|]. reflexivity.
Qed.

Lemma hasUnsafeOperations_by_markers_witness :
  let code := lit "import os; os.system('ls')" in
  CodeAnalysis.hasUnsafeOperations (analyzeCode code python) = true
  /\ unsafe_marker code.
Proof.
  cbv zeta. split; [reflexivity|].
  apply (proj1 (proj1 (proj2 (hasUnsafeOperations_by_markers _ python)))).
  reflexivity.
Defined.

End Unparseable.

(** * Beyond the specification: more properties of the code *)

(** ** Routing of analysed code *)

Section RoutedCode.
Import StrategyRouter.
Local Set Warnings "-inexact-float".

Lemma analysis_fields code language :
  let analysis := analyzeCode code language in
  CodeAnalysis.canRunInBrowser analysis
  = match language with
    | javascript | python => true
    | _ => false
    end && negb (CodeAnalysis.hasUnsafeOperations analysis)
  /\ CodeAnalysis.requiresCompilation analysis
     = match language with
       | cpp | rust => true
       | _ => false
       end.
Proof. split; reflexivity. Qed.

(** X1: code that carries an unsafe marker is routed to the server whatever the
    language and the load, and only JavaScript or Python code without any
    marker is ever routed to the client: code of a compiled language never
    is. *)
Theorem unsafe_or_compiled_code_is_never_routed_to_client code language systemLoad :
  let analysis := analyzeCode code language in
  let chosen := ExecutionStrategy.type (selectStrategy analysis systemLoad) in
  (unsafe_marker code -> chosen = server)
  /\ (chosen = client ->
      (language = javascript \/ language = python) /\ ~ unsafe_marker code)
  /\ (CodeAnalysis.requiresCompilation analysis = true -> chosen <> client).
Proof.
  cbv zeta. rewrite <- hasUnsafeOperations_iff with (language := language).
  destruct (analysis_fields code language) as [Hbrowser Hcompiled].
  cbv zeta in Hbrowser, Hcompiled. unfold selectStrategy.
  rewrite Hbrowser, Hcompiled.
  generalize (CodeAnalysis.hasUnsafeOperations (analyzeCode code language)) as unsafe.
  generalize (CodeAnalysis.complexity (analyzeCode code language)) as complexity.
  generalize (PrimFloat.ltb (CodeAnalysis.estimatedMemory (analyzeCode code language))
                (100 * 1024 * 1024)) as small.
  generalize (PrimFloat.ltb 0.8 (SystemMetrics.serverLoad systemLoad)) as loaded.
  intros loaded small complexity unsafe.
  destruct unsafe, language, complexity, small, loaded;
    cbn; repeat split; try congruence; try discriminate; auto.
Qed.

Lemma unsafe_or_compiled_code_is_never_routed_to_client_witness :
  let code := lit "import os; os.system('ls')" in
  unsafe_marker code
  /\ ExecutionStrategy.type
       (selectStrategy (analyzeCode code python) (SystemMetrics.mk 0.9 0 10 1000))
     = server.
Proof.
  cbv zeta.
  assert (H : unsafe_marker (lit "import os; os.system('ls')")).
  { apply (hasUnsafeOperations_iff _ python). reflexivity. }
  split; [exact H|].
  exact (proj1 (unsafe_or_compiled_code_is_never_routed_to_client _ python
                  (SystemMetrics.mk 0.9 0 10 1000)) H).
Defined.

End RoutedCode.

(** ** The verdict of an evaluation *)

Section VerdictShape.
Import JudgeEngine.
Context {W : Type}.
Variable executeFunction : jsstring -> M W ExecutionResult.t.

(** The loop ends either with every test case run and passed, or with the
    first result that failed as its last result. *)
Lemma evaluate_loop_shape (testCases : list TestCase.t) :
  forall i acc w,
  exists results w',
    evaluate_loop executeFunction testCases i acc w = (Returned (acc ++ results), w')
    /\ ((forallb TestCaseResult.passed results = true
         /\ length results = length testCases)
        \/ exists passedOnes f,
            results = passedOnes ++ [f]
            /\ forallb TestCaseResult.passed passedOnes = true
            /\ TestCaseResult.passed f = false
            /\ TestCaseResult.testCaseNumber f = i + length passedOnes + 1
            /\ length results <= length testCases).
Proof.
  induction testCases as [|testCase rest IH]; intros i acc w; cbn [evaluate_loop].
  - exists [], w. rewrite app_nil_r. split; [reflexivity|]. left. auto.
  - unfold bind at 1. rewrite runTestCase_one_case.
    pose proof (one_case_testCaseNumber executeFunction testCase (i + 1) w) as Hn.
    destruct (Spec.one_case executeFunction testCase (i + 1) w) as [r w1].
    cbn [fst snd] in *. destruct (TestCaseResult.passed r) eqn:Hr; cbn [negb].
    + destruct (IH (S i) (acc ++ [r]) w1) as (results & w' & -> & Hshape).
      exists (r :: results), w'. rewrite <- app_assoc. split; [reflexivity|].
      destruct Hshape as [(Hall & Hlen)|(P & f & -> & HP & Hf & Hnum & Hlen)].
      * left. cbn. rewrite Hr, Hall, Hlen. auto.
      * right. exists (r :: P), f. cbn. rewrite Hr, HP.
        repeat split; auto; cbn in *; lia.
    + exists [r], w1. split; [reflexivity|]. right. exists [], r. cbn.
      repeat split; auto; lia.
Qed.

(** X2: whatever the executor does, [evaluate] returns a verdict that counts
    consistently: [totalTests] is the number of test cases, [passedTests]
    does not exceed it, no failed test case is named exactly when all tests
    passed, in which case the status is [Accepted], and a failed test case,
    when named, is the one after the passed ones. *)
Theorem evaluate_verdict_counts code testCases w :
  exists verdict w',
    evaluate executeFunction code testCases w = (Returned verdict, w')
    /\ Verdict.totalTests verdict = length testCases
    /\ Verdict.passedTests verdict <= Verdict.totalTests verdict
    /\ (Verdict.failedTestCase verdict = None
        <-> Verdict.passedTests verdict = Verdict.totalTests verdict)
    /\ (Verdict.failedTestCase verdict = None -> Verdict.status verdict = Accepted)
    /\ (forall k, Verdict.failedTestCase verdict = Some k ->
                  k = Verdict.passedTests verdict + 1
                  /\ k <= Verdict.totalTests verdict).
Proof.
  destruct (evaluate_loop_shape testCases 0 [] w) as (results & w' & Hloop & Hshape).
  cbn [app] in Hloop. unfold evaluate, bind, lift. rewrite Hloop.
  unfold generateVerdict.
  destruct Hshape as [(Hall & Hlen)|(P & f & -> & HP & Hf & Hnum & Hlen)].
  - rewrite Hall. eexists _, w'. split; [reflexivity|]. cbn. rewrite Hlen.
    repeat split; auto; discriminate.
  - destruct (find_first_failure P f HP Hf) as (Hall & Hfind & Hfilter).
    rewrite Hall, Hfind. eexists _, w'. split; [reflexivity|]. cbn.
    rewrite Hfilter, Hnum. rewrite length_app in Hlen. cbn in Hlen.
    split; [reflexivity|]. split; [lia|]. split; [split; [discriminate|lia]|].
    split; [discriminate|]. intros k [= <-]. lia.
Qed.

End VerdictShape.

(** ** Whitespace around an output *)

Section Padding.
Import JudgeEngine.

Lemma lstrip_app_all p pre s :
  forallb p pre = true -> lstrip p (pre ++ s) = lstrip p s.
Proof.
  induction pre as [|c pre IH]; cbn; [reflexivity|].
  intros H. apply andb_true_iff in H as [-> H]. auto.
Qed.

Lemma rstrip_app_all p s post :
  forallb p post = true -> rstrip p (s ++ post) = rstrip p s.
Proof.
  intros H. induction s as [|c s IH]; cbn.
  - now apply rstrip_nil_all.
  - now rewrite IH.
Qed.

Lemma lstrip_app p s post :
  lstrip p (s ++ post)
  = match lstrip p s with
    | [] => lstrip p post
    | t => t ++ post
    end.
Proof.
  induction s as [|c s IH]; cbn.
  - destruct (lstrip p post); [reflexivity|]. cbn. reflexivity.
  - destruct (p c); [exact IH|reflexivity].
Qed.

Lemma lstrip_all p s : forallb p s = true -> lstrip p s = [].
Proof.
  induction s as [|c s IH]; cbn; [reflexivity|].
  intros H. apply andb_true_iff in H as [-> H]. auto.
Qed.

Lemma trim_padded pre s post :
  forallb is_whitespace pre = true ->
  forallb is_whitespace post = true ->
  trim (pre ++ s ++ post) = trim s.
Proof.
  intros Hpre Hpost. unfold trim, trimStart, trimEnd.
  rewrite lstrip_app_all by exact Hpre. rewrite lstrip_app.
  destruct (lstrip is_whitespace s) as [|c t] eqn:E.
  - rewrite lstrip_all by exact Hpost. reflexivity.
  - now apply rstrip_app_all.
Qed.

(** X3: under a mode that trims, whitespace (spaces, tabs, line feeds, ...)
    before and after an output changes neither its normal form nor the
    result of comparing it with an expected output. *)
Theorem compareOutput_ignores_surrounding_whitespace
    (pre post actual expected : jsstring) (mode : ComparisonMode.t) :
  ComparisonMode.trimWhitespace mode = true ->
  forallb is_whitespace pre = true ->
  forallb is_whitespace post = true ->
  normalize (pre ++ actual ++ post) mode = normalize actual mode
  /\ compareOutput (pre ++ actual ++ post) expected mode
     = compareOutput actual expected mode
  /\ compareOutput expected (pre ++ actual ++ post) mode
     = compareOutput expected actual mode.
Proof.
  intros Hmode Hpre Hpost.
  assert (H : normalize (pre ++ actual ++ post) mode = normalize actual mode).
  { unfold normalize. rewrite Hmode. now rewrite trim_padded. }
  split; [exact H|]. unfold compareOutput. now rewrite H.
Qed.

Lemma compareOutput_ignores_surrounding_whitespace_witness :
  let pre := [32; 10]%N in
  let post := [13; 10; 9]%N in
  forallb is_whitespace pre = true
  /\ forallb is_whitespace post = true
  /\ compareOutput (pre ++ lit "120" ++ post) (lit "120") runTestCase_mode
     = compareOutput (lit "120") (lit "120") runTestCase_mode.
Proof.
  cbv zeta. split; [reflexivity|]. split; [reflexivity|].
  exact (proj1 (proj2 (compareOutput_ignores_surrounding_whitespace
                         [32; 10]%N [13; 10; 9]%N (lit "120") (lit "120")
                         runTestCase_mode eq_refl eq_refl eq_refl))).
Defined.

End Padding.

(** ** What is written to the container, and what is read from it *)

Section Transfer.
Import ContainerOrchestrator.

Lemma unquote_quoted_body content : forall tail,
  Shell.unquote_from true false (escape_quotes content ++ 39%N :: tail)
  = option_map (app content) (Shell.unquote_from false false tail).
Proof.
  induction content as [|c content IH]; intros tail.
  - cbn. destruct (Shell.unquote_from false false tail); reflexivity.
  - cbn [escape_quotes]. destruct (N.eqb c 39) eqn:E.
    + apply N.eqb_eq in E. subst c. cbn [app Shell.unquote_from N.eqb Pos.eqb orb].
      cbn. rewrite IH. destruct (Shell.unquote_from false false tail); reflexivity.
    + cbn [app Shell.unquote_from]. rewrite E, IH.
      destruct (Shell.unquote_from false false tail); reflexivity.
Qed.

(** X4: the shell word that [writeToContainer] builds around a content
    denotes that content, whatever quotes and backslashes it contains; hence
    two different contents never give the same word. *)
Theorem escape_quotes_round_trip :
  (forall content,
      Shell.unquote ([39%N] ++ escape_quotes content ++ [39%N]) = Some content)
  /\ (forall content content',
         escape_quotes content = escape_quotes content' -> content = content').
Proof.
  assert (H : forall content,
             Shell.unquote ([39%N] ++ escape_quotes content ++ [39%N]) = Some content).
  { intros content. unfold Shell.unquote. cbn [app Shell.unquote_from N.eqb Pos.eqb].
    cbn. rewrite unquote_quoted_body. cbn. now rewrite app_nil_r. }
  split; [exact H|]. intros content content' E.
  pose proof (H content) as H1. rewrite E, H in H1. congruence.
Qed.

Lemma escape_quotes_round_trip_witness :
  Shell.unquote ([39%N] ++ escape_quotes (lit "it's") ++ [39%N])
  = Some (lit "it's").
Proof. apply (proj1 escape_quotes_round_trip). Defined.

(** X5: what [collectOutput] gathers as [stdout] is the chunks that do not
    contain the text [stderr], in order; every chunk that contains it goes to
    [stderr], also when the program wrote it to its standard output. *)
Theorem collect_files_chunks_by_text chunks :
  collect chunks [] []
  = (concat (List.filter (fun data => negb (includes (lit "stderr") data)) chunks),
     concat (List.filter (fun data => includes (lit "stderr") data) chunks)).
Proof.
  assert (H : forall stdout stderr,
             collect chunks stdout stderr
             = (stdout ++ concat (List.filter
                                    (fun data => negb (includes (lit "stderr") data))
                                    chunks),
                stderr ++ concat (List.filter
                                    (fun data => includes (lit "stderr") data)
                                    chunks))).
  { induction chunks as [|data rest IH]; intros stdout stderr; cbn [collect].
    - cbn. now rewrite !app_nil_r.
    - cbn [List.filter]. destruct (includes (lit "stderr") data); cbn [negb];
        rewrite IH; cbn; now rewrite <- app_assoc. }
  apply H.
Qed.

End Transfer.

(** ** Invariants of asynchronous methods *)

Section Invariants.
Context {S : Type}.
Variable I : S -> Prop.

Lemma preserves_ret {A} (a : A) : preserves I (ret a).
Proof. intros s H. exact H. Qed.

Lemma preserves_throw {A} (e : thrown) : preserves I (@throw S A e).
Proof. intros s H. exact H. Qed.

Lemma preserves_lift {A} (r : outcome A) : preserves I (lift r).
Proof. intros s H. exact H. Qed.

Lemma preserves_gets {A} (f : S -> A) : preserves I (gets f).
Proof. intros s H. exact H. Qed.

Lemma preserves_modify (f : S -> S) :
  (forall s, I s -> I (f s)) -> preserves I (modify f).
Proof. intros H s. apply H. Qed.

Lemma preserves_bind {A B} (m : M S A) (k : A -> M S B) :
  preserves I m -> (forall a, preserves I (k a)) -> preserves I (bind m k).
Proof.
  intros Hm Hk s Hs. unfold bind. specialize (Hm s Hs).
  destruct (m s) as [[a|e] s']; cbn in *; [|assumption]. now apply Hk.
Qed.

Lemma preserves_try_catch {A} (m : M S A) (h : thrown -> M S A) :
  preserves I m -> (forall e, preserves I (h e)) -> preserves I (try_catch m h).
Proof.
  intros Hm Hh s Hs. unfold try_catch. specialize (Hm s Hs).
  destruct (m s) as [[a|e] s']; cbn in *; [assumption|]. now apply Hh.
Qed.

Lemma preserves_try_finally {A} (m : M S A) (f : M S unit) :
  preserves I m -> preserves I f -> preserves I (try_finally m f).
Proof.
  intros Hm Hf s Hs. unfold try_finally. specialize (Hm s Hs).
  destruct (m s) as [r s']. specialize (Hf s' Hm).
  destruct (f s') as [[[]|e] s'']; cbn in *; assumption.
Qed.

End Invariants.

Ltac invariant_step :=
  match goal with
  | |- preserves _ (bind _ _) => apply preserves_bind; [|intros ?]
  | |- preserves _ (try_catch _ _) => apply preserves_try_catch; [|intros ?]
  | |- preserves _ (try_finally _ _) => apply preserves_try_finally
  | |- preserves _ (ret _) => apply preserves_ret
  | |- preserves _ (throw _) => apply preserves_throw
  | |- preserves _ (lift _) => apply preserves_lift
  | |- preserves _ (gets _) => apply preserves_gets
  | |- preserves _ (if ?b then _ else _) => destruct b
  | |- preserves _ (match ?x with _ => _ end) => destruct x
  end.

Ltac invariant := repeat invariant_step.

(** ** Worlds that serve every call *)

Section Served.
Import World.

Lemma external_all_served : preserves all_served external.
Proof.
  intros w H. unfold external, all_served in *.
  destruct w as [now uuids replies streams docker pool subs queue console]. cbn in *.
  destruct replies as [|[t [|e]] rest]; cbn in *;
    first [assumption | discriminate].
Qed.

(** A call that is served returns, and changes nothing but the clock and the
    script. *)
Lemma external_served w :
  all_served w ->
  exists w',
    external w = (Returned tt, w')
    /\ all_served w'
    /\ uuids w' = uuids w /\ streams w' = streams w /\ docker w' = docker w
    /\ workerPool w' = workerPool w /\ submissions w' = submissions w
    /\ queue w' = queue w /\ console w' = console w.
Proof.
  intros H. unfold external, all_served in *.
  destruct w as [now uuids replies streams docker pool subs queue console]. cbn in *.
  destruct replies as [|[t [|e]] rest]; cbn in *.
  - eexists. split; [reflexivity|]. cbn. auto 10.
  - eexists. split; [reflexivity|]. cbn. auto 10.
  - discriminate.
Qed.

Lemma modify_all_served f :
  (forall w, replies (f w) = replies w) -> preserves all_served (modify f).
Proof. intros H. apply preserves_modify. intros w. unfold all_served. now rewrite H. Qed.

Lemma uuidv4_all_served : preserves all_served uuidv4.
Proof. intros w H. unfold uuidv4. destruct (uuids w); exact H. Qed.

Lemma next_stream_all_served : preserves all_served next_stream.
Proof. intros w H. unfold next_stream. destruct (streams w); exact H. Qed.

Lemma docker_request_all_served c : preserves all_served (docker_request c).
Proof.
  unfold docker_request. invariant; [apply external_all_served|].
  now apply modify_all_served.
Qed.

Lemma console_line_all_served line : preserves all_served (console_line line).
Proof. now apply modify_all_served. Qed.

Lemma collectOutput_all_served stream timeout :
  preserves all_served (ContainerOrchestrator.collectOutput stream timeout).
Proof.
  unfold ContainerOrchestrator.collectOutput. invariant;
    now apply modify_all_served.
Qed.

Lemma executeInContainer_all_served env code input limits :
  preserves all_served (ContainerOrchestrator.executeInContainer env code input limits).
Proof.
  unfold ContainerOrchestrator.executeInContainer,
    ContainerOrchestrator.writeToContainer, Date_now.
  invariant; try apply docker_request_all_served.
  - apply next_stream_all_served.
  - apply collectOutput_all_served.
Qed.

End Served.

(** ** Runs in a world that serves every call *)

Section ServedRuns.
Import World ContainerOrchestrator.

Lemma requested_refl w : requested [] w w.
Proof. unfold requested. rewrite app_nil_r. auto 10. Qed.

Lemma requested_trans cs ds w w1 w2 :
  requested cs w w1 -> requested ds w1 w2 -> requested (cs ++ ds) w w2.
Proof.
  unfold requested. intros (? & ? & Hd1 & ? & ? & ? & ?) (? & ? & Hd2 & ? & ? & ? & ?).
  rewrite Hd2, Hd1, app_assoc. repeat split; congruence.
Qed.

Lemma external_requested w :
  all_served w ->
  exists w', external w = (Returned tt, w') /\ all_served w' /\ requested [] w w'.
Proof.
  intros H. destruct (external_served w H) as (w' & ? & ? & ? & ? & Hd & ? & ? & ? & ?).
  exists w'. unfold requested. rewrite app_nil_r. auto 10.
Qed.

Lemma docker_request_run c w :
  all_served w ->
  exists w',
    docker_request c w = (Returned tt, w') /\ all_served w' /\ requested [c] w w'.
Proof.
  intros H. destruct (external_requested w H) as (w1 & Hext & Hs & Hr).
  unfold docker_request, bind, modify. rewrite Hext.
  eexists. split; [reflexivity|]. split; [exact Hs|].
  unfold requested in *. cbn. destruct Hr as (? & ? & -> & ? & ? & ? & ?).
  rewrite app_nil_r. auto 10.
Qed.

Lemma uuidv4_run w :
  uuidv4 w = (Returned (upcoming_uuid w), set_uuids (tl (uuids w)) w).
Proof.
  unfold uuidv4, upcoming_uuid. destruct w as [? us ? ? ? ? ? ? ?]. cbn.
  destruct us; reflexivity.
Qed.

Lemma next_stream_run w :
  next_stream w = (Returned (upcoming_stream w), set_streams (tl (streams w)) w).
Proof.
  unfold next_stream, upcoming_stream. destruct w as [? ? ? ss ? ? ? ? ?]. cbn.
  destruct ss; reflexivity.
Qed.

Lemma collectOutput_run stream timeout w :
  exists r ms,
    collectOutput stream timeout w = (r, elapse ms w)
    /\ match ending stream with
       | Ends at_ms =>
           if PrimFloat.ltb at_ms timeout
           then r = Returned (collect (chunks stream) [] [])
           else r = Threw (ErrorObj (lit "Time Limit Exceeded"))
       | Errors at_ms error =>
           if PrimFloat.ltb at_ms timeout
           then r = Threw error
           else r = Threw (ErrorObj (lit "Time Limit Exceeded"))
       | Hangs => r = Threw (ErrorObj (lit "Time Limit Exceeded"))
       end.
Proof.
  unfold collectOutput.
  destruct (ending stream) as [at_ms|at_ms error|];
    try destruct (PrimFloat.ltb at_ms timeout); eexists _, _; split; reflexivity.
Qed.

End ServedRuns.

(** [call] runs the next Docker request of the goal in a served world, and
    adds it to the requests made since the world [w0]. *)
Ltac call w0 :=
  match goal with
  | Hs : World.all_served ?w, Hr : World.requested _ w0 ?w
    |- context [World.docker_request ?c ?w] =>
      let w' := fresh "w" in
      let Hrun := fresh "Hrun" in
      let Hs' := fresh "Hs" in
      let Hr' := fresh "Hr" in
      destruct (docker_request_run c w Hs) as (w' & Hrun & Hs' & Hr');
      rewrite Hrun;
      pose proof (requested_trans _ _ _ _ _ Hr Hr');
      clear Hrun Hs Hr Hr'; cbn [app] in *
  end.

Section ServedStores.
Import World.

Lemma getQueueDepth_run w :
  all_served w ->
  exists w',
    SubmissionQueue.getQueueDepth w = (Returned (length (queue w)), w')
    /\ all_served w' /\ requested [] w w'.
Proof.
  intros H. destruct (external_requested w H) as (w' & Hext & Hs & Hr).
  exists w'. unfold SubmissionQueue.getQueueDepth, bind, gets, ret. rewrite Hext. cbn.
  pose proof Hr as (_ & _ & _ & _ & _ & -> & _). auto.
Qed.

Lemma create_run_served submission w :
  all_served w ->
  submissions w !! Submission.id submission = None ->
  exists w1,
    all_served w1 /\ requested [] w w1
    /\ SubmissionRepository.create submission w
       = (Returned tt,
          set_submissions
            (<[Submission.id submission := SubmissionRepository.inserted_row submission]>
               (submissions w)) w1).
Proof.
  intros H Hfresh. destruct (external_requested w H) as (w1 & Hext & Hs & Hr).
  exists w1. split; [exact Hs|]. split; [exact Hr|].
  unfold SubmissionRepository.create, bind, gets, modify. rewrite Hext. cbn.
  pose proof Hr as (_ & _ & _ & _ & -> & _). now rewrite Hfresh.
Qed.



Lemma enqueue_run_served submission w :
  all_served w ->
  exists w1 w2,
    all_served w2 /\ requested [] w w1
    /\ requested [] (set_queue (queue w ++ [submission]) w1) w2
    /\ SubmissionQueue.enqueue submission w = (Returned (length (queue w) + 1), w2).
Proof.
  intros H. destruct (external_requested w H) as (w1 & Hext & Hs1 & Hr1).
  assert (Hs1' : all_served (set_queue (queue w ++ [submission]) w1)) by exact Hs1.
  destruct (getQueueDepth_run _ Hs1') as (w2 & Hdepth & Hs2 & Hr2).
  exists w1, w2. split; [exact Hs2|]. split; [exact Hr1|]. split; [exact Hr2|].
  unfold SubmissionQueue.enqueue, bind, modify. rewrite Hext.
  pose proof Hr1 as (_ & _ & _ & _ & _ & -> & _). rewrite Hdepth. cbn.
  now rewrite length_app.
Qed.

Lemma dequeue_run_served w :
  all_served w ->
  exists w1,
    all_served w1 /\ requested [] w w1
    /\ SubmissionQueue.dequeue w
       = (Returned (head (queue w)),
          match queue w with
          | [] => w1
          | _ :: rest => set_queue rest w1
          end).
Proof.
  intros H. destruct (external_requested w H) as (w1 & Hext & Hs & Hr).
  exists w1. split; [exact Hs|]. split; [exact Hr|].
  unfold SubmissionQueue.dequeue, bind, gets. rewrite Hext. cbn.
  pose proof Hr as (_ & _ & _ & _ & _ & -> & _).
  destruct (queue w); reflexivity.
Qed.

End ServedStores.

(** ** The queue *)

Section Queue.
Import World SubmissionQueue.

Lemma findIndex_from_spec {A} (p : A -> bool) (items : list A) : forall i,
  (findIndex_from p items i = (-1)%Z \/ (i <= findIndex_from p items i)%Z)
  /\ ((forallb (fun x => negb (p x)) items = true
       /\ findIndex_from p items i = (-1)%Z)
      \/ exists n x,
          items !! n = Some x /\ p x = true
          /\ (forall m y, m < n -> items !! m = Some y -> p y = false)
          /\ findIndex_from p items i = (i + Z.of_nat n)%Z).
Proof.
  induction items as [|item rest IH]; intros i; cbn [findIndex_from].
  - split; [auto|]. left. auto.
  - destruct (p item) eqn:E.
    + split; [right; lia|]. right. exists 0, item. cbn.
      repeat split; auto; [intros; lia|lia].
    + destruct (IH (i + 1)%Z) as [Hge [[Hall Hnone]|(n & x & Hx & Hp & Hfirst & Hidx)]].
      * split; [auto|]. left. cbn. rewrite E. auto.
      * split; [right; lia|]. right. exists (S n), x. cbn.
        repeat split; auto; [|lia].
        intros [|m] y Hm; cbn; [intros [= <-]; exact E|].
        apply Hfirst. lia.
Qed.

(** The position of an identifier in the queue, step by step. *)
Lemma getQueuePosition_run submissionId w :
  all_served w ->
  exists position w',
    getQueuePosition submissionId w = (Returned position, w')
    /\ queue w' = queue w
    /\ ((position = (-1)%Z
         /\ forall entry, In entry (queue w) -> Submission.id entry <> submissionId)
        \/ exists n entry,
            queue w !! n = Some entry
            /\ Submission.id entry = submissionId
            /\ (forall m earlier, m < n -> queue w !! m = Some earlier ->
                                  Submission.id earlier <> submissionId)
            /\ position = Z.of_nat (n + 1)).
Proof.
  intros Hserved. destruct (external_served w Hserved)
    as (w1 & Hext & _ & _ & _ & _ & _ & _ & Hq & _).
  unfold getQueuePosition, bind. rewrite Hext. unfold gets, ret. cbn.
  eexists _, w1. split; [reflexivity|]. split; [exact Hq|]. rewrite Hq.
  unfold findIndex.
  destruct (findIndex_from_spec
              (fun submission => str_eqb (Submission.id submission) submissionId)
              (queue w) 0%Z)
    as [_ [[Hall ->]|(n & x & Hx & Hp & Hfirst & ->)]].
  - left. split; [reflexivity|]. intros entry Hin Hid.
    rewrite forallb_forall in Hall. specialize (Hall entry Hin).
    rewrite <- Hid, str_eqb_refl in Hall. discriminate.
  - right. exists n, x. split; [exact Hx|]. split; [now apply str_eqb_eq|]. split.
    + intros m earlier Hm Hearlier Hid. specialize (Hfirst m earlier Hm Hearlier).
      rewrite <- Hid, str_eqb_refl in Hfirst. discriminate.
    + destruct (Z.eqb_spec (0 + Z.of_nat n) (-1)); lia.
Qed.

(** X6: [getQueuePosition] answers -1 exactly when no entry of the queue has
    the identifier, and otherwise the place, counted from one, of the first
    entry that has it; it never answers 0, and leaves the queue as it is. *)
Theorem getQueuePosition_is_first_place submissionId w :
  all_served w ->
  exists position w',
    getQueuePosition submissionId w = (Returned position, w')
    /\ queue w' = queue w
    /\ ((position = (-1)%Z
         /\ forall entry, In entry (queue w) -> Submission.id entry <> submissionId)
        \/ exists n entry,
            queue w !! n = Some entry
            /\ Submission.id entry = submissionId
            /\ (forall m earlier, m < n -> queue w !! m = Some earlier ->
                                  Submission.id earlier <> submissionId)
            /\ position = Z.of_nat (n + 1)).
Proof. exact (getQueuePosition_run submissionId w). Qed.

Lemma getQueuePosition_is_first_place_witness :
  let w := World.set_queue [looping_submission] quiet_world in
  all_served w
  /\ fst (getQueuePosition (lit "sub-1") w) = Returned 1%Z.
Proof.
  cbv zeta. split; [reflexivity|].
  destruct (getQueuePosition_is_first_place (lit "sub-1")
              (World.set_queue [looping_submission] quiet_world) eq_refl)
    as (position & w' & _ & _ & _).
  reflexivity.
Defined.

(** X7: in a world that serves every call, [enqueue] puts the submission at
    the end of the queue and returns the new depth; when no entry had its
    identifier, that depth is also its position. *)
Theorem enqueue_returns_depth_and_position submission w :
  all_served w ->
  exists w',
    enqueue submission w = (Returned (length (queue w) + 1), w')
    /\ all_served w'
    /\ queue w' = queue w ++ [submission]
    /\ ((forall entry, In entry (queue w) ->
                       Submission.id entry <> Submission.id submission) ->
        fst (getQueuePosition (Submission.id submission) w')
        = Returned (Z.of_nat (length (queue w) + 1))).
Proof.
  intros Hserved.
  destruct (external_served w Hserved)
    as (w1 & Hext1 & Hs1 & _ & _ & _ & _ & _ & Hq1 & _).
  set (w2 := set_queue (queue w1 ++ [submission]) w1).
  assert (Hs2 : all_served w2) by exact Hs1.
  destruct (external_served w2 Hs2)
    as (w3 & Hext3 & Hs3 & _ & _ & _ & _ & _ & Hq3 & _).
  exists w3.
  assert (Hrun : enqueue submission w = (Returned (length (queue w) + 1), w3)).
  { unfold enqueue, getQueueDepth, bind. rewrite Hext1. unfold modify. cbn.
    fold w2. rewrite Hext3. unfold gets, ret. cbn. rewrite Hq3. subst w2. cbn.
    rewrite Hq1, length_app. reflexivity. }
  assert (Hqueue : queue w3 = queue w ++ [submission]).
  { rewrite Hq3. subst w2. cbn. now rewrite Hq1. }
  split; [exact Hrun|]. split; [exact Hs3|]. split; [exact Hqueue|].
  intros Hfresh.
  destruct (getQueuePosition_run (Submission.id submission) w3 Hs3)
    as (position & w4 & -> & _ & [(_ & Hnone)|(n & entry & Hn & Hid & Hfirst & ->)]).
  - exfalso. apply (Hnone submission); [|reflexivity].
    rewrite Hqueue. apply in_or_app. right. now left.
  - cbn. do 2 f_equal. rewrite Hqueue in Hn, Hfirst.
    destruct (Nat.lt_trichotomy n (length (queue w))) as [Hlt|[->|Hgt]].
    + exfalso. rewrite lookup_app_l in Hn by exact Hlt.
      apply (Hfresh entry); [|exact Hid].
      apply list_elem_of_In, list_elem_of_lookup. eauto.
    + reflexivity.
    + exfalso. apply lookup_lt_Some in Hn. rewrite length_app in Hn. cbn in Hn. lia.
Qed.

Lemma enqueue_returns_depth_and_position_witness :
  all_served quiet_world
  /\ fst (enqueue looping_submission quiet_world) = Returned 1.
Proof.
  split; [reflexivity|].
  destruct (enqueue_returns_depth_and_position looping_submission quiet_world eq_refl)
    as (w' & -> & _).
  reflexivity.
Defined.

(** X8: the queue is first in, first out. In a world that serves every call,
    [dequeue] after [enqueue] returns the oldest entry, which is the one just
    enqueued only when the queue was empty, and removes it; on an empty queue
    [dequeue] returns nothing and leaves the queue empty. *)
Theorem queue_is_first_in_first_out submission w :
  all_served w ->
  (exists depth w1 w2,
      enqueue submission w = (Returned depth, w1)
      /\ dequeue w1 = (Returned (Some (hd submission (queue w))), w2)
      /\ queue w2 = tl (queue w ++ [submission]))
  /\ (queue w = [] ->
      exists w', dequeue w = (Returned None, w') /\ queue w' = []).
Proof.
  intros Hserved. split.
  - destruct (enqueue_run_served submission w Hserved)
      as (w1 & w2 & Hs2 & _ & Hr2 & Henqueue).
    destruct (dequeue_run_served w2 Hs2) as (w3 & _ & Hr3 & Hdequeue).
    assert (Hq2 : queue w2 = queue w ++ [submission]) by apply Hr2.
    rewrite Hq2 in Hdequeue.
    destruct Hr3 as (_ & _ & _ & _ & _ & Hq3 & _).
    exists (length (queue w) + 1), w2.
    destruct (queue w) as [|oldest rest]; cbn in *;
      (eexists; split; [exact Henqueue|]; split; [exact Hdequeue|]);
      reflexivity.
  - intros Hempty.
    destruct (dequeue_run_served w Hserved) as (w1 & _ & Hr1 & Hdequeue).
    rewrite Hempty in Hdequeue. eexists. split; [exact Hdequeue|].
    destruct Hr1 as (_ & _ & _ & _ & _ & Hq1 & _). congruence.
Qed.

Lemma queue_is_first_in_first_out_witness :
  all_served quiet_world
  /\ exists depth w1 w2,
      enqueue looping_submission quiet_world = (Returned depth, w1)
      /\ dequeue w1 = (Returned (Some looping_submission), w2)
      /\ queue w2 = [].
Proof.
  split; [reflexivity|].
  exact (proj1 (queue_is_first_in_first_out looping_submission quiet_world eq_refl)).
Defined.

End Queue.

(** ** The repository *)

Section Repository.
Import World SubmissionRepository.



(** X10: [create] with an identifier that the table already has throws, also
    when the database is reached, and the table keeps the row it had. *)
Theorem create_rejects_duplicate_id submission w :
  is_Some (submissions w !! Submission.id submission) ->
  exists error w',
    create submission w = (Threw error, w')
    /\ submissions w' = submissions w.
Proof.
  intros [row Hrow]. unfold create, bind, external, gets, throw.
  destruct w as [now uuids replies streams docker pool subs queue console].
  cbn in *. destruct replies as [|[t [|e]] rest]; cbn; rewrite ?Hrow; eauto.
Qed.

Lemma create_rejects_duplicate_id_witness :
  exists w1 error w2,
    create looping_submission quiet_world = (Returned tt, w1)
    /\ create looping_submission w1 = (Threw error, w2)
    /\ submissions w2 = submissions w1.
Proof.
  eexists. 
  destruct (create_rejects_duplicate_id looping_submission
              (snd (create looping_submission quiet_world)))
    as (error & w2 & H1 & H2).
  { vm_compute. eauto. }
  exists error, w2. split; [reflexivity|]. split; [exact H1|exact H2].
Defined.

(** X11: [update] never adds a row and never removes one, it leaves the rows
    of other identifiers alone, and in the row of its submission it keeps the
    columns that the UPDATE statement does not name: user, problem, code,
    language, creation time and strategy. With an identifier that the table
    does not have it changes nothing and still returns. *)
Theorem update_keeps_unnamed_columns submission w :
  let w' := snd (update submission w) in
  (forall id, is_Some (submissions w' !! id) <-> is_Some (submissions w !! id))
  /\ (forall id, id <> Submission.id submission ->
                 submissions w' !! id = submissions w !! id)
  /\ (forall row', submissions w' !! Submission.id submission = Some row' ->
        exists row,
          submissions w !! Submission.id submission = Some row
          /\ Submission.id row' = Submission.id row
          /\ Submission.userId row' = Submission.userId row
          /\ Submission.problemId row' = Submission.problemId row
          /\ Submission.code row' = Submission.code row
          /\ Submission.language row' = Submission.language row
          /\ Submission.createdAt row' = Submission.createdAt row
          /\ Submission.executionStrategy row' = Submission.executionStrategy row)
  /\ (all_served w -> submissions w !! Submission.id submission = None ->
      fst (update submission w) = Returned tt /\ submissions w' = submissions w).
Proof.
  cbv zeta.
  assert (Hcases :
            (submissions (snd (update submission w)) = submissions w)
            \/ exists row,
                submissions w !! Submission.id submission = Some row
                /\ submissions (snd (update submission w))
                   = <[Submission.id submission := updated_row submission row]>
                       (submissions w)).
  { unfold update, bind, external, gets, modify, ret.
    destruct w as [now uuids replies streams docker pool subs queue console]. cbn.
    destruct replies as [|[t [|e]] rest]; cbn; auto;
      destruct (subs !! Submission.id submission) eqn:E; cbn; eauto. }
  split; [|split; [|split]].
  - intros id. destruct Hcases as [->|(row & Hrow & ->)]; [reflexivity|].
    destruct (decide (id = Submission.id submission)) as [->|Hne].
    + rewrite lookup_insert_eq, Hrow. split; eauto.
    + rewrite lookup_insert_ne by congruence. reflexivity.
  - intros id Hne. destruct Hcases as [->|(row & Hrow & ->)]; [reflexivity|].
    now rewrite lookup_insert_ne by congruence.
  - intros row'. destruct Hcases as [->|(row & Hrow & ->)].
    + intros H. exists row'. auto 10.
    + rewrite lookup_insert_eq. intros [= <-]. exists row. cbn. auto 10.
  - intros Hserved Hnone.
    destruct (external_served w Hserved) as (w1 & Hext & _ & _ & _ & _ & _ & Hsub & _).
    unfold update, bind. rewrite Hext. unfold gets, ret. cbn.
    rewrite Hsub, Hnone. cbn. auto.
Qed.

End Repository.

Section ServedOrchestration.
Import World ContainerOrchestrator.

(** A run in a served world, step by step. *)
Lemma executeInContainer_run env code input limits w :
  all_served w ->
  let containerId := ExecutionEnvironment.id env in
  let stream := upcoming_stream w in
  exists result w',
    executeInContainer env code input limits w = (Returned result, w')
    /\ all_served w'
    /\ docker w'
       = docker w
         ++ [Exec containerId
               [lit "sh"; lit "-c";
                lit "echo '" ++ escape_quotes code ++ lit "' > "
                ++ lit "/workspace/solution"];
             StartExec containerId;
             Exec containerId
               [lit "sh"; lit "-c";
                lit "echo '" ++ escape_quotes input ++ lit "' > "
                ++ lit "/workspace/input.txt"];
             StartExec containerId;
             Exec containerId (getExecutionCommand (ExecutionEnvironment.language env));
             StartExec containerId]
    /\ uuids w' = uuids w /\ workerPool w' = workerPool w
    /\ submissions w' = submissions w /\ queue w' = queue w
    /\ console w' = console w
    /\ (ExecutionResult.success result = true
        <-> exists at_ms,
             ending stream = Ends at_ms
             /\ PrimFloat.ltb at_ms (ResourceLimits.timeLimit limits) = true)
    /\ (ExecutionResult.success result = true ->
        ExecutionResult.output result = Some (fst (collect (chunks stream) [] []))
        /\ ExecutionResult.error result = Some (snd (collect (chunks stream) [] [])))
    /\ (ExecutionResult.success result = false ->
        ExecutionResult.verdict result = Some RuntimeError).
Proof.
  intros Hserved containerId stream.
  pose proof (requested_refl w) as Hr0.
  unfold executeInContainer, writeToContainer.
  unfold bind at 1, Date_now at 1, gets at 1. unfold try_catch.
  fold containerId.
  unfold bind at 1. unfold bind at 1. call w. unfold bind at 1. call w.
  unfold bind at 1. call w. unfold bind at 1. call w.
  unfold bind at 1. call w. unfold bind at 1. call w.
  unfold bind at 1. rewrite next_stream_run.
  match goal with H : requested _ w ?x |- _ =>
    destruct H as (Hu & Hst & Hd & Hp & Hsub & Hq & Hc);
    replace (upcoming_stream x) with stream
      by (unfold stream, upcoming_stream; now rewrite Hst)
  end.
  unfold bind at 1.
  match goal with |- context [collectOutput stream ?t ?x] =>
    destruct (collectOutput_run stream t x) as (r & ms & -> & Hr)
  end.
  assert (Hcases :
            (exists at_ms, ending stream = Ends at_ms
                           /\ PrimFloat.ltb at_ms (ResourceLimits.timeLimit limits) = true
                           /\ r = Returned (collect (chunks stream) [] []))
            \/ ((forall at_ms, ending stream = Ends at_ms ->
                               PrimFloat.ltb at_ms (ResourceLimits.timeLimit limits) = false)
                /\ exists error, r = Threw error)).
  { destruct (ending stream) as [at_ms|at_ms error|].
    - destruct (PrimFloat.ltb at_ms (ResourceLimits.timeLimit limits)) eqn:E.
      + left. eauto.
      + right. split; [intros ? [= <-]; exact E|eauto].
    - right. split; [discriminate|].
      destruct (PrimFloat.ltb at_ms (ResourceLimits.timeLimit limits)); eauto.
    - right. split; [discriminate|eauto]. }
  clear Hr.
  destruct Hcases as [(at_ms & Hend & Hlt & ->)|(Hnot & error & ->)].
  - unfold bind, Date_now, gets, ret. cbn.
    eexists _, _. split; [reflexivity|]. cbn.
    split; [assumption|]. split; [exact Hd|].
    repeat (split; [assumption|]).
    split; [split; eauto|]. split; [auto|discriminate].
  - unfold bind, Date_now, gets, ret. cbn.
    eexists _, _. split; [reflexivity|]. cbn.
    split; [assumption|]. split; [exact Hd|].
    repeat (split; [assumption|]).
    split; [split; [discriminate|]|].
    + intros (at_ms & Hend & Hlt). rewrite (Hnot at_ms Hend) in Hlt. discriminate.
    + split; [discriminate|reflexivity].
Qed.

(** X12: in a world that serves every call, [executeInContainer] makes six
    Docker requests, in this order: the two of writing the code, the two of
    writing the input, and the two of the run. Its result is a success
    exactly when the output stream of the run ends before the time limit,
    and then its output is what [collect] gathers from the chunks of that
    stream; every other result carries [Runtime Error]. *)
Theorem executeInContainer_when_served env code input limits w :
  all_served w ->
  let containerId := ExecutionEnvironment.id env in
  let stream := upcoming_stream w in
  exists result w',
    executeInContainer env code input limits w = (Returned result, w')
    /\ all_served w'
    /\ docker w'
       = docker w
         ++ [Exec containerId
               [lit "sh"; lit "-c";
                lit "echo '" ++ escape_quotes code ++ lit "' > "
                ++ lit "/workspace/solution"];
             StartExec containerId;
             Exec containerId
               [lit "sh"; lit "-c";
                lit "echo '" ++ escape_quotes input ++ lit "' > "
                ++ lit "/workspace/input.txt"];
             StartExec containerId;
             Exec containerId (getExecutionCommand (ExecutionEnvironment.language env));
             StartExec containerId]
    /\ uuids w' = uuids w /\ workerPool w' = workerPool w
    /\ submissions w' = submissions w /\ queue w' = queue w
    /\ console w' = console w
    /\ (ExecutionResult.success result = true
        <-> exists at_ms,
             ending stream = Ends at_ms
             /\ PrimFloat.ltb at_ms (ResourceLimits.timeLimit limits) = true)
    /\ (ExecutionResult.success result = true ->
        ExecutionResult.output result = Some (fst (collect (chunks stream) [] []))
        /\ ExecutionResult.error result = Some (snd (collect (chunks stream) [] [])))
    /\ (ExecutionResult.success result = false ->
        ExecutionResult.verdict result = Some RuntimeError).
Proof. exact (executeInContainer_run env code input limits w). Qed.

Lemma executeInContainer_when_served_witness :
  all_served quiet_world
  /\ exists result,
      fst (executeInContainer some_environment (lit "print(42)") [] 
             ExecutionController.customTest_limits quiet_world)
      = Returned result.
Proof.
  split; [reflexivity|].
  destruct (executeInContainer_when_served some_environment (lit "print(42)") []
              ExecutionController.customTest_limits quiet_world eq_refl)
    as (result & w' & -> & _).
  eauto.
Defined.

(** X13: [createExecutionEnvironment] either returns an idle container
    environment for the language, named by the next identifier and registered
    under it in the worker pool, with zero executions, after Docker has
    created and started the container; or it throws and leaves the worker
    pool as it was. When it throws after the creation has been served, the
    container stays behind: no request stops or removes it. *)
Theorem createExecutionEnvironment_outcome language w :
  let image := lit "letscode-" ++ SupportedLanguage_string language ++ lit ":minimal" in
  exists r w',
    createExecutionEnvironment language w = (r, w')
    /\ submissions w' = submissions w /\ queue w' = queue w
    /\ match r with
       | Returned env =>
           ExecutionEnvironment.id env = upcoming_uuid w
           /\ ExecutionEnvironment.type env = container
           /\ ExecutionEnvironment.language env = language
           /\ ExecutionEnvironment.status env = idle
           /\ ExecutionEnvironment.executionCount env = 0
           /\ ExecutionEnvironment.createdAt env = now w'
           /\ ExecutionEnvironment.lastUsed env = now w'
           /\ workerPool w' = <[upcoming_uuid w := env]> (workerPool w)
           /\ docker w' = docker w ++ [CreateContainer image; StartContainer]
       | Threw error =>
           workerPool w' = workerPool w
           /\ (docker w' = docker w \/ docker w' = docker w ++ [CreateContainer image])
       end.
Proof.
  intros image. unfold createExecutionEnvironment. unfold bind at 1.
  rewrite uuidv4_run. fold image.
  destruct w as [now uuids replies streams docker pool subs queue console].
  unfold docker_request, bind, external, modify, Date_now, gets, ret. cbn.
  destruct replies as [|[t1 [|e1]] [|[t2 [|e2]] rest]]; cbn;
    (eexists _, _; split; [reflexivity|]); cbn;
    rewrite <- ?app_assoc; auto 12.
Qed.

Lemma createExecutionEnvironment_run language w :
  all_served w ->
  exists env w',
    createExecutionEnvironment language w = (Returned env, w')
    /\ all_served w'
    /\ ExecutionEnvironment.id env = upcoming_uuid w
    /\ ExecutionEnvironment.language env = language
    /\ uuids w' = tl (uuids w)
    /\ streams w' = streams w
    /\ docker w'
       = docker w
         ++ [CreateContainer
               (lit "letscode-" ++ SupportedLanguage_string language ++ lit ":minimal");
             StartContainer]
    /\ workerPool w' = <[upcoming_uuid w := env]> (workerPool w)
    /\ submissions w' = submissions w /\ queue w' = queue w
    /\ console w' = console w.
Proof.
  intros Hserved. unfold createExecutionEnvironment. unfold bind at 1.
  rewrite uuidv4_run.
  set (w0 := set_uuids (tl (uuids w)) w).
  assert (Hs0 : all_served w0) by exact Hserved.
  pose proof (requested_refl w0) as Hr0.
  unfold bind at 1. call w0. unfold bind at 1. call w0.
  match goal with H : requested _ w0 ?x |- _ =>
    destruct H as (Hu & Hst & Hd & Hp & Hsub & Hq & Hc) end.
  unfold bind, Date_now, gets, modify, ret. cbn.
  eexists _, _. split; [reflexivity|]. cbn. rewrite Hp.
  split; [assumption|]. auto 12.
Qed.

Lemma destroyEnvironment_run env w :
  all_served w ->
  exists w',
    destroyEnvironment env w = (Returned tt, w')
    /\ all_served w'
    /\ uuids w' = uuids w
    /\ streams w' = streams w
    /\ docker w'
       = docker w ++ [StopContainer (ExecutionEnvironment.id env);
                      RemoveContainer (ExecutionEnvironment.id env)]
    /\ workerPool w' = delete (ExecutionEnvironment.id env) (workerPool w)
    /\ submissions w' = submissions w /\ queue w' = queue w
    /\ console w' = console w.
Proof.
  intros Hserved. unfold destroyEnvironment, try_catch.
  pose proof (requested_refl w) as Hr0.
  unfold bind at 1. call w. unfold bind at 1. call w.
  match goal with H : requested _ w ?x |- _ =>
    destruct H as (Hu & Hst & Hd & Hp & Hsub & Hq & Hc) end.
  unfold modify. eexists. split; [reflexivity|]. cbn. rewrite Hp.
  split; [assumption|]. auto 12.
Qed.

(** X14: in a world that serves every call, and whose next identifier names no
    environment of the worker pool, [runCustomTest] returns the result of the
    run and leaves the worker pool as it found it; Docker has then served ten
    requests: creation and start of the container, the six requests of the
    run, and the stop and the removal of the container. *)
Theorem runCustomTest_when_served code input language w :
  all_served w ->
  workerPool w !! upcoming_uuid w = None ->
  let containerId := upcoming_uuid w in
  exists result w',
    ExecutionController.runCustomTest code input language w = (Returned result, w')
    /\ workerPool w' = workerPool w
    /\ docker w'
       = docker w
         ++ [CreateContainer
               (lit "letscode-" ++ SupportedLanguage_string language ++ lit ":minimal");
             StartContainer;
             Exec containerId
               [lit "sh"; lit "-c";
                lit "echo '" ++ escape_quotes code ++ lit "' > "
                ++ lit "/workspace/solution"];
             StartExec containerId;
             Exec containerId
               [lit "sh"; lit "-c";
                lit "echo '" ++ escape_quotes input ++ lit "' > "
                ++ lit "/workspace/input.txt"];
             StartExec containerId;
             Exec containerId (getExecutionCommand language);
             StartExec containerId;
             StopContainer containerId;
             RemoveContainer containerId]
    /\ (ExecutionResult.success result = true
        <-> exists at_ms,
             ending (upcoming_stream w) = Ends at_ms
             /\ PrimFloat.ltb at_ms 5000 = true).
Proof.
  intros Hserved Hfresh containerId.
  destruct (createExecutionEnvironment_run language w Hserved)
    as (env & w1 & Hcreate & Hs1 & Hid & Hlang & Hu1 & Hst1 & Hd1 & Hp1 & _).
  destruct (executeInContainer_run env code input
              ExecutionController.customTest_limits w1 Hs1)
    as (result & w2 & Hrun & Hs2 & Hd2 & Hu2 & Hp2 & _ & _ & _ & Hok & _).
  destruct (destroyEnvironment_run env w2 Hs2)
    as (w3 & Hdestroy & Hs3 & Hu3 & Hst3 & Hd3 & Hp3 & _).
  exists result, w3. split.
  { unfold ExecutionController.runCustomTest, bind at 1. rewrite Hcreate.
    unfold try_finally, bind. rewrite Hrun. cbn. now rewrite Hdestroy. }
  split.
  { rewrite Hp3, Hp2, Hp1, Hid. apply delete_insert_id. exact Hfresh. }
  split.
  { rewrite Hd3, Hd2, Hd1, Hid, Hlang. fold containerId.
    rewrite <- !app_assoc. reflexivity. }
  rewrite Hok. unfold upcoming_stream. rewrite Hst1. reflexivity.
Qed.

Lemma runCustomTest_when_served_witness :
  all_served quiet_world
  /\ workerPool quiet_world !! upcoming_uuid quiet_world = None
  /\ exists result w',
      ExecutionController.runCustomTest (lit "print(42)") [] python quiet_world
      = (Returned result, w')
      /\ workerPool w' = workerPool quiet_world.
Proof.
  split; [reflexivity|]. split; [reflexivity|].
  destruct (runCustomTest_when_served (lit "print(42)") [] python quiet_world
              eq_refl eq_refl)
    as (result & w' & Hrun & Hpool & _).
  eauto.
Defined.

End ServedOrchestration.

(** ** What [processSubmission] does to the submission object *)

Section ProcessedObject.
Import World ContainerOrchestrator ExecutionController JudgeEngine.

(** The kinds of verdict that a run in a container can lead to. *)
Local Abbreviation from_a_run kind :=
  (kind = Accepted \/ kind = WrongAnswer \/ kind = TimeLimitExceeded
   \/ kind = RuntimeError).

Lemma judge_kind testCase n result :
  (ExecutionResult.success result = true /\ ExecutionResult.verdict result = None)
  \/ (ExecutionResult.success result = false
      /\ ExecutionResult.verdict result = Some RuntimeError) ->
  from_a_run (TestCaseResult.verdict (judge testCase n result)).
Proof.
  unfold judge. intros [(-> & ->)|(-> & ->)]; cbn; [|tauto].
  destruct (over_time_limit result testCase); cbn; [tauto|].
  match goal with |- context [if ?b then _ else _] => destruct b end; tauto.
Qed.

Lemma one_case_kind env testCase n p :
  from_a_run
    (TestCaseResult.verdict (fst (one_case (executeFunction env) testCase n p))).
Proof.
  unfold one_case. destruct p as [s w].
  unfold executeFunction, bind, submission, gets. cbn [fst snd]. rewrite world_run.
  pose proof (executeInContainer_verdict env (Submission.code s) (TestCase.input testCase)
                submission_limits w) as Hv. cbv zeta in Hv.
  destruct (executeInContainer env (Submission.code s) (TestCase.input testCase)
              submission_limits w) as [[result|error] w']; cbn [fst snd] in *.
  - apply judge_kind. now apply Hv.
  - cbn. tauto.
Qed.

Lemma evaluate_loop_Forall {W} (exec : jsstring -> M W ExecutionResult.t)
    (P : TestCaseResult.t -> Prop) :
  (forall testCase n w, P (fst (one_case exec testCase n w))) ->
  forall cases i acc w,
    Forall P acc ->
    exists results w',
      evaluate_loop exec cases i acc w = (Returned results, w')
      /\ Forall P results
      /\ length results <= length acc + length cases.
Proof.
  intros Hone. induction cases as [|testCase rest IH]; intros i acc w Hacc;
    cbn [evaluate_loop].
  - exists acc, w. split; [reflexivity|]. split; [exact Hacc|]. lia.
  - unfold bind at 1. rewrite runTestCase_one_case.
    pose proof (Hone testCase (i + 1) w) as Hr.
    destruct (one_case exec testCase (i + 1) w) as [r w1]. cbn [fst snd] in *.
    assert (Hacc' : Forall P (acc ++ [r])) by (apply Forall_app; auto).
    destruct (negb (TestCaseResult.passed r)).
    + exists (acc ++ [r]), w1. split; [reflexivity|]. split; [exact Hacc'|].
      rewrite length_app. cbn. lia.
    + destruct (IH (S i) (acc ++ [r]) w1 Hacc') as (results & w' & -> & HP & Hlen).
      exists results, w'. split; [reflexivity|]. split; [exact HP|].
      rewrite length_app in Hlen. cbn in *. lia.
Qed.

Lemma generateVerdict_kind results totalTests verdict :
  generateVerdict results totalTests = Returned verdict ->
  Verdict.totalTests verdict = totalTests
  /\ Verdict.passedTests verdict <= length results
  /\ (Verdict.status verdict = Accepted
      \/ exists r, In r results /\ Verdict.status verdict = TestCaseResult.verdict r).
Proof.
  unfold generateVerdict. destruct (forallb TestCaseResult.passed results).
  - intros [= <-]. cbn. auto.
  - destruct (find _ results) as [f|] eqn:E; [|discriminate].
    intros [= <-]. cbn. split; [reflexivity|]. split.
    + apply filter_length_le.
    + right. exists f. split; [|reflexivity]. now apply find_some in E.
Qed.

Lemma evaluate_preserves {W} (I : W -> Prop) (exec : jsstring -> M W ExecutionResult.t)
    code cases :
  (forall input, preserves I (exec input)) ->
  preserves I (evaluate exec code cases).
Proof.
  intros Hexec. unfold evaluate. invariant.
  generalize 0 at 1. generalize (@nil TestCaseResult.t).
  induction cases as [|testCase rest IH]; intros acc i; cbn [evaluate_loop].
  - invariant.
  - unfold runTestCase. invariant; auto.
Qed.

Lemma world_preserves {A} (I : World.t -> Prop) (m : M World.t A) :
  preserves I m -> preserves (fun p : Processing => I (snd p)) (world m).
Proof. intros H [s w] Hw. rewrite world_run. cbn. now apply H. Qed.

Lemma executeFunction_all_served env input :
  preserves (fun p : Processing => all_served (snd p)) (executeFunction env input).
Proof.
  unfold executeFunction, submission. invariant.
  apply world_preserves, executeInContainer_all_served.
Qed.

(** The judge, as [processSubmission] calls it: the object is not touched,
    nothing persisted changes, and the verdict is about one test case. *)
Lemma evaluate_in_processing env s w :
  exists verdict w1,
    evaluate (executeFunction env) (Submission.code s) testCases (s, w)
    = (Returned verdict, (s, w1))
    /\ persisted w1 = persisted w
    /\ (all_served w -> all_served w1)
    /\ Verdict.totalTests verdict = 1
    /\ Verdict.passedTests verdict <= 1
    /\ from_a_run (Verdict.status verdict).
Proof.
  pose proof (evaluate_unchanged kept (executeFunction env) (Submission.code s)
                testCases (executeFunction_kept env) (s, w)) as Hkept.
  pose proof (evaluate_preserves (fun p : Processing => all_served (snd p))
                (executeFunction env) (Submission.code s) testCases
                (executeFunction_all_served env) (s, w)) as Hserved.
  revert Hkept Hserved. unfold evaluate, bind.
  destruct (evaluate_loop_Forall (executeFunction env)
              (fun r => from_a_run (TestCaseResult.verdict r))
              (one_case_kind env) testCases 0 [] (s, w) (List.Forall_nil _))
    as (results & [s1 w1] & -> & Hkinds & Hlen).
  destruct (generateVerdict_returns results (length testCases)) as [verdict Hv].
  unfold lift. rewrite Hv. cbn [fst snd]. unfold kept. cbn [fst snd].
  intros [= -> Hsubs Hqueue] Hserved.
  exists verdict, w1. split; [reflexivity|].
  split; [unfold persisted; congruence|]. split; [exact Hserved|].
  destruct (generateVerdict_kind _ _ _ Hv) as (Htotal & Hpassed & Hstatus).
  split; [exact Htotal|].
  split; [change (length testCases) with 1 in Hlen; cbn [length] in Hlen; lia|].
  destruct Hstatus as [->|(r & Hin & ->)]; [tauto|].
  rewrite List.Forall_forall in Hkinds. now apply Hkinds.
Qed.

(** The [try]/[catch]/[finally] statement, step by step. *)
Lemma processSubmission_guarded_steps env s w :
  exists verdict w1,
    evaluate (executeFunction env) (Submission.code s) testCases (s, w)
    = (Returned verdict, (s, w1))
    /\ let sC := completed verdict (now w1) s in
       processSubmission_guarded env (s, w)
       = match SubmissionRepository.update sC w1 with
         | (Returned _, w2) =>
             (Returned tt, (sC, snd (destroyEnvironment env w2)))
         | (Threw error, w2) =>
             let sF := failed (now w2) sC in
             (match fst (SubmissionRepository.update sF w2) with
              | Returned _ => Threw error
              | Threw error' => Threw error'
              end,
              (sF, snd (destroyEnvironment env
                          (snd (SubmissionRepository.update sF w2)))))
         end.
Proof.
  destruct (evaluate_in_processing env s w) as (verdict & w1 & Hev & _).
  exists verdict, w1. split; [exact Hev|]. cbv zeta.
  assert (Htry : processSubmission_try env (s, w)
                 = (fst (SubmissionRepository.update (completed verdict (now w1) s) w1),
                    (completed verdict (now w1) s,
                     snd (SubmissionRepository.update
                            (completed verdict (now w1) s) w1)))).
  { unfold processSubmission_try. unfold bind at 1. unfold gets at 1. cbn [fst].
    unfold bind at 1. rewrite Hev.
    unfold bind, assign, modify, submission, gets, Date_now, world, within. cbn.
    destruct (SubmissionRepository.update _ w1); reflexivity. }
  unfold processSubmission_guarded, try_finally, try_catch. rewrite Htry.
  set (sC := completed verdict (now w1) s).
  destruct (SubmissionRepository.update sC w1) as [[[]|error] w2]; cbn [fst snd].
  - rewrite world_run.
    destruct (destroyEnvironment_outcome env w2) as (w3 & -> & _). reflexivity.
  - rewrite processSubmission_catch_run.
    set (sF := failed (now w2) sC).
    destruct (SubmissionRepository.update sF w2) as [r3 w3]. cbn [fst snd].
    rewrite world_run.
    destruct (destroyEnvironment_outcome env w3) as (w4 & -> & _).
    destruct r3 as [[]|error']; reflexivity.
Qed.

(** [processSubmission], step by step. *)
Lemma processSubmission_steps s w :
  let sR := started (now w) s in
  processSubmission (s, w)
  = match SubmissionRepository.update sR w with
    | (Returned _, w1) =>
        match createExecutionEnvironment (Submission.language sR) w1 with
        | (Returned env, w2) => processSubmission_guarded env (sR, w2)
        | (Threw error, w2) => (Threw error, (sR, w2))
        end
    | (Threw error, w1) => (Threw error, (sR, w1))
    end.
Proof.
  cbv zeta. unfold processSubmission, started.
  unfold bind, assign, modify, submission, gets, Date_now, world, within. cbn.
  destruct (SubmissionRepository.update _ w) as [[[]|error] w1]; [|reflexivity].
  cbn. destruct (createExecutionEnvironment _ w1) as [[env|error] w2]; reflexivity.
Qed.

(** X15: whatever the world does, [processSubmission] changes of the
    submission object only the status, the verdict and the two times: the
    identifier, user, problem, code, language, creation time and strategy
    stay, and so do the test results, which are never filled in. A verdict
    that it attaches is about exactly one test case and is of one of four
    kinds: Accepted, Wrong Answer, Time Limit Exceeded or Runtime Error. *)
Theorem processSubmission_touches_four_fields s w :
  exists r s' w',
    processSubmission (s, w) = (r, (s', w'))
    /\ Submission.id s' = Submission.id s
    /\ Submission.userId s' = Submission.userId s
    /\ Submission.problemId s' = Submission.problemId s
    /\ Submission.code s' = Submission.code s
    /\ Submission.language s' = Submission.language s
    /\ Submission.createdAt s' = Submission.createdAt s
    /\ Submission.executionStrategy s' = Submission.executionStrategy s
    /\ Submission.testResults s' = Submission.testResults s
    /\ is_Some (Submission.startedAt s')
    /\ (Submission.verdict s' = Submission.verdict s
        \/ exists verdict,
            Submission.verdict s' = Some verdict
            /\ Verdict.totalTests verdict = 1
            /\ Verdict.passedTests verdict <= 1
            /\ (Verdict.status verdict = Accepted
                \/ Verdict.status verdict = WrongAnswer
                \/ Verdict.status verdict = TimeLimitExceeded
                \/ Verdict.status verdict = RuntimeError)).
Proof.
  rewrite processSubmission_steps. cbv zeta.
  set (sR := started (now w) s).
  destruct (SubmissionRepository.update sR w) as [[[]|error] w1].
  2:{ eexists _, sR, w1. split; [reflexivity|]. cbn. eauto 15. }
  destruct (createExecutionEnvironment (Submission.language sR) w1)
    as [[env|error] w2].
  2:{ eexists _, sR, w2. split; [reflexivity|]. cbn. eauto 15. }
  destruct (processSubmission_guarded_steps env sR w2) as (verdict & w3 & Hev & ->).
  destruct (evaluate_in_processing env sR w2)
    as (verdict' & w3' & Hev' & _ & _ & Htotal & Hpassed & Hkind).
  rewrite Hev in Hev'. injection Hev' as <- <-.
  cbv zeta. set (sC := completed verdict (now w3) sR).
  destruct (SubmissionRepository.update sC w3) as [[[]|error] w4];
    (eexists _, _, _; split; [reflexivity|]); cbn; eauto 15.
Qed.

End ProcessedObject.

(** ** A submission from intake to verdict, in a world that serves every call *)

Section ServedPipeline.
Import World ContainerOrchestrator ExecutionController.

Local Set Warnings "-inexact-float".

(** The submission that [submit] builds for a request. *)
Local Abbreviation built request submissionId queueDepth createdAt :=
  {| Submission.id := submissionId;
     Submission.userId := SubmissionRequest.userId request;
     Submission.problemId := SubmissionRequest.problemId request;
     Submission.code := SubmissionRequest.code request;
     Submission.language := SubmissionRequest.language request;
     Submission.status := Queued;
     Submission.verdict := None;
     Submission.createdAt := createdAt;
     Submission.startedAt := None;
     Submission.completedAt := None;
     Submission.executionStrategy :=
       StrategyRouter.selectStrategy
         (StrategyRouter.analyzeCode (SubmissionRequest.code request)
            (SubmissionRequest.language request))
         {| SystemMetrics.serverLoad := 0.5;
            SystemMetrics.queueDepth := queueDepth;
            SystemMetrics.availableWorkers := 10;
            SystemMetrics.avgResponseTime := 1000 |};
     Submission.testResults := [] |}.

Lemma submit_run_served request w :
  all_served w ->
  code_is_empty (SubmissionRequest.code request) = false ->
  submissions w !! upcoming_uuid w = None ->
  exists createdAt w',
    let queued := built request (upcoming_uuid w) (length (queue w)) createdAt in
    submit request w = (Returned (upcoming_uuid w), w')
    /\ all_served w'
    /\ uuids w' = tl (uuids w)
    /\ streams w' = streams w
    /\ docker w' = docker w
    /\ workerPool w' = workerPool w
    /\ submissions w' = <[upcoming_uuid w := queued]> (submissions w)
    /\ queue w' = queue w ++ [queued].
Proof.
  intros Hserved Hcode Hfresh. unfold submit. rewrite Hcode.
  unfold bind at 1. rewrite uuidv4_run.
  set (w0 := set_uuids (tl (uuids w)) w).
  assert (Hs0 : all_served w0) by exact Hserved.
  unfold bind at 1.
  destruct (getQueueDepth_run w0 Hs0) as (w1 & -> & Hs1 & Hr1).
  unfold bind at 1, Date_now at 1, gets at 1.
  change (queue w0) with (queue w).
  set (queued := built request (upcoming_uuid w) (length (queue w)) (now w1)).
  assert (Hfresh1 : submissions w1 !! Submission.id queued = None).
  { pose proof Hr1 as (_ & _ & _ & _ & -> & _). exact Hfresh. }
  unfold bind at 1.
  destruct (create_run_served queued w1 Hs1 Hfresh1) as (w2 & Hs2 & Hr2 & ->).
  unfold bind at 1.
  match goal with |- context [SubmissionQueue.enqueue queued ?x] => set (w2' := x) end.
  assert (Hs2' : all_served w2') by exact Hs2.
  destruct (enqueue_run_served queued w2' Hs2') as (w3 & w4 & Hs4 & Hr3 & Hr4 & ->).
  unfold bind, console_line, modify, ret. cbn.
  exists (now w1). eexists.
  destruct Hr1 as (Hu1 & Hst1 & Hd1 & Hp1 & Hsub1 & Hq1 & _).
  destruct Hr2 as (Hu2 & Hst2 & Hd2 & Hp2 & Hsub2 & Hq2 & _).
  destruct Hr3 as (Hu3 & Hst3 & Hd3 & Hp3 & Hsub3 & Hq3 & _).
  destruct Hr4 as (Hu4 & Hst4 & Hd4 & Hp4 & Hsub4 & Hq4 & _).
  subst w2'. cbn in *. rewrite app_nil_r in *.
  split; [reflexivity|]. split; [exact Hs4|]. cbn.
  split; [congruence|]. split; [congruence|]. split; [congruence|].
  split; [congruence|]. split.
  - rewrite Hsub4, Hsub3, Hsub1. reflexivity.
  - rewrite Hq4, Hq2, Hq1. reflexivity.
Qed.

(** X16: in a world that serves every call, [submit] of a request with code
    returns the next identifier, stores a row and appends a queue entry that
    are the same submission: [Queued], without verdict, times or test
    results, with the fields of the request, and with the strategy that the
    router selects for the code under a load of 0.5. What was in the table
    and in the queue stays. *)
Theorem submit_stores_and_enqueues request w :
  all_served w ->
  code_is_empty (SubmissionRequest.code request) = false ->
  submissions w !! upcoming_uuid w = None ->
  exists queued w',
    submit request w = (Returned (upcoming_uuid w), w')
    /\ submissions w' = <[upcoming_uuid w := queued]> (submissions w)
    /\ queue w' = queue w ++ [queued]
    /\ Submission.id queued = upcoming_uuid w
    /\ Submission.userId queued = SubmissionRequest.userId request
    /\ Submission.problemId queued = SubmissionRequest.problemId request
    /\ Submission.code queued = SubmissionRequest.code request
    /\ Submission.language queued = SubmissionRequest.language request
    /\ Submission.status queued = Queued
    /\ Submission.verdict queued = None
    /\ Submission.startedAt queued = None
    /\ Submission.completedAt queued = None
    /\ Submission.testResults queued = []
    /\ Submission.executionStrategy queued
       = StrategyRouter.selectStrategy
           (StrategyRouter.analyzeCode (SubmissionRequest.code request)
              (SubmissionRequest.language request))
           {| SystemMetrics.serverLoad := 0.5;
              SystemMetrics.queueDepth := length (queue w);
              SystemMetrics.availableWorkers := 10;
              SystemMetrics.avgResponseTime := 1000 |}.
Proof.
  intros Hserved Hcode Hfresh.
  destruct (submit_run_served request w Hserved Hcode Hfresh)
    as (createdAt & w' & Hrun & _ & _ & _ & _ & _ & Hsubs & Hqueue).
  eexists _, w'. split; [exact Hrun|]. split; [exact Hsubs|].
  split; [exact Hqueue|]. cbn. auto 15.
Qed.

Lemma submit_stores_and_enqueues_witness :
  all_served factorial_world
  /\ code_is_empty (SubmissionRequest.code factorial_request) = false
  /\ submissions factorial_world !! upcoming_uuid factorial_world = None
  /\ fst (submit factorial_request factorial_world) = Returned (lit "sub-1").
Proof.
  split; [reflexivity|]. split; [reflexivity|]. split; [reflexivity|].
  destruct (submit_stores_and_enqueues factorial_request factorial_world
              eq_refl eq_refl eq_refl) as (queued & w' & -> & _).
  reflexivity.
Defined.






(** The same run, computed: the program prints 120, and the submission that
    is read back is [Accepted] with one test passed out of one. *)
Example factorial_is_accepted :
  match submit factorial_request factorial_world with
  | (Returned submissionId, w1) =>
      match SubmissionQueue.dequeue w1 with
      | (Returned (Some queued), w2) =>
          let '(_, (_, w3)) := processSubmission (queued, w2) in
          match getSubmission submissionId w3 with
          | (Returned (Some found), _) =>
              Submission.status found = Completed
              /\ (Verdict.status <$> Submission.verdict found) = Some Accepted
              /\ (Verdict.passedTests <$> Submission.verdict found) = Some 1
          | _ => False
          end
      | _ => False
      end
  | _ => False
  end.
Proof. vm_compute. repeat split. Qed.

(** X18: [submit] is not atomic. When the queue rejects the push, after the
    depth query and the insertion have been served, [submit] throws what the
    queue threw, and the row that it has inserted stays in the table,
    [Queued], while the queue has no entry for it. *)
Theorem submit_leaves_row_when_queue_fails request w r1 r2 r3 rest error :
  code_is_empty (SubmissionRequest.code request) = false ->
  submissions w !! upcoming_uuid w = None ->
  replies w = r1 :: r2 :: r3 :: rest ->
  fate r1 = Resolves -> fate r2 = Resolves -> fate r3 = Rejects error ->
  exists row w',
    submit request w = (Threw error, w')
    /\ submissions w' = <[upcoming_uuid w := row]> (submissions w)
    /\ Submission.status row = Queued
    /\ Submission.code row = SubmissionRequest.code request
    /\ queue w' = queue w.
Proof.
  intros Hcode Hfresh Hreplies H1 H2 H3. unfold submit. rewrite Hcode.
  unfold bind at 1. rewrite uuidv4_run.
  destruct w as [now uuids replies streams docker pool subs queue console].
  cbn in Hreplies, Hfresh. subst replies.
  destruct r1 as [t1 f1], r2 as [t2 f2], r3 as [t3 f3]. cbn in H1, H2, H3. subst.
  unfold SubmissionQueue.getQueueDepth, SubmissionRepository.create,
    SubmissionQueue.enqueue.
  unfold bind, external, gets, modify, Date_now, ret. cbn. rewrite Hfresh. cbn.
  eexists _, _. split; [reflexivity|]. cbn. auto.
Qed.

Lemma submit_leaves_row_when_queue_fails_witness :
  let w :=
    set_replies [mkReply 1 Resolves; mkReply 1 Resolves;
                 mkReply 1 (Rejects (ErrorObj (lit "connection refused")))]
      factorial_world in
  exists row w',
    submit factorial_request w = (Threw (ErrorObj (lit "connection refused")), w')
    /\ submissions w' !! lit "sub-1" = Some row
    /\ queue w' = [].
Proof.
  cbv zeta.
  destruct (submit_leaves_row_when_queue_fails factorial_request
              (set_replies [mkReply 1 Resolves; mkReply 1 Resolves;
                            mkReply 1 (Rejects (ErrorObj (lit "connection refused")))]
                 factorial_world)
              (mkReply 1 Resolves) (mkReply 1 Resolves)
              (mkReply 1 (Rejects (ErrorObj (lit "connection refused")))) []
              (ErrorObj (lit "connection refused"))
              eq_refl eq_refl eq_refl eq_refl eq_refl eq_refl)
    as (row & w' & Hrun & Hsubs & _ & _ & Hqueue).
  exists row, w'. split; [exact Hrun|]. split; [|exact Hqueue].
  rewrite Hsubs. apply lookup_insert_eq.
Defined.


End ServedPipeline.

(** ** The routes of the API server *)

Section Routes.
Import World ExecutionController.

(** X19: [POST /api/submit] never throws and answers with one of three status
    codes: 400 exactly when the code is blank, and then nothing has happened;
    otherwise 200 with the identifier when [submit] returns one, and 500 with
    the body [Internal server error] when [submit] throws, in which case what
    it threw is logged. *)
Theorem post_submit_answers request w :
  exists status body w',
    ApiServer.post_submit request w = (Returned (status, body), w')
    /\ (status = 400 \/ status = 200 \/ status = 500)
    /\ (status = 400 <-> code_is_empty (SubmissionRequest.code request) = true)
    /\ (status = 400 ->
        body = ApiServer.ErrorBody (lit "Code cannot be empty") /\ w' = w)
    /\ (status = 200 ->
        exists submissionId,
          body = ApiServer.SubmissionIdBody submissionId
          /\ submit request w = (Returned submissionId, w'))
    /\ (status = 500 ->
        exists error w1,
          body = ApiServer.ErrorBody (lit "Internal server error")
          /\ submit request w = (Threw error, w1)
          /\ w' = set_console
                    (console w1 ++ [mkPrinted (lit "Submission error:") (Some error)])
                    w1).
Proof.
  unfold ApiServer.post_submit, try_catch.
  destruct (code_is_empty (SubmissionRequest.code request)) eqn:Hcode.
  - cbn. eexists _, _, _. split; [reflexivity|].
    split; [auto|]. split; [tauto|]. split; [auto|].
    split; discriminate.
  - unfold bind at 1.
    destruct (submit request w) as [[submissionId|error] w1] eqn:Hsubmit.
    + cbn. eexists _, _, _. split; [reflexivity|].
      split; [auto|]. split; [split; discriminate|]. split; [discriminate|].
      split; [eauto|discriminate].
    + cbn. eexists _, _, _. split; [reflexivity|].
      split; [auto|]. split; [split; discriminate|]. split; [discriminate|].
      split; [discriminate|eauto 6].
Qed.

(** X20: [POST /api/test] never throws and does not look at the code: blank
    code is run like any other. It answers 500 exactly when no environment
    could be created, and logs what was thrown; otherwise it answers 200 with
    the result of the run. The table and the queue are not touched. *)
Theorem post_test_answers code input language w :
  exists response w',
    ApiServer.post_test code input language w = (Returned response, w')
    /\ persisted w' = persisted w
    /\ match ContainerOrchestrator.createExecutionEnvironment language w with
       | (Returned env, w1) =>
           exists result w2,
             ContainerOrchestrator.executeInContainer env code input
               customTest_limits w1 = (Returned result, w2)
             /\ response = (200, ApiServer.ResultBody result)
       | (Threw error, w1) =>
           response = (500, ApiServer.ErrorBody (lit "Internal server error"))
           /\ w' = set_console
                     (console w1
                      ++ [mkPrinted (lit "Custom test error:") (Some error)])
                     w1
       end.
Proof.
  pose proof (runCustomTest_persisted code input language w) as Hkept.
  assert (Hrun : runCustomTest code input language w
                 = match ContainerOrchestrator.createExecutionEnvironment language w with
                   | (Returned env, w1) =>
                       try_finally
                         (result <- ContainerOrchestrator.executeInContainer env code
                                      input customTest_limits ;;
                          ret result)
                         (ContainerOrchestrator.destroyEnvironment env) w1
                   | (Threw error, w1) => (Threw error, w1)
                   end) by reflexivity.
  unfold ApiServer.post_test, try_catch. unfold bind at 1.
  rewrite Hrun in *. clear Hrun.
  destruct (ContainerOrchestrator.createExecutionEnvironment language w)
    as [[env|error] w1].
  - destruct (executeInContainer_returns env code input customTest_limits w1)
      as (result & w2 & Hexec).
    destruct (destroyEnvironment_outcome env w2) as (w3 & Hdestroy & _).
    revert Hkept. unfold try_finally, bind. rewrite Hexec. cbn. rewrite Hdestroy. cbn.
    intros Hkept. eexists _, _. split; [reflexivity|]. split; [exact Hkept|]. eauto.
  - cbn in *. eexists _, _. split; [reflexivity|]. split; [exact Hkept|]. auto.
Qed.


End Routes.

(** ** The WebSocket server *)

Section Sockets.
Import WebSocketServer.










Lemma send_sockets member m s ws :
  sockets (send member m s) !! ws
  = match sockets s !! ws with
    | Some sock =>
        Some (if Nat.eqb member ws
              then mkSocket (readyState sock) (sent sock ++ [m])
              else sock)
    | None => None
    end.
Proof.
  unfold send. destruct (sockets s !! member) as [sock|] eqn:E; cbn.
  - destruct (Nat.eqb_spec member ws) as [<-|Hne].
    + now rewrite lookup_insert_eq, E.
    + rewrite lookup_insert_ne by congruence. now destruct (sockets s !! ws).
  - destruct (Nat.eqb_spec member ws) as [<-|Hne].
    + now rewrite E.
    + now destruct (sockets s !! ws).
Qed.

Lemma send_to_open_sockets m members : forall s ws,
  NoDup members ->
  clients (send_to_open members m s) = clients s
  /\ sockets (send_to_open members m s) !! ws
     = match sockets s !! ws with
       | Some sock =>
           Some (if existsb (Nat.eqb ws) members && is_open ws s
                 then mkSocket (readyState sock) (sent sock ++ [m])
                 else sock)
       | None => None
       end.
Proof.
  induction members as [|member rest IH]; intros s ws Hnodup; cbn [send_to_open existsb].
  - split; [reflexivity|]. now destruct (sockets s !! ws).
  - apply NoDup_cons in Hnodup as [Hfresh Hrest].
    set (s1 := if is_open member s then send member m s else s).
    destruct (IH s1 ws Hrest) as [Hclients ->]. split.
    { rewrite Hclients. subst s1. destruct (is_open member s); [|reflexivity].
      unfold send. now destruct (sockets s !! member). }
    assert (Hstep : sockets s1 !! ws
                    = match sockets s !! ws with
                      | Some sock =>
                          Some (if Nat.eqb ws member && is_open ws s
                                then mkSocket (readyState sock) (sent sock ++ [m])
                                else sock)
                      | None => None
                      end).
    { subst s1. destruct (Nat.eqb_spec ws member) as [->|Hne]; cbn [andb].
      - destruct (is_open member s); [|now destruct (sockets s !! member)].
        rewrite send_sockets, Nat.eqb_refl. reflexivity.
      - destruct (is_open member s); [|now destruct (sockets s !! ws)].
        rewrite send_sockets. destruct (Nat.eqb_spec member ws); [congruence|].
        reflexivity. }
    assert (Hopen : is_open ws s1 = is_open ws s).
    { unfold is_open. rewrite Hstep. destruct (sockets s !! ws) as [sock|]; [|reflexivity].
      destruct (Nat.eqb ws member && _); reflexivity. }
    rewrite Hstep, Hopen. destruct (sockets s !! ws) as [sock|]; [|reflexivity].
    destruct (Nat.eqb_spec ws member) as [->|Hne]; cbn [andb orb]; [|reflexivity].
    assert (Hnot : existsb (Nat.eqb member) rest = false).
    { apply not_true_is_false. intros H. apply existsb_exists in H as (x & Hx & Heq).
      apply Nat.eqb_eq in Heq. subst x. apply Hfresh. now apply list_elem_of_In. }
    rewrite Hnot. cbn [andb]. reflexivity.
Qed.

(** X23: [sendUpdate] delivers the update exactly once to every socket of the
    user that is open, and to no other socket: not to a socket of the user
    that is connecting, closing or closed, and not to the sockets of other
    users. The map of clients is not changed, and a user without sockets
    gets nothing. *)
Theorem sendUpdate_reaches_open_sockets_of_user userId update s ws :
  well_formed s ->
  let s' := sendUpdate userId update s in
  let addressed :=
    match clients s !! userId with
    | Some members => existsb (Nat.eqb ws) members
    | None => false
    end in
  clients s' = clients s
  /\ sockets s' !! ws
     = match sockets s !! ws with
       | Some sock =>
           Some (if addressed && is_open ws s
                 then mkSocket (readyState sock) (sent sock ++ [status_update update])
                 else sock)
       | None => None
       end.
Proof.
  intros Hwf. cbv zeta. unfold sendUpdate.
  destruct (clients s !! userId) as [members|] eqn:E.
  - apply send_to_open_sockets. now apply (Hwf userId members).
  - split; [reflexivity|]. now destruct (sockets s !! ws).
Qed.

Lemma sendUpdate_reaches_open_sockets_of_user_witness :
  well_formed two_users
  /\ sockets (sendUpdate (lit "alice") running_update two_users) !! 1
     = Some (mkSocket OPEN [status_update running_update])
  /\ sockets (sendUpdate (lit "alice") running_update two_users) !! 2
     = Some (mkSocket CLOSED [])
  /\ sockets (sendUpdate (lit "alice") running_update two_users) !! 3
     = Some (mkSocket OPEN []).
Proof.
  assert (Hwf : well_formed two_users).
  { intros userId members H. unfold two_users in H. cbn [clients] in H.
    apply lookup_insert_Some in H as [[_ <-]|[_ H]].
    - split; [discriminate|]. apply NoDup_ListNoDup.
      repeat constructor; cbn; lia.
    - apply lookup_singleton_Some in H as [_ <-].
      split; [discriminate|]. apply NoDup_ListNoDup.
      repeat constructor; cbn; lia. }
  split; [exact Hwf|].
  split; [|split].
  - exact (proj2 (sendUpdate_reaches_open_sockets_of_user
                    (lit "alice") running_update two_users 1 Hwf)).
  - exact (proj2 (sendUpdate_reaches_open_sockets_of_user
                    (lit "alice") running_update two_users 2 Hwf)).
  - exact (proj2 (sendUpdate_reaches_open_sockets_of_user
                    (lit "alice") running_update two_users 3 Hwf)).
Defined.

(** *** The user of a connection *)

Lemma star_takes_all (p : N -> bool) id rest : forall prev,
  (forall c, In c id -> p c = true) ->
  (rest = [] \/ exists c rest', rest = c :: rest' /\ p c = false) ->
  Regex.star p (fun _ left => Some left) prev (id ++ rest) = Some rest.
Proof.
  induction id as [|c id IH]; intros prev Hid Hrest; cbn [app].
  - destruct Hrest as [->|(c & rest' & -> & Hc)]; cbn; [reflexivity|].
    now rewrite Hc.
  - cbn [Regex.star]. rewrite (Hid c) by now left.
    rewrite IH; [reflexivity| |exact Hrest]. intros x Hx. apply Hid. now right.
Qed.

Lemma first_match_skips i r pre s :
  (forall c rest prev, In c pre -> Regex.match_here i r prev (c :: rest) = None) ->
  forall prev,
    first_match i r prev (pre ++ s)
    = first_match i r (last_or prev pre) s.
Proof.
  intros Hpre. induction pre as [|c pre IH]; intros prev; [reflexivity|].
  cbn [app first_match]. rewrite Hpre by now left.
  rewrite IH by (intros; apply Hpre; now right).
  now rewrite last_or_cons.
Qed.

(** X24: the user of a connection is what follows the first [userId=] in the
    URL, up to the next ampersand or the end. For a URL in which nothing
    before [userId=] has the letter u, such as the one that the web client
    builds, this is the identifier that was put there, provided that it is
    not empty and has no ampersand; when it is empty, or when the URL has no
    letter u at all, the user is [anonymous]. 117 is the letter u and 38 the
    ampersand. *)
Theorem extractUserId_reads_the_query pre :
  (forall c, In c pre -> c <> 117%N) ->
  (forall id rest,
      id <> [] ->
      (forall c, In c id -> c <> 38%N) ->
      rest = [] \/ (exists rest', rest = 38%N :: rest') ->
      extractUserId (pre ++ lit "userId=" ++ id ++ rest) = id)
  /\ extractUserId (pre ++ lit "userId=") = lit "anonymous"
  /\ extractUserId pre = lit "anonymous".
Proof.
  intros Hpre.
  assert (Hskip : forall c rest prev,
             In c pre -> Regex.match_here false userId_pattern prev (c :: rest) = None).
  { intros c rest prev Hc. apply Hpre in Hc.
    unfold Regex.match_here, userId_pattern.
    let p := eval vm_compute in (Regex.str "userId=") in
    change (Regex.str "userId=") with p.
    cbn -[N.eqb]. destruct (N.eqb_spec 117 c); [congruence|reflexivity]. }
  split; [|split].
  - intros id rest Hne Hid Hrest. unfold extractUserId.
    rewrite first_match_skips by exact Hskip.
    destruct id as [|c id]; [congruence|].
    assert (Hc : N.eqb 38 c = false).
    { apply N.eqb_neq. intros <-. apply (Hid 38%N); [now left|reflexivity]. }
    assert (Hmatch : Regex.match_here false userId_pattern (last_or None pre)
                       (lit "userId=" ++ (c :: id) ++ rest) = Some rest).
    { unfold Regex.match_here, userId_pattern.
      let p := eval vm_compute in (Regex.str "userId=") in
      change (Regex.str "userId=") with p.
      let l := eval vm_compute in (lit "userId=") in
      change (lit "userId=") with l.
      cbn -[N.eqb]. rewrite Hc. cbn -[N.eqb].
      apply star_takes_all.
      - intros x Hx. cbn -[N.eqb]. apply negb_true_iff.
        destruct (N.eqb_spec 38 x) as [<-|]; [|now rewrite orb_false_r].
        exfalso. apply (Hid 38%N); [now right|reflexivity].
      - destruct Hrest as [->|[rest' ->]]; [now left|right].
        eexists _, _. split; [reflexivity|reflexivity]. }
    change (lit "userId=" ++ (c :: id) ++ rest)
      with (117 :: lit "serId=" ++ (c :: id) ++ rest)%N in *.
    cbn [first_match]. rewrite Hmatch.
    change (117 :: lit "serId=" ++ (c :: id) ++ rest)%N
      with (lit "userId=" ++ (c :: id) ++ rest).
    assert (Hlen : length (lit "userId=" ++ (c :: id) ++ rest) - length rest
                   = length (lit "userId=" ++ c :: id)).
    { rewrite !length_app. lia. }
    rewrite Hlen, app_assoc, take_app_length.
    now rewrite drop_app_length' by reflexivity.
  - unfold extractUserId. rewrite first_match_skips by exact Hskip.
    reflexivity.
  - unfold extractUserId.
    rewrite <- (app_nil_r pre), first_match_skips by exact Hskip. reflexivity.
Qed.

Lemma extractUserId_reads_the_query_witness :
  (forall c, In c (lit "ws://localhost:3001?") -> c <> 117%N)
  /\ extractUserId (lit "ws://localhost:3001?userId=alice&tab=2") = lit "alice"
  /\ extractUserId (lit "ws://localhost:3001?userId=") = lit "anonymous".
Proof.
  assert (H : forall c, In c (lit "ws://localhost:3001?") -> c <> 117%N).
  { intros c Hc ->. vm_compute in Hc.
    repeat (destruct Hc as [Hc|Hc]; [discriminate|]). exact Hc. }
  split; [exact H|].
  destruct (extractUserId_reads_the_query (lit "ws://localhost:3001?") H)
    as (Hid & Hempty & _).
  split; [|exact Hempty].
  apply (Hid (lit "alice") (lit "&tab=2")).
  - discriminate.
  - intros c Hc ->. vm_compute in Hc.
    repeat (destruct Hc as [Hc|Hc]; [discriminate|]). exact Hc.
  - right. eexists. reflexivity.
Defined.

End Sockets.
